(** * scrollomat: the directive compiler and its cubic-bezier solver

    A shallow embedding of [src/bezier.ts]: the class [BezierEasing] and
    [Scrollomat.compileScrollData] with its nested [requestForProcessing].

    Conventions of the embedding.
    - A JavaScript number is a primitive binary64 float of Rocq (the same
      IEEE 754 arithmetic, one NaN).
    - A JavaScript string is a [string] of 8-bit code units; directive
      texts are taken to be ASCII (code unit 160, the no-break space, is
      the only white space above 127 that is recognised).
    - [undefined] is [None]; an exception is [Throw]; a recursion that has
      not finished within the fuel it was given is [OutOfFuel].
    - An evaluator (a closure of the source) is a value of [Listener], one
      constructor per function expression of the source; what a closure
      captures by reference ([resultHere]) is named by the owning entry
      and read from the compilation map when the evaluator is applied.
    - A template literal [`${n}${unit}`] is the pair of the number and the
      unit ([Output]); the decimal printing of numbers is not modelled,
      except that it prints both zeros alike.
    - [compilationMap] is a plain object used as a dictionary: its own
      properties are an association list in insertion order, and it
      inherits the members of [Object.prototype] (constructor, toString,
      ...), which are truthy.  [requestForProcessing] returns at once for
      an id that names such a member, as it does for a compiled one.
      Where the source goes on to read such a member in place of a
      compiled record (its fields are all [undefined]), the run is not
      followed further: its outcome is [NotARecord]. *)

From Stdlib Require Import Bool Arith ZArith List String Ascii Lia.
From Stdlib Require Import Floats.
Import ListNotations.

Local Open Scope string_scope.
Local Open Scope nat_scope.
Local Open Scope list_scope.

(** ** JavaScript built-ins used by the source *)

Module JS.

(** *** Numbers *)

Definition Number_of_Z (z : Z) : float :=
  SF2Prim (binary_normalize prec emax z 0 false).

Definition Number_of_nat (n : nat) : float := Number_of_Z (Z.of_nat n).

Definition isNaN (x : float) : bool := PrimFloat.is_nan x.

Definition isFinite (x : float) : bool := PrimFloat.is_finite x.

(** [x > y], [x >= y] on numbers: false as soon as one side is NaN. *)
Definition gtb (x y : float) : bool := PrimFloat.ltb y x.
Definition geb (x y : float) : bool := PrimFloat.leb y x.

Definition is_neg_zero (x : float) : bool :=
  match Prim2SF x with S754_zero true => true | _ => false end.

(** [Math.max(a, b)] and [Math.min(a, b)]: NaN when an argument is NaN,
    and [+0] counts as larger than [-0]. *)
Definition Math_max2 (a b : float) : float :=
  if isNaN a || isNaN b then PrimFloat.nan
  else if PrimFloat.ltb a b then b
  else if PrimFloat.ltb b a then a
  else if is_neg_zero a then b else a.

Definition Math_min2 (a b : float) : float :=
  if isNaN a || isNaN b then PrimFloat.nan
  else if PrimFloat.ltb a b then a
  else if PrimFloat.ltb b a then b
  else if is_neg_zero a then a else b.

(** [Math.max(...xs)]: the fold of [Math_max2] from [-Infinity]. *)
Definition Math_max (xs : list float) : float :=
  fold_left Math_max2 xs PrimFloat.neg_infinity.

Definition Math_abs (x : float) : float := PrimFloat.abs x.

(** [Math.floor]: on a finite number with a fractional part, the integer
    below it; every other number is returned as it is. *)
Definition Math_floor (x : float) : float :=
  match Prim2SF x with
  | S754_finite s m e =>
      if (0 <=? e)%Z then x
      else
        let q := Z.shiftr (Zpos m) (- e) in
        let exact := (Z.shiftl q (- e) =? Zpos m)%Z in
        if s then
          SF2Prim (binary_normalize prec emax
                     (- (if exact then q else q + 1))%Z 0 true)
        else SF2Prim (binary_normalize prec emax q 0 false)
  | _ => x
  end.

(** The number a template literal prints: both zeros print as [0]. *)
Definition printed (x : float) : float :=
  if PrimFloat.eqb x 0 then 0%float else x.

(** *** Characters and strings *)

Definition is_space (c : ascii) : bool := Ascii.eqb c " "%char.

(** White space and line terminators among the code units below 256. *)
Definition is_white (c : ascii) : bool :=
  let n := nat_of_ascii c in
  ((9 <=? n) && (n <=? 13)) || (n =? 32) || (n =? 160).

Definition is_digit (c : ascii) : bool :=
  let n := nat_of_ascii c in (48 <=? n) && (n <=? 57).

Definition is_alpha (c : ascii) : bool :=
  let n := nat_of_ascii c in
  ((65 <=? n) && (n <=? 90)) || ((97 <=? n) && (n <=? 122)).

Fixpoint trimStart (s : string) : string :=
  match s with
  | String c s' => if is_white c then trimStart s' else s
  | EmptyString => EmptyString
  end.

Fixpoint rev_string (s acc : string) : string :=
  match s with
  | String c s' => rev_string s' (String c acc)
  | EmptyString => acc
  end.

Definition trimEnd (s : string) : string :=
  rev_string (trimStart (rev_string s "")) "".

Definition trim (s : string) : string := trimEnd (trimStart s).

Fixpoint startsWith (s p : string) : bool :=
  match p, s with
  | EmptyString, _ => true
  | String a p', String b s' => Ascii.eqb a b && startsWith s' p'
  | String _ _, EmptyString => false
  end.

(** [s.includes(c)] for a one-character needle. *)
Fixpoint includes_char (s : string) (c : ascii) : bool :=
  match s with
  | String a s' => Ascii.eqb a c || includes_char s' c
  | EmptyString => false
  end.

(** [s.split(c)] for a one-character separator: the pieces between the
    separators, empty ones included. *)
Fixpoint split_char (c : ascii) (s : string) (cur : string) : list string :=
  match s with
  | EmptyString => [rev_string cur ""]
  | String a s' =>
      if Ascii.eqb a c then rev_string cur "" :: split_char c s' ""
      else split_char c s' (String a cur)
  end.

Definition split (s : string) (c : ascii) : list string := split_char c s "".

(** [s.split(/ +/)]: the pieces between maximal runs of spaces. *)
Fixpoint split_spaces_from (s : string) (cur : string) (in_run : bool)
  : list string :=
  match s with
  | EmptyString => [rev_string cur ""]
  | String a s' =>
      if is_space a then
        if in_run then split_spaces_from s' cur true
        else rev_string cur "" :: split_spaces_from s' "" true
      else split_spaces_from s' (String a cur) false
  end.

Definition split_spaces (s : string) : list string :=
  split_spaces_from s "" false.

(** [xs.join(' ')]. *)
Fixpoint join_space (xs : list string) : string :=
  match xs with
  | [] => ""
  | [x] => x
  | x :: rest => x ++ " " ++ join_space rest
  end.

(** *** Arrays *)

Section Arrays.
Context {A : Type}.

(** The position an argument of [slice] or [splice] denotes in an array
    of length [len]: counted from the end when negative, clamped. *)
Definition relative_index (len : nat) (i : Z) : nat :=
  if (i <? 0)%Z then Z.to_nat (Z.max (Z.of_nat len + i) 0)
  else Nat.min (Z.to_nat i) len.

(** [xs.slice(start, end)]. *)
Definition slice (xs : list A) (start stop : Z) : list A :=
  let k := relative_index (List.length xs) start in
  let f := relative_index (List.length xs) stop in
  firstn (f - k) (skipn k xs).

(** [xs.slice(start)]. *)
Definition slice_from (xs : list A) (start : Z) : list A :=
  skipn (relative_index (List.length xs) start) xs.

(** [xs.splice(start, deleteCount, ...items)], the array afterwards. *)
Definition splice (xs : list A) (start : Z) (deleteCount : nat)
           (items : list A) : list A :=
  let k := relative_index (List.length xs) start in
  firstn k xs ++ items ++ skipn (k + deleteCount) xs.

(** [xs[i]] for an index that is a number: an element when [i] is one
    of 0, 1, ..., length - 1, [undefined] otherwise. *)
Fixpoint get_from (xs : list A) (c i : float) : option A :=
  match xs with
  | [] => None
  | x :: rest =>
      if PrimFloat.eqb c i then Some x else get_from rest (c + 1)%float i
  end.

Definition get (xs : list A) (i : float) : option A := get_from xs 0%float i.

(** [xs.findIndex(p)] and [xs.indexOf(x)]: [-1] when there is none. *)
Fixpoint findIndex_from (p : A -> bool) (xs : list A) (k : Z) : Z :=
  match xs with
  | [] => (-1)%Z
  | x :: rest => if p x then k else findIndex_from p rest (k + 1)%Z
  end.

Definition findIndex (p : A -> bool) (xs : list A) : Z :=
  findIndex_from p xs 0%Z.

(** [xs[i]] for an integer index. *)
Definition at_index (xs : list A) (i : Z) : option A :=
  if (i <? 0)%Z then None else nth_error xs (Z.to_nat i).

(** [xs.sort(cmp)], with [lt a b] standing for [cmp(a, b) < 0]: a
    stable sort, here by insertion (each element is placed before the
    first one it is strictly smaller than).  Every stable sort gives
    this result when [cmp] is a consistent comparator; for one that is
    not (NaN differences) the order is left to the engine. *)
Fixpoint sort_insert (lt : A -> A -> bool) (x : A) (sorted : list A)
  : list A :=
  match sorted with
  | [] => [x]
  | y :: rest =>
      if lt x y then x :: sorted
      else y :: sort_insert lt x rest
  end.

Definition sort (lt : A -> A -> bool) (xs : list A) : list A :=
  fold_left (fun acc x => sort_insert lt x acc) xs [].
End Arrays.

(** *** parseInt and parseFloat *)

Definition digit_value (c : ascii) : option Z :=
  let n := nat_of_ascii c in
  if (48 <=? n) && (n <=? 57) then Some (Z.of_nat (n - 48))
  else if (97 <=? n) && (n <=? 102) then Some (Z.of_nat (n - 87))
  else if (65 <=? n) && (n <=? 70) then Some (Z.of_nat (n - 55))
  else None.

(** The digits of radix [r] at the front of [s], read as an integer: the
    value so far, the number of digits read, and what follows them. *)
Fixpoint read_digits (r : Z) (s : string) (acc : Z) (n : nat)
  : Z * nat * string :=
  match s with
  | String c s' =>
      match digit_value c with
      | Some d => if (d <? r)%Z then read_digits r s' (acc * r + d)%Z (S n)
                  else (acc, n, s)
      | None => (acc, n, s)
      end
  | EmptyString => (acc, n, s)
  end.

Definition read_sign (s : string) : bool * string :=
  match s with
  | String "-" s' => (true, s')
  | String "+" s' => (false, s')
  | _ => (false, s)
  end.

(** [parseInt(s)] with no radix: leading white space and a sign are
    skipped, a [0x] prefix selects radix 16, the longest run of digits is
    read and rounded to a number; NaN when there is no digit.
    [parseInt(undefined)] reads the string ["undefined"]. *)
Definition parseInt_string (s : string) : float :=
  let (neg, s1) := read_sign (trimStart s) in
  let (r, s2) :=
    if startsWith s1 "0x" || startsWith s1 "0X"
    then (16%Z, substring 2 (String.length s1 - 2) s1) else (10%Z, s1) in
  match read_digits r s2 0%Z 0 with
  | (_, O, _) => PrimFloat.nan
  | (v, _, _) =>
      SF2Prim (binary_normalize prec emax (if neg then (- v)%Z else v) 0 neg)
  end.

Definition parseInt (s : option string) : float :=
  match s with
  | Some s => parseInt_string s
  | None => PrimFloat.nan
  end.

(** The number nearest to [p / q] for [p >= 0], [q > 0] (ties to even):
    the quotient is taken with enough extra bits and a sticky bit. *)
Definition round_quotient (neg : bool) (p q : Z) : float :=
  if (p =? 0)%Z then (if neg then PrimFloat.neg_zero else PrimFloat.zero)
  else
    let s := Z.max 0 (64 + Z.log2 q - Z.log2 p) in
    let n := Z.shiftl p s in
    let m := (2 * (n / q) + (if (n mod q =? 0)%Z then 0 else 1))%Z in
    SF2Prim (binary_normalize prec emax (if neg then (- m)%Z else m)
               (- s - 1) neg).

(** An exponent part [e], [e+] or [e-] followed by digits, when present. *)
Definition read_exponent (s : string) : Z :=
  match s with
  | String c s' =>
      if Ascii.eqb c "e" || Ascii.eqb c "E" then
        let (eneg, s2) := read_sign s' in
        match read_digits 10 s2 0%Z 0 with
        | (_, O, _) => 0%Z
        | (v, _, _) => if eneg then (- v)%Z else v
        end
      else 0%Z
  | EmptyString => 0%Z
  end.

(** [parseFloat(s)]: the longest prefix that is a decimal literal
    (digits, an optional fraction, an optional exponent, or [Infinity]),
    rounded to the nearest number; NaN when there is none. *)
Definition parseFloat (s : string) : float :=
  let (neg, s1) := read_sign (trimStart s) in
  if startsWith s1 "Infinity"
  then (if neg then PrimFloat.neg_infinity else PrimFloat.infinity)
  else
    let '(ip, ni, s2) := read_digits 10 s1 0%Z 0 in
    let '(m, nf, s3) :=
      match s2 with
      | String "." s2' =>
          let '(v, nf, s3) := read_digits 10 s2' ip 0 in
          if (ni + nf =? 0)%nat then (ip, 0, s2) else (v, nf, s3)
      | _ => (ip, 0, s2)
      end in
    if (ni + nf =? 0)%nat then PrimFloat.nan
    else
      let e := (read_exponent s3 - Z.of_nat nf)%Z in
      if (0 <=? e)%Z then round_quotient neg (m * 10 ^ e)%Z 1%Z
      else round_quotient neg m (10 ^ (- e))%Z.

Definition indexOf (xs : list string) (x : string) : Z :=
  findIndex (String.eqb x) xs.

Definition includes (xs : list string) (x : string) : bool :=
  existsb (String.eqb x) xs.

(** The names of the properties of [Object.prototype], which every
    plain object inherits; their values are functions, and for
    [__proto__] the prototype itself. *)
Definition Object_prototype : list string :=
  ["constructor"; "hasOwnProperty"; "isPrototypeOf"; "propertyIsEnumerable";
   "toLocaleString"; "toString"; "valueOf"; "__proto__";
   "__defineGetter__"; "__defineSetter__"; "__lookupGetter__";
   "__lookupSetter__"].

End JS.

(** ** Regular expressions

    A backtracking matcher for the fragment of JavaScript regular
    expressions the source uses: literals, character classes, the greedy
    quantifiers [+] (on a class) and [?], sequence, ordered alternation
    and capturing groups. *)

Module Regex.

Inductive regex : Type :=
| Lit (s : string)
| Class (p : ascii -> bool)
| Plus (p : ascii -> bool)
| Opt (r : regex)
| Seq (r1 r2 : regex)
| Alt (r1 r2 : regex)
| Group (n : nat) (r : regex).

(** The captures of a match: group number and captured text, the latest
    first.  A group that took no part in the match has no entry. *)
Definition captures := list (nat * string).

Fixpoint group (c : captures) (n : nat) : option string :=
  match c with
  | [] => None
  | (k, s) :: rest => if Nat.eqb k n then Some s else group rest n
  end.

Section Matcher.
Context {R : Type}.

(** Zero or more characters of a class, the longest run first. *)
Fixpoint many (p : ascii -> bool) (s : string) (k : string -> option R)
  : option R :=
  match s with
  | String c s' =>
      if p c then
        match many p s' k with
        | Some r => Some r
        | None => k s
        end
      else k s
  | EmptyString => k s
  end.

Fixpoint drop_prefix (l s : string) : option string :=
  match l, s with
  | EmptyString, _ => Some s
  | String a l', String b s' =>
      if Ascii.eqb a b then drop_prefix l' s' else None
  | String _ _, EmptyString => None
  end.

(** [run r s c k]: match [r] at the front of [s], then continue with
    [k] on what is left; when [k] fails, the next way of matching [r]
    is tried. *)
Fixpoint run (r : regex) (s : string) (c : captures)
         (k : string -> captures -> option R) : option R :=
  match r with
  | Lit l =>
      match drop_prefix l s with
      | Some s' => k s' c
      | None => None
      end
  | Class p =>
      match s with
      | String a s' => if p a then k s' c else None
      | EmptyString => None
      end
  | Plus p =>
      match s with
      | String a s' => if p a then many p s' (fun s2 => k s2 c) else None
      | EmptyString => None
      end
  | Opt r1 =>
      match run r1 s c k with
      | Some x => Some x
      | None => k s c
      end
  | Seq r1 r2 => run r1 s c (fun s' c' => run r2 s' c' k)
  | Alt r1 r2 =>
      match run r1 s c k with
      | Some x => Some x
      | None => run r2 s c k
      end
  | Group n r1 =>
      run r1 s c
          (fun s' c' =>
             k s' ((n, substring 0 (String.length s - String.length s') s)
                     :: c'))
  end.
End Matcher.

(** A match of [r] at the front of [s]: its captures (group 0 is the
    whole match) and the rest of [s]. *)
Definition match_here (r : regex) (s : string) : option (captures * string) :=
  run (Group 0 r) s [] (fun s' c => Some (c, s')).

(** All matches of a global regular expression in [s], from left to
    right and without overlap, with the text outside the matches.
    [fuel] bounds the number of positions visited. *)
Fixpoint scan (fuel : nat) (r : regex) (s : string)
  : string * list captures :=
  match fuel with
  | O => (s, [])
  | S fuel' =>
      match match_here r s with
      | Some (c, s') =>
          if String.length s' <? String.length s then
            let (residual, ms) := scan fuel' r s' in (residual, c :: ms)
          else
            match s with
            | String a t =>
                let (residual, ms) := scan fuel' r t in
                (String a residual, c :: ms)
            | EmptyString => ("", [c])
            end
      | None =>
          match s with
          | String a t =>
              let (residual, ms) := scan fuel' r t in (String a residual, ms)
          | EmptyString => ("", [])
          end
      end
  end.

(** [s.replace(r, '')] and [Array.from(s.matchAll(r))]. *)
Definition remove_all (r : regex) (s : string) : string :=
  fst (scan (S (String.length s)) r s).

Definition matchAll (r : regex) (s : string) : list captures :=
  snd (scan (S (String.length s)) r s).

Fixpoint seq (rs : list regex) : regex :=
  match rs with
  | [] => Lit ""
  | [r] => r
  | r :: rest => Seq r (seq rest)
  end.

End Regex.

(** ** Exceptions and results *)

Inductive exn : Type :=
| Error (message : string)
| TypeError (message : string).

(** The result of code that may throw. *)
Inductive result (A : Type) : Type :=
| Return (a : A)
| Raise (e : exn).
Arguments Return {A} a.
Arguments Raise {A} e.

(** ** The host environment: what the source reads from the page *)

(** An element of the page, known by a handle. *)
Definition HTMLElement := nat.

Record Environment : Type := {
  (** ['Float32Array' in global] *)
  float32ArraySupported : bool;
  (** [window.innerHeight] *)
  innerHeight : float;
  (** [element.getBoundingClientRect().height] *)
  boundingHeight : HTMLElement -> float
}.

(** ** class BezierEasing *)

Module BezierEasing.

#[local] Set Warnings "-inexact-float".
Local Open Scope float_scope.

Definition NEWTON_ITERATIONS : nat := 4.
Definition NEWTON_MIN_SLOPE : float := 0.001.
Definition SUBDIVISION_PRECISION : float := 0.0000001.
Definition SUBDIVISION_MAX_ITERATIONS : nat := 10.

Definition kSplineTableSize : nat := 11.
Definition kSampleStepSize : float :=
  1.0 / (JS.Number_of_nat kSplineTableSize - 1.0).

(** What a [Float32Array] keeps of a number stored in it: the nearest
    binary32 value. *)
Definition fround (x : float) : float :=
  match Prim2SF x with
  | S754_finite s m e => SF2Prim (binary_round 24 128 s m e)
  | _ => x
  end.

Record t : Type := mk {
  mSampleValues : list float;
  mX1 : float;
  mY1 : float;
  mX2 : float;
  mY2 : float;
  _precomputed : bool
}.

Definition valid_argument (a : option float) : bool :=
  match a with
  | Some x => negb (JS.isNaN x) && JS.isFinite x
  | None => false
  end.

Section WithEnvironment.
Variable env : Environment.

(** The constructor.  An argument that is [undefined] is not of type
    number.  The table is filled with zeros when it is a
    [Float32Array]; the holes of a plain array are NaN here (they
    compare and add like NaN, and are written before they are read). *)
Definition new (x1 y1 x2 y2 : option float) : result t :=
  if negb (forallb valid_argument [x1; y1; x2; y2])
  then Raise (Error "BezierEasing arguments should be integers.")
  else
    match x1, y1, x2, y2 with
    | Some mX1, Some mY1, Some mX2, Some mY2 =>
        if (mX1 <? 0) || (1 <? mX1) || (mX2 <? 0) || (1 <? mX2)
        then Raise (Error "BezierEasing x values must be in [0, 1] range.")
        else
          Return
            (mk (repeat (if float32ArraySupported env then 0 else nan)
                        kSplineTableSize)
                mX1 mY1 mX2 mY2 false)
    | _, _, _, _ =>
        Raise (Error "BezierEasing arguments should be integers.")
    end.

Definition A (aA1 aA2 : float) : float := 1.0 - 3.0 * aA2 + 3.0 * aA1.
Definition B (aA1 aA2 : float) : float := 3.0 * aA2 - 6.0 * aA1.
Definition C (aA1 : float) : float := 3.0 * aA1.

Definition calcBezier (aT aA1 aA2 : float) : float :=
  ((A aA1 aA2 * aT + B aA1 aA2) * aT + C aA1) * aT.

Definition getSlope (aT aA1 aA2 : float) : float :=
  3.0 * A aA1 aA2 * aT * aT + 2.0 * B aA1 aA2 * aT + C aA1.

(** The [do ... while] of [binarySubdivide]; [more] is the number of
    further rounds the counter [i] still allows. *)
Fixpoint binarySubdivide_loop (this : t) (more : nat) (aX aA aB : float)
  : float :=
  let currentT := aA + (aB - aA) / 2.0 in
  let currentX := calcBezier currentT (mX1 this) (mX2 this) - aX in
  let aB' := if JS.gtb currentX 0.0 then currentT else aB in
  let aA' := if JS.gtb currentX 0.0 then aA else currentT in
  match more with
  | S more' =>
      if JS.gtb (JS.Math_abs currentX) SUBDIVISION_PRECISION
      then binarySubdivide_loop this more' aX aA' aB'
      else currentT
  | O => currentT
  end.

Definition binarySubdivide (this : t) (aX aA aB : float) : float :=
  binarySubdivide_loop this (SUBDIVISION_MAX_ITERATIONS - 1)%nat aX aA aB.

Fixpoint newtonRaphsonIterate_loop (this : t) (rounds : nat)
         (aX aGuessT : float) : float :=
  match rounds with
  | O => aGuessT
  | S rounds' =>
      let currentSlope := getSlope aGuessT (mX1 this) (mX2 this) in
      if currentSlope =? 0.0 then aGuessT
      else
        let currentX := calcBezier aGuessT (mX1 this) (mX2 this) - aX in
        newtonRaphsonIterate_loop this rounds' aX
                                  (aGuessT - currentX / currentSlope)
  end.

Definition newtonRaphsonIterate (this : t) (aX aGuessT : float) : float :=
  newtonRaphsonIterate_loop this NEWTON_ITERATIONS aX aGuessT.

Definition store (x : float) : float :=
  if float32ArraySupported env then fround x else x.

Definition calcSampleValues (this : t) : t :=
  mk (map (fun i => store (calcBezier (JS.Number_of_nat i * kSampleStepSize)
                                      (mX1 this) (mX2 this)))
          (seq 0%nat kSplineTableSize))
     (mX1 this) (mY1 this) (mX2 this) (mY2 this) (_precomputed this).

Definition sample (this : t) (i : nat) : float :=
  nth i (mSampleValues this) nan.

(** The [for] loop of [getTForX]: [left] is [lastSample - currentSample]. *)
Fixpoint getTForX_loop (this : t) (left : nat) (aX intervalStart : float)
         (currentSample : nat) : float * nat :=
  match left with
  | O => (intervalStart, currentSample)
  | S left' =>
      if sample this currentSample <=? aX
      then getTForX_loop this left' aX (intervalStart + kSampleStepSize)
                         (S currentSample)
      else (intervalStart, currentSample)
  end.

Definition getTForX (this : t) (aX : float) : float :=
  let lastSample := (kSplineTableSize - 1)%nat in
  let '(intervalStart, currentSample) :=
    getTForX_loop this (lastSample - 1)%nat aX 0.0 1%nat in
  let currentSample := (currentSample - 1)%nat in
  let dist :=
    (aX - sample this currentSample)
    / (sample this (currentSample + 1)%nat - sample this currentSample) in
  let guessForT := intervalStart + dist * kSampleStepSize in
  let initialSlope := getSlope guessForT (mX1 this) (mX2 this) in
  if JS.geb initialSlope NEWTON_MIN_SLOPE
  then newtonRaphsonIterate this aX guessForT
  else if initialSlope =? 0.0 then guessForT
  else binarySubdivide this aX intervalStart
                       (intervalStart + kSampleStepSize).

Definition precompute (this : t) : t :=
  let this' := mk (mSampleValues this) (mX1 this) (mY1 this) (mX2 this)
                  (mY2 this) true in
  if negb (mX1 this =? mY1 this) || negb (mX2 this =? mY2 this)
  then calcSampleValues this' else this'.

(** The test of line 126: both control points lie on the diagonal. *)
Definition linear (this : t) : bool :=
  (mX1 this =? mY1 this) && (mX2 this =? mY2 this).

(** [evaluate] returns its value and leaves the table computed. *)
Definition evaluate (this : t) (aX : float) : float * t :=
  let this := if negb (_precomputed this) then precompute this else this in
  if linear this then (aX, this)
  else if aX <=? 0 then (0, this)
  else if JS.geb aX 1 then (1, this)
  else (calcBezier (getTForX this aX) (mY1 this) (mY2 this), this).

End WithEnvironment.

End BezierEasing.

(** ** class Scrollomat *)

Module Scrollomat.

Local Open Scope float_scope.

(** *** Data *)

Record ScrollInstruction : Type := {
  element : HTMLElement;
  instruction : string;
  name : string
}.

(** [[number, number, number, number]]; the array [opacity-ease] stores
    may hold eight numbers. *)
Definition EasingCurve := list float.

Record AbsoluteData : Type := {
  value : option (list string);
  destination : option float;
  destinations : option (list float);
  easingFunction : option EasingCurve
}.

Record CompiledAbsoluteSegment : Type := {
  byTime : float;
  startPos : float;
  endPos : float;
  ease : EasingCurve
}.

(** The keyword [x] or [y] of an absolute directive; [absoluteKey],
    [easingKey] and [distanceUnit] are read off it. *)
Inductive Axis : Type := AxisX | AxisY.

Definition distanceUnit (axis : Axis) : string :=
  match axis with AxisX => "vw" | AxisY => "vh" end.

(** What an evaluator returns: the text [`${number}${unit}`], the
    number standing for its decimal printing; [Undefined unit] is the
    text an [undefined] value gives. *)
Inductive Output : Type :=
| Text (number : float) (unit : string)
| Undefined (unit : string).

Definition template (n : float) (u : string) : Output :=
  Text (JS.printed n) u.

(** The function expressions of the source that are installed in
    [scrollListeners], with what each one captures.  [owner] is the name
    of the entry whose [resultHere] the closure reads when it is called. *)
Inductive Listener : Type :=
| (** [() => '0vw'] *)
  ConstantLeft
| (** [() => '1'] *)
  ConstantOpacity
| (** the function [getEasingFunction(easingCurve, entry)] returns *)
  EasingFunction (easingCurve : EasingCurve) (entryElement : HTMLElement)
| (** [opacity-ease] with four numbers *)
  OpacityCurve (owner : string)
| (** [opacity-ease] with eight numbers *)
  OpacityInOut (owner : string) (isAbsolute : bool)
               (entryElement : HTMLElement)
| (** [x] or [y] with a single value *)
  FixedPosition (owner : string) (axis : Axis)
| (** [x] or [y] with a list of values *)
  UniformSteps (prePipe : list string) (easingCurveHere : EasingCurve)
               (axis : Axis)
| (** [x] or [y] in the fully custom form *)
  CustomTimeline (owner : string) (segments : list CompiledAbsoluteSegment)
                 (initialPos : float) (axis : Axis).

Record ScrollListeners : Type := {
  xEasingFunction : Listener;
  yEasingFunction : Listener;
  opacityEasingFunction : Listener
}.

(** [CompiledScrollInstruction extends ScrollInstruction]: [base] holds
    the inherited fields ([...entry]). *)
Record CompiledScrollInstruction : Type := {
  base : ScrollInstruction;
  enterAt : float;
  duration : float;
  yEasingCurve : EasingCurve;
  opacityEasingCurve : EasingCurve;
  scrollListeners : ScrollListeners;
  leaveAt : float;
  absoluteY : AbsoluteData;
  absoluteX : AbsoluteData;
  isAbsolute : bool
}.

Record CompilationReport : Type := {
  compilationResult : list CompiledScrollInstruction;
  maxHeight : float
}.

(** Assignments to the fields of [resultHere]. *)
Definition set_enterAt (v : float) (r : CompiledScrollInstruction) :=
  {| base := base r; enterAt := v; duration := duration r;
     yEasingCurve := yEasingCurve r;
     opacityEasingCurve := opacityEasingCurve r;
     scrollListeners := scrollListeners r; leaveAt := leaveAt r;
     absoluteY := absoluteY r; absoluteX := absoluteX r;
     isAbsolute := isAbsolute r |}.

Definition set_duration (v : float) (r : CompiledScrollInstruction) :=
  {| base := base r; enterAt := enterAt r; duration := v;
     yEasingCurve := yEasingCurve r;
     opacityEasingCurve := opacityEasingCurve r;
     scrollListeners := scrollListeners r; leaveAt := leaveAt r;
     absoluteY := absoluteY r; absoluteX := absoluteX r;
     isAbsolute := isAbsolute r |}.

Definition set_leaveAt (v : float) (r : CompiledScrollInstruction) :=
  {| base := base r; enterAt := enterAt r; duration := duration r;
     yEasingCurve := yEasingCurve r;
     opacityEasingCurve := opacityEasingCurve r;
     scrollListeners := scrollListeners r; leaveAt := v;
     absoluteY := absoluteY r; absoluteX := absoluteX r;
     isAbsolute := isAbsolute r |}.

Definition set_yEasingCurve (v : EasingCurve) (r : CompiledScrollInstruction) :=
  {| base := base r; enterAt := enterAt r; duration := duration r;
     yEasingCurve := v;
     opacityEasingCurve := opacityEasingCurve r;
     scrollListeners := scrollListeners r; leaveAt := leaveAt r;
     absoluteY := absoluteY r; absoluteX := absoluteX r;
     isAbsolute := isAbsolute r |}.

Definition set_opacityEasingCurve (v : EasingCurve)
           (r : CompiledScrollInstruction) :=
  {| base := base r; enterAt := enterAt r; duration := duration r;
     yEasingCurve := yEasingCurve r;
     opacityEasingCurve := v;
     scrollListeners := scrollListeners r; leaveAt := leaveAt r;
     absoluteY := absoluteY r; absoluteX := absoluteX r;
     isAbsolute := isAbsolute r |}.

Definition set_scrollListeners (v : ScrollListeners)
           (r : CompiledScrollInstruction) :=
  {| base := base r; enterAt := enterAt r; duration := duration r;
     yEasingCurve := yEasingCurve r;
     opacityEasingCurve := opacityEasingCurve r;
     scrollListeners := v; leaveAt := leaveAt r;
     absoluteY := absoluteY r; absoluteX := absoluteX r;
     isAbsolute := isAbsolute r |}.

Definition set_isAbsolute (v : bool) (r : CompiledScrollInstruction) :=
  {| base := base r; enterAt := enterAt r; duration := duration r;
     yEasingCurve := yEasingCurve r;
     opacityEasingCurve := opacityEasingCurve r;
     scrollListeners := scrollListeners r; leaveAt := leaveAt r;
     absoluteY := absoluteY r; absoluteX := absoluteX r;
     isAbsolute := v |}.

(** [r[absoluteKey]] and the assignment to it. *)
Definition absolute (axis : Axis) (r : CompiledScrollInstruction)
  : AbsoluteData :=
  match axis with AxisX => absoluteX r | AxisY => absoluteY r end.

Definition set_absolute (axis : Axis) (v : AbsoluteData)
           (r : CompiledScrollInstruction) :=
  {| base := base r; enterAt := enterAt r; duration := duration r;
     yEasingCurve := yEasingCurve r;
     opacityEasingCurve := opacityEasingCurve r;
     scrollListeners := scrollListeners r; leaveAt := leaveAt r;
     absoluteY := match axis with AxisY => v | AxisX => absoluteY r end;
     absoluteX := match axis with AxisX => v | AxisY => absoluteX r end;
     isAbsolute := isAbsolute r |}.

Definition set_value (v : option (list string)) (a : AbsoluteData) :=
  {| value := v; destination := destination a;
     destinations := destinations a; easingFunction := easingFunction a |}.

Definition set_destination (v : option float) (a : AbsoluteData) :=
  {| value := value a; destination := v;
     destinations := destinations a; easingFunction := easingFunction a |}.

(** [r.scrollListeners[easingKey] = l] and the assignment to
    [opacityEasingFunction]. *)
Definition set_listener (axis : Axis) (l : Listener)
           (r : CompiledScrollInstruction) :=
  set_scrollListeners
    {| xEasingFunction :=
         match axis with
         | AxisX => l
         | AxisY => xEasingFunction (scrollListeners r)
         end;
       yEasingFunction :=
         match axis with
         | AxisY => l
         | AxisX => yEasingFunction (scrollListeners r)
         end;
       opacityEasingFunction := opacityEasingFunction (scrollListeners r) |}
    r.

Definition set_opacityEasingFunction (l : Listener)
           (r : CompiledScrollInstruction) :=
  set_scrollListeners
    {| xEasingFunction := xEasingFunction (scrollListeners r);
       yEasingFunction := yEasingFunction (scrollListeners r);
       opacityEasingFunction := l |}
    r.

(** *** The compilation map *)

Definition CompilationMap := list (string * CompiledScrollInstruction).

(** The property key an id denotes: [undefined] is the key "undefined". *)
Definition property_key (id : option string) : string :=
  match id with Some s => s | None => "undefined" end.

(** The own property [key] of [compilationMap]. *)
Fixpoint lookup (m : CompilationMap) (key : string)
  : option CompiledScrollInstruction :=
  match m with
  | [] => None
  | (k, r) :: rest => if String.eqb k key then Some r else lookup rest key
  end.

(** A key that [compilationMap], a plain [{}], inherits from
    [Object.prototype]. *)
Definition inherited (key : string) : bool :=
  JS.includes JS.Object_prototype key.

(** [compilationMap[key]]: the own property, or else the member of
    [Object.prototype] of that name, or else [undefined]. *)
Inductive Property : Type :=
| Compiled (r : CompiledScrollInstruction)
| Member
| Missing.

Definition property (m : CompilationMap) (key : string) : Property :=
  match lookup m key with
  | Some r => Compiled r
  | None => if inherited key then Member else Missing
  end.

(** [compilationMap[key] = r]: a new key is added last. *)
Fixpoint assign (m : CompilationMap) (key : string)
         (r : CompiledScrollInstruction) : CompilationMap :=
  match m with
  | [] => [(key, r)]
  | (k, r0) :: rest =>
      if String.eqb k key then (k, r) :: rest
      else (k, r0) :: assign rest key r
  end.

(** A key that is an array index (the decimal text of an integer below
    [2^32 - 1], without leading zeros): such keys come first, in
    ascending order, when the properties of an object are listed. *)
Definition array_index (key : string) : option Z :=
  match key with
  | EmptyString => None
  | String c rest =>
      match JS.read_digits 10 key 0%Z 0 with
      | (v, _, EmptyString) =>
          if (Ascii.eqb c "0" && negb (String.eqb rest ""))
             || (4294967295 <=? v)%Z
          then None else Some v
      | _ => None
      end
  end.

(** [Object.values(compilationMap)] *)
Definition Object_values (m : CompilationMap)
  : list CompiledScrollInstruction :=
  let indexed :=
    flat_map (fun kr => match array_index (fst kr) with
                        | Some i => [(i, snd kr)]
                        | None => []
                        end) m in
  let named :=
    filter (fun kr => match array_index (fst kr) with
                      | Some _ => false
                      | None => true
                      end) m in
  map snd (JS.sort (fun a b => (fst a <? fst b)%Z) indexed) ++ map snd named.

(** *** Evaluators *)

Section WithEnvironment.
Variable env : Environment.

(** [Scrollomat.computeBezier(t, x1, y1, x2, y2)]; an argument is
    [None] when the call spreads an array that is too short. *)
Definition computeBezier (t : float) (x1 y1 x2 y2 : option float)
  : result float :=
  if JS.geb t 1 then Return 1
  else if t <=? 0 then Return 0
  else
    match BezierEasing.new env x1 y1 x2 y2 with
    | Return b => Return (fst (BezierEasing.evaluate env b t))
    | Raise e => Raise e
    end.

(** [Scrollomat.computeBezier(t, ...curve)] *)
Definition computeBezier_spread (t : float) (curve : EasingCurve)
  : result float :=
  computeBezier t (nth_error curve 0) (nth_error curve 1)
                (nth_error curve 2) (nth_error curve 3).

Definition heightRatio (e : HTMLElement) : float :=
  boundingHeight env e / innerHeight env.

Definition map_result {A B : Type} (f : A -> B) (r : result A) : result B :=
  match r with
  | Return a => Return (f a)
  | Raise e => Raise e
  end.

Definition linearCurve : EasingCurve := [0; 0; 1; 1].

(** The evaluator of a list of values (lines 600-614). *)
Definition uniformSteps (prePipe : list string)
           (easingCurveHere : EasingCurve) (axis : Axis) (t : float)
  : result Output :=
  let interval := t * (JS.Number_of_nat (List.length prePipe) - 1) in
  let segment :=
    JS.Math_min2 (JS.Number_of_nat (List.length prePipe) - 2)
                 (JS.Math_floor interval) in
  let excess := interval - segment in
  map_result
    (fun b =>
       template
         (JS.parseInt (JS.get prePipe segment)
          + b * (JS.parseInt (JS.get prePipe (segment + 1))
                 - JS.parseInt (JS.get prePipe segment)))
         (distanceUnit axis))
    (computeBezier_spread excess easingCurveHere).

(** The evaluator of the fully custom form (lines 762-799);
    [ownerDuration] is [resultHere.duration] at the time of the call. *)
Definition customTimeline (ownerDuration : float)
           (segments : list CompiledAbsoluteSegment) (initialPos : float)
           (axis : Axis) (t : float) : result Output :=
  let absTime := t * ownerDuration in
  let lastCheckpointIndex :=
    JS.findIndex (fun e => byTime e <=? absTime) segments in
  let lastCheckpoint0 := JS.at_index segments lastCheckpointIndex in
  let currentCheckpoint0 :=
    JS.at_index segments (lastCheckpointIndex - 1) in
  let '(lastCheckpoint, currentCheckpoint1) :=
    match lastCheckpoint0 with
    | Some l => (l, currentCheckpoint0)
    | None =>
        ({| byTime := 0; startPos := 0; endPos := initialPos;
            ease := linearCurve |},
         hd_error (JS.slice_from segments (-1)))
    end in
  let currentCheckpoint :=
    match currentCheckpoint1 with
    | Some c => c
    | None => lastCheckpoint
    end in
  let elapsedTime := absTime - byTime lastCheckpoint in
  let currentDuration :=
    JS.Math_max2 1 (byTime currentCheckpoint - byTime lastCheckpoint) in
  map_result
    (fun b =>
       template
         (startPos currentCheckpoint
          + b * (endPos currentCheckpoint - startPos currentCheckpoint))
         (distanceUnit axis))
    (computeBezier_spread (elapsedTime / currentDuration)
                          (ease currentCheckpoint)).

(** Calling an evaluator once compilation has filled [m].  An owner is
    always found in the map of the pass that built the evaluator (its
    record is assigned before the pass returns); the [TypeError]
    stands for a map the evaluator does not belong to. *)
Definition call (m : CompilationMap) (l : Listener) (t : float)
  : result Output :=
  let with_owner (owner : string)
                 (k : CompiledScrollInstruction -> result Output) :=
    match lookup m owner with
    | Some r => k r
    | None => Raise (TypeError "the owner of the evaluator is not compiled")
    end in
  match l with
  | ConstantLeft => Return (Text 0 "vw")
  | ConstantOpacity => Return (Text 1 "")
  | EasingFunction easingCurve e =>
      map_result
        (fun b => template (100 - b * (100 + heightRatio e * 100)) "vh")
        (computeBezier_spread t easingCurve)
  | OpacityCurve owner =>
      with_owner owner
        (fun r => map_result (fun b => template b "")
                    (computeBezier_spread t (opacityEasingCurve r)))
  | OpacityInOut owner isAbsolute e =>
      with_owner owner
        (fun r =>
           let extraT := if isAbsolute then 0 else heightRatio e in
           if t <? 0.5 then
             map_result (fun b => template b "")
               (computeBezier_spread (t * 2 - extraT * 1.5)
                                     (opacityEasingCurve r))
           else
             map_result (fun b => template (1 - b) "")
               (computeBezier_spread (t * 2 - 1 - extraT * 1.5)
                                     (JS.slice_from (opacityEasingCurve r) 4)))
  | FixedPosition owner axis =>
      with_owner owner
        (fun r =>
           match destination (absolute axis r) with
           | Some d => Return (template d (distanceUnit axis))
           | None => Return (Undefined (distanceUnit axis))
           end)
  | UniformSteps prePipe easingCurveHere axis =>
      uniformSteps prePipe easingCurveHere axis t
  | CustomTimeline owner segments initialPos axis =>
      with_owner owner
        (fun r => customTimeline (duration r) segments initialPos axis t)
  end.

End WithEnvironment.

(** *** compileScrollData *)

(** What a call that may recurse comes to: a value, an exception, no
    answer within the fuel, or a run that is not followed further
    because it has read a member of [Object.prototype] from the
    compilation map in place of a record. *)
Inductive outcome (A : Type) : Type :=
| Ok (a : A)
| Throw (e : exn)
| OutOfFuel
| NotARecord.
Arguments Ok {A} a.
Arguments Throw {A} e.
Arguments OutOfFuel {A}.
Arguments NotARecord {A}.

Definition bind {A B : Type} (m : outcome A) (k : A -> outcome B)
  : outcome B :=
  match m with
  | Ok a => k a
  | Throw e => Throw e
  | OutOfFuel => OutOfFuel
  | NotARecord => NotARecord
  end.

Notation "x <- m ;; k" := (bind m (fun x => k))
  (at level 61, m at next level, right associativity).
Notation "' p <- m ;; k" := (bind m (fun x => let 'p := x in k))
  (at level 61, p pattern, m at next level, right associativity).

(** The variables [compileScrollData] shares with every call of
    [requestForProcessing], and the messages sent to [console.error]
    (the earliest first). *)
Record State : Type := {
  compilationMap : CompilationMap;
  entriesToProcess : list ScrollInstruction;
  console : list string
}.

Definition console_error (message : string) (st : State) : State :=
  {| compilationMap := compilationMap st;
     entriesToProcess := entriesToProcess st;
     console := console st ++ [message] |}.

Definition set_compilationMap (m : CompilationMap) (st : State) : State :=
  {| compilationMap := m;
     entriesToProcess := entriesToProcess st;
     console := console st |}.

Definition set_entriesToProcess (es : list ScrollInstruction) (st : State)
  : State :=
  {| compilationMap := compilationMap st;
     entriesToProcess := es;
     console := console st |}.

(** [compilationMap[id].field] after [requestForProcessing(id)]: reading
    a field of [undefined] is a [TypeError]. *)
Definition compiled (st : State) (id : option string)
  : outcome CompiledScrollInstruction :=
  match property (compilationMap st) (property_key id) with
  | Compiled r => Ok r
  | Member => NotARecord
  | Missing => Throw (TypeError "Cannot read properties of undefined")
  end.

Definition directives : list string :=
  ["enter"; "ease"; "duration"; "leave"; "opacity-ease"; "y"; "x"].

(** [argSegmenterRegexp] (line 653) *)
Definition identifierChar (c : ascii) : bool :=
  JS.is_alpha c || JS.is_digit c || Ascii.eqb c "-" || Ascii.eqb c ".".

Definition easeChar (c : ascii) : bool :=
  JS.is_digit c || Ascii.eqb c ".".

Definition argSegmenterRegexp : Regex.regex :=
  let integer := Regex.Seq (Regex.Opt (Regex.Lit "-")) (Regex.Plus JS.is_digit) in
  let like (g : nat) :=
    Regex.seq [Regex.Group g (Regex.Lit "like"); Regex.Lit " ";
               Regex.Group (S g) (Regex.Plus identifierChar)] in
  Regex.seq
    [ Regex.Alt
        (Regex.Seq (Regex.Opt (Regex.Group 1 (Regex.Lit "+")))
                   (Regex.Group 2 integer))
        (Regex.seq
           [Regex.Group 3
              (Regex.Alt (Regex.Lit "like")
                 (Regex.Alt (Regex.Lit "with-exit") (Regex.Lit "with-entry")));
            Regex.Lit " ";
            Regex.Group 4 (Regex.Plus identifierChar)]);
      Regex.Lit ": ";
      Regex.Opt (Regex.Alt (Regex.Group 5 integer) (like 6%nat));
      Regex.Opt (Regex.Lit " ");
      Regex.Lit "- ";
      Regex.Alt (Regex.Group 8 integer) (like 9%nat);
      Regex.Lit " | ";
      Regex.Alt
        (Regex.Group 11
           (Regex.seq
              [Regex.Plus easeChar; Regex.Lit " "; Regex.Plus easeChar;
               Regex.Lit " "; Regex.Plus easeChar; Regex.Lit " ";
               Regex.Plus easeChar]))
        (like 12%nat);
      Regex.Lit " |" ].

(** A captured group that is a non-empty string (a truthy [segment[i]]). *)
Definition truthy (s : option string) : bool :=
  match s with
  | Some EmptyString | None => false
  | Some _ => true
  end.

(** [xs.forEach(f)] for a callback that updates the variables [s]. *)
Fixpoint forEach {A S : Type} (f : A -> S -> outcome S) (xs : list A) (s : S)
  : outcome S :=
  match xs with
  | [] => Ok s
  | x :: rest => s' <- f x s ;; forEach f rest s'
  end.

Definition equals (s : option string) (t : string) : bool :=
  match s with
  | Some s => String.eqb s t
  | None => false
  end.

(** The array the local variable [dataParameter] names in an [x] or [y]
    directive: the one just stored in [resultHere], or, after
    [dataParameter = foundDataSource[absoluteKey].value], the array of
    the record compiled under [key]. *)
Inductive ArrayRef : Type :=
| OwnArray
| ArrayOf (key : string).

Section Directive.
(** The enclosing [requestForProcessing], for the nested calls. *)
Variable requestForProcessing : option string -> State -> outcome State.
(** The entry being compiled and the local variable [isAbsolute]. *)
Variable entry : ScrollInstruction.
Variable isAbsolute : bool.

(** [resultHere] and the shared variables. *)
Definition Locals : Type := CompiledScrollInstruction * State.

Definition in_entry (message : string) : string :=
  message ++ " in " ++ name entry ++ ".".

(** [checkAllowReferent] (lines 370-381) *)
Definition checkAllowReferent (keyword : string)
           (dataParameter : list string) (st : State)
  : outcome (bool * State) :=
  if negb (JS.includes ["enter"; "leave"] keyword) then
    Ok (false,
        console_error
          (in_entry ("Invalid referent '"
                     ++ property_key (nth_error dataParameter 0)
                     ++ "' for directive '" ++ keyword ++ "'"))
          st)
  else
    st' <- requestForProcessing (nth_error dataParameter 1) st ;;
    Ok (true, st').

(** Lines 363-408: [foundDataSource], [foundDataValue] and the shared
    variables after the referent of the directive is resolved. *)
Definition resolveReferent (keyword : string) (dataParameter : list string)
           (st : State)
  : outcome (option CompiledScrollInstruction * option float * State) :=
  let first := nth_error dataParameter 0 in
  let id := nth_error dataParameter 1 in
  '(foundDataSource, st) <-
    (if equals first "like" then
       st' <- requestForProcessing id st ;;
       match property (compilationMap st') (property_key id) with
       | Compiled r => Ok (Some r, st')
       | Member => NotARecord
       | Missing => Ok (None, st')
       end
     else Ok (None, st)) ;;
  let referent (v : CompiledScrollInstruction -> float) :=
    '(allowed, st') <- checkAllowReferent keyword dataParameter st ;;
    if allowed : bool then
      r <- compiled st' id ;;
      Ok (foundDataSource, Some (v r), st')
    else Ok (foundDataSource, None, st') in
  if equals first "with-entry" then referent enterAt
  else if equals first "with-exit" then
    referent (fun r => enterAt r + duration r)
  else if equals first "after-entry" then
    referent (fun r => enterAt r + JS.parseInt (nth_error dataParameter 2))
  else if equals first "after-exit" then
    referent (fun r => enterAt r + duration r
                       + JS.parseInt (nth_error dataParameter 2))
  else Ok (foundDataSource, None, st).

Definition unexpectedParameters (keyword : string) : string :=
  in_entry ("Unexpected parameters for directive '" ++ keyword ++ "'").

Definition malformedParameters (keyword : string) : string :=
  in_entry ("Malformed parameters for directive '" ++ keyword ++ "'").

(** [case 'enter'] (lines 411-429) *)
Definition directive_enter (dataParameter : list string)
           (foundDataSource : option CompiledScrollInstruction)
           (foundDataValue : option float) (l : Locals) : Locals :=
  let (resultHere, st) := l in
  match foundDataSource, foundDataValue with
  | Some source, _ => (set_enterAt (enterAt source) resultHere, st)
  | None, Some v => (set_enterAt v resultHere, st)
  | None, None =>
      if (1 <? List.length dataParameter)%nat
      then (resultHere, console_error (unexpectedParameters "enter") st)
      else (set_enterAt (JS.parseInt (nth_error dataParameter 0))
                        resultHere, st)
  end.

(** [case 'leave'] (lines 430-449) *)
Definition directive_leave (dataParameter : list string)
           (foundDataSource : option CompiledScrollInstruction)
           (foundDataValue : option float) (l : Locals) : Locals :=
  let (resultHere, st) := l in
  match foundDataSource, foundDataValue with
  | Some source, _ =>
      (set_duration ((enterAt source + duration source)
                     - enterAt resultHere) resultHere, st)
  | None, Some v => (set_duration (v - enterAt resultHere) resultHere, st)
  | None, None =>
      if (1 <? List.length dataParameter)%nat
      then (resultHere, console_error (unexpectedParameters "leave") st)
      else (set_enterAt (JS.parseInt (nth_error dataParameter 0)
                         - enterAt resultHere) resultHere, st)
  end.

(** [case 'ease'] (lines 450-470) *)
Definition directive_ease (dataParameter : list string)
           (foundDataSource : option CompiledScrollInstruction)
           (l : Locals) : Locals :=
  let (resultHere, st) := l in
  if isAbsolute then
    (resultHere,
     console_error
       ("Cannot use directive 'ease' in !absolute mode (" ++ name entry
        ++ "). Use | notation with absolute directives instead.") st)
  else
    match foundDataSource with
    | Some source => (set_yEasingCurve (yEasingCurve source) resultHere, st)
    | None =>
        if negb (List.length dataParameter =? 4)%nat
        then (resultHere, console_error (malformedParameters "ease") st)
        else
          let curve := map JS.parseFloat dataParameter in
          (set_listener AxisY
             (EasingFunction curve (element (base resultHere)))
             (set_yEasingCurve curve resultHere), st)
    end.

(** [case 'opacity-ease'] (lines 471-512) *)
Definition directive_opacity_ease (dataParameter : list string)
           (foundDataSource : option CompiledScrollInstruction)
           (l : Locals) : Locals :=
  let (resultHere, st) := l in
  match foundDataSource with
  | Some source =>
      (set_opacityEasingFunction
         (opacityEasingFunction (scrollListeners source))
         (set_opacityEasingCurve (opacityEasingCurve source) resultHere),
       st)
  | None =>
      if negb (List.length dataParameter =? 4)%nat
         && negb (List.length dataParameter =? 8)%nat
      then (resultHere,
            console_error (malformedParameters "opacity-ease") st)
      else
        let curve := map (fun e => JS.parseInt (Some e)) dataParameter in
        let resultHere := set_opacityEasingCurve curve resultHere in
        if (List.length dataParameter =? 4)%nat
        then (set_opacityEasingFunction (OpacityCurve (name entry))
                                        resultHere, st)
        else (set_opacityEasingFunction
                (OpacityInOut (name entry) isAbsolute (element entry))
                resultHere, st)
  end.

(** [case 'duration'] (lines 513-526) *)
Definition directive_duration (dataParameter : list string)
           (foundDataSource : option CompiledScrollInstruction)
           (l : Locals) : Locals :=
  let (resultHere, st) := l in
  match foundDataSource with
  | Some source => (set_duration (duration source) resultHere, st)
  | None =>
      if (1 <? List.length dataParameter)%nat
      then (resultHere, console_error (unexpectedParameters "duration") st)
      else (set_duration (JS.parseInt (nth_error dataParameter 0))
                         resultHere, st)
  end.

(** Reading and writing the array [dataParameter] names. *)
Definition read_array (axis : Axis) (ref : ArrayRef) (l : Locals)
  : outcome (list string) :=
  let found :=
    match ref with
    | OwnArray => value (absolute axis (fst l))
    | ArrayOf key =>
        match lookup (compilationMap (snd l)) key with
        | Some r => value (absolute axis r)
        | None => None
        end
    end in
  match found with
  | Some xs => Ok xs
  | None => Throw (TypeError "Cannot read properties of undefined")
  end.

Definition write_array (axis : Axis) (ref : ArrayRef) (xs : list string)
           (l : Locals) : Locals :=
  let (resultHere, st) := l in
  match ref with
  | OwnArray =>
      (set_absolute axis (set_value (Some xs) (absolute axis resultHere))
                    resultHere, st)
  | ArrayOf key =>
      match lookup (compilationMap st) key with
      | Some r =>
          (resultHere,
           set_compilationMap
             (assign (compilationMap st) key
                (set_absolute axis (set_value (Some xs) (absolute axis r))
                              r))
             st)
      | None => l
      end
  end.

Definition keyword_of (axis : Axis) : string :=
  match axis with AxisX => "x" | AxisY => "y" end.

Definition in_directive (axis : Axis) (message : string) : string :=
  in_entry (message ++ " directive '" ++ keyword_of axis ++ "'").

(** The [do ... while] of lines 557-568.  The inner [let likeIndex]
    hides the outer one, which stays [-1]: the body runs once. *)
Definition substituteLike (axis : Axis) (ref : ArrayRef)
           (prePipe : list string) (l : Locals) : outcome Locals :=
  let likeIndex := JS.indexOf prePipe "like" in
  if (-1 <? likeIndex)%Z then
    let id := JS.at_index prePipe (likeIndex + 1) in
    st' <- requestForProcessing id (snd l) ;;
    r <- compiled st' id ;;
    match value (absolute axis r) with
    | Some [v] =>
        dataParameter <- read_array axis ref (fst l, st') ;;
        Ok (write_array axis ref (JS.splice dataParameter likeIndex 2 [v])
                        (fst l, st'))
    | _ => Ok (fst l, st')
    end
  else Ok l.

(** The list form of [x] and [y] (lines 550-616). *)
Definition absolute_uniform (axis : Axis) (ref : ArrayRef)
           (dataParameter : list string) (l : Locals) : outcome Locals :=
  let pipeIndex := JS.indexOf dataParameter "|" in
  let prePipe :=
    JS.slice dataParameter 0
             (if (-1 <? pipeIndex)%Z then pipeIndex
              else Z.of_nat (List.length dataParameter)) in
  l <- substituteLike axis ref prePipe l ;;
  dataParameter <- read_array axis ref l ;;
  let (resultHere, st) := l : Locals in
  let install (easingCurveHere : EasingCurve) (st : State) : Locals :=
    (set_listener axis (UniformSteps prePipe easingCurveHere axis)
                  resultHere, st) in
  if JS.includes dataParameter "|" then
    if negb (equals (hd_error (JS.slice_from dataParameter (-1))) "|")
    then Ok (resultHere,
             console_error
               (in_entry ("Invalid | notation in directive '"
                          ++ keyword_of axis)) st)
    else
      let easingData := JS.slice dataParameter (pipeIndex + 1) (-1) in
      if equals (nth_error easingData 0) "like" then
        let id := nth_error easingData 1 in
        st' <- requestForProcessing id st ;;
        r <- compiled st' id ;;
        Ok (install (match easingFunction (absolute axis r) with
                     | Some c => c
                     | None => yEasingCurve r
                     end) st')
      else if (List.length easingData =? 4)%nat then
        Ok (install (map (fun e => JS.parseInt (Some e)) easingData) st)
      else
        Ok (resultHere,
            console_error
              (in_directive axis "Malformed parameters for | notation in")
              st)
  else Ok (install linearCurve st).

(** The variables of the loop over the clauses of the custom form. *)
Record Clauses : Type := {
  latestTime : float;
  lastPos : float;
  segments_so_far : list CompiledAbsoluteSegment;
  shared : State
}.

Definition set_shared (st : State) (c : Clauses) : Clauses :=
  {| latestTime := latestTime c; lastPos := lastPos c;
     segments_so_far := segments_so_far c; shared := st |}.

(** Lines 716-742 for one of [startPos] (group 5) and [endPos]
    (group 8): the position and the shared variables afterwards. *)
Definition clausePosition (axis : Axis) (segment : Regex.captures)
           (g : nat) (current : float) (st : State)
  : outcome (float * State) :=
  let current :=
    if truthy (Regex.group segment g)
    then JS.parseInt (Regex.group segment g) else current in
  if truthy (Regex.group segment (g + 1)) then
    let id := Regex.group segment (g + 2) in
    st' <- requestForProcessing id st ;;
    r <- compiled st' id ;;
    match destination (absolute axis r) with
    | None =>
        Ok (current,
            console_error
              ("Invalid reference to " ++ property_key id
               ++ " in directive '" ++ keyword_of axis ++ "' in "
               ++ name entry ++ " (must be a single-place "
               ++ keyword_of axis ++ " directive).") st')
    | Some res => Ok (res, st')
    end
  else Ok (current, st).

(** The callback of [segmentedArg.forEach] (lines 670-759). *)
Definition clause (axis : Axis) (resultHere : CompiledScrollInstruction)
           (segment : Regex.captures) (c : Clauses) : outcome Clauses :=
  let g := Regex.group segment in
  (* the time the clause ends at, or no clause when it cannot be read *)
  timed <-
    (if truthy (g 2%nat) then
       let timeData := JS.parseInt (g 2%nat) in
       if equals (g 1%nat) "+" then
         Ok (Some (latestTime c + timeData), shared c)
       else if truthy (g 1%nat) then
         Ok (None,
             console_error
               (in_directive axis
                  ("Unexpected token " ++ property_key (g 1%nat) ++ " in"))
               (shared c))
       else Ok (Some timeData, shared c)
     else if truthy (g 3%nat) && truthy (g 4%nat) then
       st' <- requestForProcessing (g 4%nat) (shared c) ;;
       r <- compiled st' (g 4%nat) ;;
       Ok (Some (if equals (g 3%nat) "like"
                 then leaveAt r - enterAt resultHere
                 else if equals (g 3%nat) "with-exit"
                 then leaveAt r - enterAt resultHere
                 else if equals (g 3%nat) "with-entry"
                 then enterAt r - enterAt resultHere
                 else latestTime c), st')
     else
       Ok (None,
           console_error
             ("Failed to parse segment '" ++ property_key (g 0%nat)
              ++ "' in directive '" ++ keyword_of axis ++ "' in "
              ++ name entry ++ " (missing time specifier).")
             (shared c))) ;;
  match timed with
  | (None, st) => Ok (set_shared st c)
  | (Some time, st) =>
      '(startPosHere, st) <- clausePosition axis segment 5 (lastPos c) st ;;
      '(endPosHere, st) <- clausePosition axis segment 8 (lastPos c) st ;;
      '(easeHere, st) <-
        (if truthy (g 11%nat) then
           Ok (map JS.parseFloat (JS.split (property_key (g 11%nat)) " "),
               st)
         else if truthy (g 12%nat) then
           st' <- requestForProcessing (g 13%nat) st ;;
           r <- compiled st' (g 13%nat) ;;
           Ok (yEasingCurve r, st')
         else Ok (linearCurve, st)) ;;
      Ok {| latestTime := time;
            lastPos := endPosHere;
            segments_so_far :=
              segments_so_far c
              ++ [{| byTime := time; startPos := startPosHere;
                     endPos := endPosHere; ease := easeHere |}];
            shared := st |}
  end.

(** The fully custom form of [x] and [y] (lines 617-800). *)
Definition absolute_custom (axis : Axis) (dataParameter : list string)
           (l : Locals) : outcome Locals :=
  let (resultHere, st) := l in
  if negb (equals (nth_error dataParameter 1) ".") then
    Ok (resultHere,
        console_error
          (in_directive axis "Unspecified start location in") st)
  else
    let initialPos := JS.parseInt (nth_error dataParameter 0) in
    let fullParameter := JS.join_space (JS.slice_from dataParameter 2) in
    let residual :=
      JS.trim (Regex.remove_all argSegmenterRegexp fullParameter) in
    if negb (String.length residual =? 0)%nat then
      Ok (resultHere,
          console_error
            (in_entry ("Failed to segment structure of directive '"
                       ++ keyword_of axis ++ "'")) st)
    else
      let segmentedArg := Regex.matchAll argSegmenterRegexp fullParameter in
      c <- forEach (clause axis resultHere) segmentedArg
             {| latestTime := 0; lastPos := 0; segments_so_far := [];
                shared := st |} ;;
      let segments :=
        JS.sort (fun a b => byTime b - byTime a <? 0) (segments_so_far c) in
      Ok (set_listener axis
            (CustomTimeline (name entry) segments initialPos axis)
            resultHere, shared c).

(** [case 'x': case 'y'] (lines 527-802) *)
Definition directive_absolute (axis : Axis) (instruction : string)
           (dataParameter : list string)
           (foundDataSource : option CompiledScrollInstruction)
           (l : Locals) : outcome Locals :=
  let (resultHere, st) := l in
  let st :=
    if isAbsolute then st
    else console_error
           ("Cannot use directive '" ++ keyword_of axis
            ++ "' outside of !absolute mode (" ++ name entry ++ ").") st in
  let resultHere :=
    set_absolute axis
      (set_value (Some dataParameter) (absolute axis resultHere))
      resultHere in
  let ref :=
    match foundDataSource with
    | Some _ => ArrayOf (property_key (nth_error dataParameter 1))
    | None => OwnArray
    end in
  dataParameter <- read_array axis ref (resultHere, st) ;;
  if (List.length dataParameter =? 1)%nat then
    Ok (set_listener axis (FixedPosition (name entry) axis)
          (set_absolute axis
             (set_destination
                (Some (JS.parseInt (nth_error dataParameter 0)))
                (absolute axis resultHere))
             resultHere), st)
  else if negb (JS.includes_char instruction ":") then
    absolute_uniform axis ref dataParameter (resultHere, st)
  else absolute_custom axis dataParameter (resultHere, st).

(** The callback of [instructionLines.forEach] (lines 346-804). *)
Definition directive (instruction : string) (l : Locals) : outcome Locals :=
  let (resultHere, st) := l in
  let keyword := hd "" (JS.split instruction " ") in
  if negb (JS.includes directives keyword) then
    Ok (resultHere,
        console_error
          (in_entry ("Failed to identify directive '" ++ keyword ++ "'"))
          st)
  else
    let dataParameter :=
      JS.slice_from (JS.split_spaces (JS.trim instruction)) 1 in
    '(foundDataSource, foundDataValue, st) <-
      resolveReferent keyword dataParameter st ;;
    let l := (resultHere, st) in
    if String.eqb keyword "enter" then
      Ok (directive_enter dataParameter foundDataSource foundDataValue l)
    else if String.eqb keyword "leave" then
      Ok (directive_leave dataParameter foundDataSource foundDataValue l)
    else if String.eqb keyword "ease" then
      Ok (directive_ease dataParameter foundDataSource l)
    else if String.eqb keyword "opacity-ease" then
      Ok (directive_opacity_ease dataParameter foundDataSource l)
    else if String.eqb keyword "duration" then
      Ok (directive_duration dataParameter foundDataSource l)
    else if String.eqb keyword "x" then
      directive_absolute AxisX instruction dataParameter foundDataSource l
    else
      directive_absolute AxisY instruction dataParameter foundDataSource l.

End Directive.

(** The record [requestForProcessing] starts from (lines 299-329). *)
Definition initial (entry : ScrollInstruction) : CompiledScrollInstruction :=
  {| base := entry;
     enterAt := 0;
     leaveAt := 100;
     yEasingCurve := [0; 0; 1; 1];
     duration := 100;
     opacityEasingCurve := [0; 1; 1; 1];
     isAbsolute := false;
     absoluteX := {| value := None; destination := None;
                     destinations := None; easingFunction := None |};
     absoluteY := {| value := None; destination := None;
                     destinations := None; easingFunction := None |};
     scrollListeners :=
       {| xEasingFunction := ConstantLeft;
          yEasingFunction := EasingFunction [0; 0; 1; 1] (element entry);
          opacityEasingFunction := ConstantOpacity |} |}.

(** [entriesToProcess.find(e => e.name === id)] *)
Definition find_entry (id : option string) (entries : list ScrollInstruction)
  : option ScrollInstruction :=
  match id with
  | Some s => find (fun e => String.eqb (name e) s) entries
  | None => None
  end.

(** The two sorts of lines 343-345: the lines that start with the given
    word move behind the others, the order being kept otherwise. *)
Definition sort_last (word : string) (instructionLines : list string)
  : list string :=
  JS.sort (fun a b => negb (JS.startsWith a word) && JS.startsWith b word)
          instructionLines.

(** The lines of a directive text, [!absolute] taken off (lines 331-341). *)
Definition instructionLines (text : string) : bool * list string :=
  let lines :=
    filter (fun e => negb (String.eqb e ""))
           (map JS.trim (JS.split text ";")) in
  if equals (hd_error lines) "!absolute"
  then (true, JS.slice_from lines 1) else (false, lines).

(** The end of [requestForProcessing] (lines 806-808): [leaveAt] is
    set, the record is stored under the name of the entry, and the
    entries of that name leave [entriesToProcess]. *)
Definition finish (entry : ScrollInstruction)
           (resultHere : CompiledScrollInstruction) (st : State) : State :=
  set_entriesToProcess
    (filter (fun t => negb (String.eqb (name t) (name entry)))
            (entriesToProcess st))
    (set_compilationMap
       (assign (compilationMap st) (name entry)
               (set_leaveAt (enterAt resultHere + duration resultHere)
                            resultHere))
       st).

(** [requestForProcessing] (lines 292-809); [fuel] bounds the depth of
    the nested calls.  The entry found under [id] has the name [id],
    which is what line 808 filters by. *)
Fixpoint requestForProcessing (fuel : nat) (id : option string) (st : State)
  : outcome State :=
  match fuel with
  | O => OutOfFuel
  | S fuel' =>
      match property (compilationMap st) (property_key id) with
      | Compiled _ | Member => Ok st
      | Missing =>
          match find_entry id (entriesToProcess st) with
          | None =>
              Throw (TypeError "Cannot read properties of undefined")
          | Some entry =>
              let (isAbsolute, lines) := instructionLines (instruction entry) in
              let resultHere := set_isAbsolute isAbsolute (initial entry) in
              '(resultHere, st) <-
                forEach (directive (requestForProcessing fuel') entry
                                   isAbsolute)
                        (sort_last "y " (sort_last "leave " lines))
                        (resultHere, st) ;;
              Ok (finish entry resultHere st)
          end
      end
  end.

(** The [while] loop of lines 811-813; [rounds] bounds its iterations. *)
Fixpoint drain (fuel rounds : nat) (st : State) : outcome State :=
  match entriesToProcess st with
  | [] => Ok st
  | first :: _ =>
      match rounds with
      | O => OutOfFuel
      | S rounds' =>
          st' <- requestForProcessing fuel (Some (name first)) st ;;
          drain fuel rounds' st'
      end
  end.

Definition report (st : State) : CompilationReport :=
  let compilationResult := Object_values (compilationMap st) in
  {| compilationResult := compilationResult;
     maxHeight :=
       JS.Math_max (map (fun e => enterAt e + duration e) compilationResult)
       - 100 |}.

(** [compileScrollData] for [this.entries = entries]: the report and
    what was sent to [console.error]. *)
Definition compileScrollData (fuel : nat) (entries : list ScrollInstruction)
  : outcome (CompilationReport * State) :=
  st <- drain fuel fuel
          {| compilationMap := []; entriesToProcess := entries;
             console := [] |} ;;
  Ok (report st, st).

End Scrollomat.

(** ** The compiler the specification describes: cycles detected

    [compileScrollData] as the source has it, except that
    [requestForProcessing] knows the names of the entries whose calls
    have not returned yet: a call that finds one of them (the source
    would compile the entry again, inside its own compilation) throws
    the error [CyclicReference] instead. *)

Module Detecting.

Import Scrollomat.

Definition CyclicReference : exn := Error "CyclicReference".

Fixpoint requestForProcessing (fuel : nat) (inProgress : list string)
         (id : option string) (st : State) : outcome State :=
  match fuel with
  | O => OutOfFuel
  | S fuel' =>
      match property (compilationMap st) (property_key id) with
      | Compiled _ | Member => Ok st
      | Missing =>
          match find_entry id (entriesToProcess st) with
          | None =>
              Throw (TypeError "Cannot read properties of undefined")
          | Some entry =>
              if JS.includes inProgress (name entry)
              then Throw CyclicReference
              else
                let (isAbsolute, lines) :=
                  instructionLines (instruction entry) in
                let resultHere := set_isAbsolute isAbsolute (initial entry) in
                '(resultHere, st) <-
                  forEach (directive
                             (requestForProcessing
                                fuel' (name entry :: inProgress))
                             entry isAbsolute)
                          (sort_last "y " (sort_last "leave " lines))
                          (resultHere, st) ;;
                Ok (finish entry resultHere st)
          end
      end
  end.

Fixpoint drain (fuel rounds : nat) (st : State) : outcome State :=
  match entriesToProcess st with
  | [] => Ok st
  | first :: _ =>
      match rounds with
      | O => OutOfFuel
      | S rounds' =>
          st' <- requestForProcessing fuel [] (Some (name first)) st ;;
          drain fuel rounds' st'
      end
  end.

Definition compileScrollData (fuel : nat) (entries : list ScrollInstruction)
  : outcome (CompilationReport * State) :=
  st <- drain fuel fuel
          {| compilationMap := []; entriesToProcess := entries;
             console := [] |} ;;
  Ok (report st, st).

End Detecting.


(** ** Sample pages, for the concrete instances *)

Module Examples.

Local Open Scope float_scope.

(** A page 800 units high whose elements are 400 units high, in an
    engine with typed arrays. *)
Definition page : Environment :=
  {| float32ArraySupported := true;
     innerHeight := 800;
     boundingHeight := fun _ => 400 |}.

Definition entry (id text : string) : Scrollomat.ScrollInstruction :=
  {| Scrollomat.element := 0%nat;
     Scrollomat.instruction := text;
     Scrollomat.name := id |}.

(** The record compiled under [id], when the pass returns. *)
Definition compiledAs (id : string)
           (pass : Scrollomat.outcome
                     (Scrollomat.CompilationReport * Scrollomat.State))
  : option Scrollomat.CompiledScrollInstruction :=
  match pass with
  | Scrollomat.Ok (_, st) =>
      Scrollomat.lookup (Scrollomat.compilationMap st) id
  | _ => None
  end.

(** Calling an evaluator of the record compiled under [id]. *)
Definition evaluator (id : string)
           (which : Scrollomat.ScrollListeners -> Scrollomat.Listener)
           (pass : Scrollomat.outcome
                     (Scrollomat.CompilationReport * Scrollomat.State))
           (t : float) : option (result Scrollomat.Output) :=
  match pass with
  | Scrollomat.Ok (_, st) =>
      match Scrollomat.lookup (Scrollomat.compilationMap st) id with
      | Some r =>
          Some (Scrollomat.call page (Scrollomat.compilationMap st)
                                (which (Scrollomat.scrollListeners r)) t)
      | None => None
      end
  | _ => None
  end.

(** The page A: ['enter like B'], B: ['enter like A'], and the variables
    [compileScrollData] starts from on it. *)
Definition cycle : list Scrollomat.ScrollInstruction :=
  [entry "A" "enter like B"; entry "B" "enter like A"].

Definition cycle_start : Scrollomat.State :=
  {| Scrollomat.compilationMap := [];
     Scrollomat.entriesToProcess := cycle;
     Scrollomat.console := [] |}.

(** The page of the README: b enters when first-elem leaves. *)
Definition chain : list Scrollomat.ScrollInstruction :=
  [entry "b" "enter with-exit first-elem; duration 200;";
   entry "first-elem" "enter 0; leave 100;"].

End Examples.

(** ** Notions the statements below use *)

Module Notions.

Local Open Scope float_scope.

(** A token that denotes a number. *)
Definition numeric (token : string) : Prop :=
  JS.isNaN (JS.parseFloat token) = false.

(** Interpolating from [u] to [v] prints [u] at the start and [v] at the
    end: the differences and sums below lose nothing to rounding. *)
Definition interpolates_exactly (u v : float) : Prop :=
  JS.printed (u + 0 * (v - u)) = JS.printed u
  /\ JS.printed (u + 1 * (v - u)) = JS.printed v.

Definition interpolates_exactlyb (u v : float) : bool :=
  PrimFloat.Leibniz.eqb (JS.printed (u + 0 * (v - u))) (JS.printed u)
  && PrimFloat.Leibniz.eqb (JS.printed (u + 1 * (v - u))) (JS.printed v).

(** A string of decimal digits. *)
Fixpoint all_digits (s : string) : bool :=
  match s with
  | EmptyString => true
  | String c s' => JS.is_digit c && all_digits s'
  end.

(** A first parameter that is none of the words which make a directive
    refer to another element. *)
Definition plain (first : string) : Prop :=
  ~ In first ["like"; "with-entry"; "with-exit"; "after-entry"; "after-exit"].

(** The times of a compiled record. *)
Definition times (r : Scrollomat.CompiledScrollInstruction)
  : float * float * float :=
  (Scrollomat.enterAt r, Scrollomat.duration r, Scrollomat.leaveAt r).

(** The order of [SFcompare] read on integers: the class of a number
    (infinite, finite or zero, with its sign), then exponent and
    mantissa, reversed for negative numbers. *)
Definition key (f : spec_float) : Z * Z * Z :=
  match f with
  | S754_nan => (0, 0, 0)%Z
  | S754_zero _ => (0, 0, 0)%Z
  | S754_infinity true => (-2, 0, 0)%Z
  | S754_infinity false => (2, 0, 0)%Z
  | S754_finite true m e => (-1, - e, - Zpos m)%Z
  | S754_finite false m e => (1, e, Zpos m)%Z
  end.

Definition key_le (a b : Z * Z * Z) : Prop :=
  let '(a1, a2, a3) := a in
  let '(b1, b2, b3) := b in
  (a1 < b1 \/ (a1 = b1 /\ (a2 < b2 \/ (a2 = b2 /\ a3 <= b3))))%Z.

Definition key_lt (a b : Z * Z * Z) : Prop :=
  let '(a1, a2, a3) := a in
  let '(b1, b2, b3) := b in
  (a1 < b1 \/ (a1 = b1 /\ (a2 < b2 \/ (a2 = b2 /\ a3 < b3))))%Z.

(** [sat Q D o]: the outcome [o] is a value that satisfies [Q], or an
    exception, or a run that is not followed further, or, where [D]
    allows it, no answer within the fuel. *)
Definition sat {A : Type} (Q : A -> Prop) (D : Prop)
           (o : Scrollomat.outcome A) : Prop :=
  match o with
  | Scrollomat.Ok a => Q a
  | Scrollomat.Throw _ => True
  | Scrollomat.OutOfFuel => D
  | Scrollomat.NotARecord => True
  end.

(** The directives of an entry, in the order they are carried out. *)
Definition directives_of (e : Scrollomat.ScrollInstruction) : list string :=
  Scrollomat.sort_last "y "
    (Scrollomat.sort_last "leave "
       (snd (Scrollomat.instructionLines (Scrollomat.instruction e)))).

(** The equation of a compiled record. *)
Definition leaves_after_duration (r : Scrollomat.CompiledScrollInstruction)
  : Prop :=
  Scrollomat.leaveAt r = (Scrollomat.enterAt r + Scrollomat.duration r)%float.

(** The comparison [r.leaveAt == r.enterAt + r.duration] of the
    program. *)
Definition equation_holds (r : Scrollomat.CompiledScrollInstruction)
  : bool :=
  (Scrollomat.leaveAt r =? Scrollomat.enterAt r + Scrollomat.duration r)%float.

(** The call answers: it returns or throws within its fuel. *)
Definition answers {A : Type} (o : Scrollomat.outcome A) : Prop :=
  match o with
  | Scrollomat.Ok _ | Scrollomat.Throw _ => True
  | Scrollomat.OutOfFuel | Scrollomat.NotARecord => False
  end.

(** The run was followed to its end, or to the point where it reads a
    member of [Object.prototype] in place of a record: it did not run
    out of fuel. *)
Definition followed {A : Type} (o : Scrollomat.outcome A) : Prop :=
  o <> Scrollomat.OutOfFuel.

(** The names of the entries of a page are ids the compilation map does
    not inherit. *)
Definition plain_names (entries : list Scrollomat.ScrollInstruction) : Prop :=
  forall e, In e entries -> Scrollomat.inherited (Scrollomat.name e) = false.

(** The entries of a page whose names are not among [inProgress]. *)
Definition idle (entries : list Scrollomat.ScrollInstruction)
           (inProgress : list string) : list Scrollomat.ScrollInstruction :=
  filter (fun e => negb (JS.includes inProgress (Scrollomat.name e))) entries.

(** The outcome [checked] of the compiler that detects cycles agrees
    with the outcome [o] of the source: they are the same, unless a
    cycle was detected. *)
Definition agrees {A : Type} (checked o : Scrollomat.outcome A) : Prop :=
  checked = Scrollomat.Throw Detecting.CyclicReference \/ checked = o.

(** What the loop of [compileScrollData] keeps, from a state [st0] on:
    the entries still to process are entries of the page, none of them
    is compiled, and they are what is left of those of [st0]. *)
Definition pending (entries : list Scrollomat.ScrollInstruction)
           (st0 st : Scrollomat.State) : Prop :=
  incl (Scrollomat.entriesToProcess st) entries
  /\ (forall e, In e (Scrollomat.entriesToProcess st) ->
                Scrollomat.lookup (Scrollomat.compilationMap st)
                                  (Scrollomat.name e) = None)
  /\ exists p, Scrollomat.entriesToProcess st
               = filter p (Scrollomat.entriesToProcess st0).

(** Every record in the compilation map satisfies the equation. *)
Definition map_invariant (st : Scrollomat.State) : Prop :=
  forall key r, In (key, r) (Scrollomat.compilationMap st) ->
                leaves_after_duration r.

(** An invariant of the shared variables, on the variables of a
    directive. *)
Definition PL (P : Scrollomat.State -> Prop) (l : Scrollomat.Locals)
  : Prop :=
  P (snd l).

(** The array [resultHere] holds for an axis. *)
Definition own (axis : Scrollomat.Axis) (l : Scrollomat.Locals)
  : option (list string) :=
  Scrollomat.value (Scrollomat.absolute axis (fst l)).

(** What a call of [requestForProcessing] comes to, for an invariant
    [P]: the invariant holds afterwards, and a call for an id that was
    no property of the map ends with [finish]. *)
Definition after_call (P : Scrollomat.State -> Prop) (id : option string)
           (st st1 : Scrollomat.State) : Prop :=
  P st1
  /\ (Scrollomat.property (Scrollomat.compilationMap st)
                          (Scrollomat.property_key id) = Scrollomat.Missing ->
      exists ent r st',
        Scrollomat.find_entry id (Scrollomat.entriesToProcess st) = Some ent
        /\ P st' /\ st1 = Scrollomat.finish ent r st').

(** The states the shared variables go through in a compilation pass
    over [entries]: the initial one, and from a state of the pass, the
    state a call of [requestForProcessing] returns in, the state after a
    directive of an entry, after a message, and after the array of a
    compiled record was spliced in place. *)
Inductive reachable (entries : list Scrollomat.ScrollInstruction)
  : Scrollomat.State -> Prop :=
| reach_start :
    reachable entries
      {| Scrollomat.compilationMap := [];
         Scrollomat.entriesToProcess := entries;
         Scrollomat.console := [] |}
| reach_call (fuel : nat) (id : option string) (st st' : Scrollomat.State) :
    reachable entries st ->
    Scrollomat.requestForProcessing fuel id st = Scrollomat.Ok st' ->
    reachable entries st'
| reach_directive (fuel : nat) (entry : Scrollomat.ScrollInstruction)
                  (isAbsolute : bool) (line : string)
                  (r r' : Scrollomat.CompiledScrollInstruction)
                  (st st' : Scrollomat.State) :
    reachable entries st ->
    Scrollomat.directive (Scrollomat.requestForProcessing fuel) entry
                         isAbsolute line (r, st)
    = Scrollomat.Ok (r', st') ->
    reachable entries st'
| reach_console (message : string) (st : Scrollomat.State) :
    reachable entries st ->
    reachable entries (Scrollomat.console_error message st)
| reach_splice (key : string) (r : Scrollomat.CompiledScrollInstruction)
               (axis : Scrollomat.Axis) (xs : list string)
               (st : Scrollomat.State) :
    reachable entries st ->
    Scrollomat.lookup (Scrollomat.compilationMap st) key = Some r ->
    reachable entries
      (Scrollomat.set_compilationMap
         (Scrollomat.assign (Scrollomat.compilationMap st) key
            (Scrollomat.set_absolute axis
               (Scrollomat.set_value (Some xs) (Scrollomat.absolute axis r))
               r))
         st).

(** [M] is the maximum of [xs], as [Math.max] has it: NaN as soon as a
    value is NaN, and otherwise one of the values, with no value
    above it. *)
Definition is_maximum (M : float) (xs : list float) : Prop :=
  (JS.isNaN M = true /\ exists x, In x xs /\ JS.isNaN x = true)
  \/ (In M xs
      /\ forall x, In x xs ->
                   JS.isNaN x = false /\ PrimFloat.leb x M = true).

(** The integers from [lo] on, [n] of them, as numbers. *)
Fixpoint integers_from (lo : Z) (n : nat) : list float :=
  match n with
  | O => []
  | S n' => JS.Number_of_Z lo :: integers_from (lo + 1) n'
  end.

End Notions.

(** ** Notions for the statements about a whole pass *)

Module PassNotions.

Import Scrollomat Notions.

(** [key] is an own property of [compilationMap]. *)
Definition is_key (m : CompilationMap) (k : string) : bool :=
  match lookup m k with Some _ => true | None => false end.

(** What a pass keeps of its shared variables: the entries left to
    process are the entries of the page whose id is not compiled, no key
    is twice in the map, and the record under a key is that of the first
    entry of the page with that id, absolute when its text says so. *)
Definition well_formed (entries : list ScrollInstruction) (st : State)
  : Prop :=
  entriesToProcess st
  = filter (fun e => negb (is_key (compilationMap st) (name e))) entries
  /\ NoDup (map fst (compilationMap st))
  /\ forall k r, In (k, r) (compilationMap st) ->
       find_entry (Some k) entries = Some (base r)
       /\ isAbsolute r = fst (instructionLines (instruction (base r))).

(** The record [r'] is for the same entry, in the same mode, as [r]. *)
Definition same_entry (r r' : CompiledScrollInstruction) : Prop :=
  base r' = base r /\ isAbsolute r' = isAbsolute r.

Definition kept (r0 : CompiledScrollInstruction) (l : Locals) : Prop :=
  same_entry r0 (fst l).

(** The id the first two parameters of a directive refer to: the one
    after [like], and the one after a referent word of an [enter] or
    [leave] directive. *)
Definition referred (line : string) : option (option string) :=
  let keyword := hd "" (JS.split line " ") in
  let dataParameter := JS.slice_from (JS.split_spaces (JS.trim line)) 1 in
  let first := nth_error dataParameter 0 in
  if negb (JS.includes directives keyword) then None
  else if equals first "like" then Some (nth_error dataParameter 1)
  else if JS.includes ["enter"; "leave"] keyword
          && (equals first "with-entry" || equals first "with-exit"
              || equals first "after-entry" || equals first "after-exit")
  then Some (nth_error dataParameter 1)
  else None.

(** Every reference of a compiled record is compiled. *)
Definition resolved (st : State) : Prop :=
  forall k r, In (k, r) (compilationMap st) ->
  forall line id, In line (directives_of (base r)) ->
                  referred line = Some id ->
                  is_key (compilationMap st) (property_key id) = true.

(** [resolved], together with keys that are to stay. *)
Definition resolved_with (K : string -> Prop) (st : State) : Prop :=
  resolved st /\ forall k, K k -> is_key (compilationMap st) k = true.

(** The words that make an [enter] or [leave] directive refer to the
    times of another element. *)
Definition referent_words : list string :=
  ["with-entry"; "with-exit"; "after-entry"; "after-exit"].

(** The time a referent word denotes, given the record it refers to
    and the parameter that follows the id. *)
Definition referent_time (word : string) (source : CompiledScrollInstruction)
           (offset : option string) : float :=
  if String.eqb word "with-entry" then enterAt source
  else if String.eqb word "with-exit" then leaveAt source
  else if String.eqb word "after-entry"
  then (enterAt source + JS.parseInt offset)%float
  else (leaveAt source + JS.parseInt offset)%float.

End PassNotions.

(** ** More sample pages *)

Module Pages.

(** A page where two entries share an id. *)
Definition twins : list Scrollomat.ScrollInstruction :=
  [{| Scrollomat.element := 1%nat; Scrollomat.instruction := "enter 10";
      Scrollomat.name := "a" |};
   {| Scrollomat.element := 2%nat;
      Scrollomat.instruction := "!absolute; enter 50";
      Scrollomat.name := "a" |};
   {| Scrollomat.element := 3%nat;
      Scrollomat.instruction := "enter with-exit a";
      Scrollomat.name := "b" |}].

End Pages.

(** ** The document

    What the methods of a [Scrollomat] object read and write of the
    page: attributes, class lists, inline styles, child lists, and the
    listeners registered.  A text assigned to a style property is kept
    as it was assigned; whether the engine accepts it as a value of the
    property is not modelled. *)

Module Dom.

(** A text assigned to a style property: a string literal of the
    source, or a template literal around a number. *)
Inductive StyleText : Type :=
| Literal (text : string)
| Printed (output : Scrollomat.Output).

Record Element : Type := {
  (** attribute names and values, as [setAttribute] left them *)
  attributes : list (string * string);
  classList : list string;
  (** style properties and the texts last assigned to them *)
  style : list (string * StyleText)
}.

Definition blank : Element :=
  {| attributes := []; classList := []; style := [] |}.

Record Document : Type := {
  elements : HTMLElement -> Element;
  (** [parent.children], in document order *)
  children : HTMLElement -> list HTMLElement;
  (** the handle the next [document.createElement] returns; the handles
      from it on are not in use *)
  next : HTMLElement;
  (** the targets on which a ['scroll'] listener that calls [update]
      was registered, the earliest first *)
  scrollWatchers : list HTMLElement;
  (** the number of calls of [Math.random] so far *)
  randomCalls : nat
}.

Fixpoint assoc {V : Type} (key : string) (xs : list (string * V)) : option V :=
  match xs with
  | [] => None
  | (k, v) :: rest => if String.eqb k key then Some v else assoc key rest
  end.

Fixpoint put {V : Type} (key : string) (v : V) (xs : list (string * V))
  : list (string * V) :=
  match xs with
  | [] => [(key, v)]
  | (k, v0) :: rest =>
      if String.eqb k key then (k, v) :: rest else (k, v0) :: put key v rest
  end.

Definition set_element (e : HTMLElement) (data : Element) (doc : Document)
  : Document :=
  {| elements := fun x => if Nat.eqb x e then data else elements doc x;
     children := children doc;
     next := next doc;
     scrollWatchers := scrollWatchers doc;
     randomCalls := randomCalls doc |}.

(** [e.getAttribute(name)]: [None] is [null]. *)
Definition getAttribute (doc : Document) (e : HTMLElement) (name : string)
  : option string :=
  assoc name (attributes (elements doc e)).

Definition hasAttribute (doc : Document) (e : HTMLElement) (name : string)
  : bool :=
  match getAttribute doc e name with Some _ => true | None => false end.

Definition setAttribute (e : HTMLElement) (name value : string)
           (doc : Document) : Document :=
  let data := elements doc e in
  set_element e
    {| attributes := put name value (attributes data);
       classList := classList data; style := style data |} doc.

(** [e.classList.add(token)] *)
Definition classList_add (e : HTMLElement) (token : string) (doc : Document)
  : Document :=
  let data := elements doc e in
  set_element e
    {| attributes := attributes data;
       classList := if JS.includes (classList data) token
                    then classList data else classList data ++ [token];
       style := style data |} doc.

(** [e.style[property] = text] *)
Definition setStyle (e : HTMLElement) (property : string) (text : StyleText)
           (doc : Document) : Document :=
  let data := elements doc e in
  set_element e
    {| attributes := attributes data; classList := classList data;
       style := put property text (style data) |} doc.

Definition getStyle (doc : Document) (e : HTMLElement) (property : string)
  : option StyleText :=
  assoc property (style (elements doc e)).

(** [document.createElement('div')]: the new element and the document. *)
Definition createElement (doc : Document) : HTMLElement * Document :=
  (next doc,
   {| elements := fun x => if Nat.eqb x (next doc) then blank
                           else elements doc x;
      children := children doc;
      next := S (next doc);
      scrollWatchers := scrollWatchers doc;
      randomCalls := randomCalls doc |}).

(** [parent.appendChild(child)] for a child that has no parent yet. *)
Definition appendChild (parent child : HTMLElement) (doc : Document)
  : Document :=
  {| elements := elements doc;
     children := fun x => if Nat.eqb x parent then children doc x ++ [child]
                          else children doc x;
     next := next doc;
     scrollWatchers := scrollWatchers doc;
     randomCalls := randomCalls doc |}.

(** [target.addEventListener('scroll', () => this.update())] *)
Definition addScrollListener (target : HTMLElement) (doc : Document)
  : Document :=
  {| elements := elements doc;
     children := children doc;
     next := next doc;
     scrollWatchers := scrollWatchers doc ++ [target];
     randomCalls := randomCalls doc |}.

Definition count_random (doc : Document) : Document :=
  {| elements := elements doc;
     children := children doc;
     next := next doc;
     scrollWatchers := scrollWatchers doc;
     randomCalls := S (randomCalls doc) |}.

(** What the host decides: the layout, and the texts
    [Math.random().toString()] gives, call by call. *)
Record Host : Type := {
  environment : Environment;
  (** [element.getBoundingClientRect().top] *)
  boundingTop : HTMLElement -> float;
  randomText : nat -> string
}.

End Dom.

(** ** A Scrollomat object: its fields and the methods that work on the
    page (lines 185-286) *)

Module Instance.

Import Dom.
Local Open Scope float_scope.

Record t : Type := {
  compilationResult : option (list Scrollomat.CompiledScrollInstruction);
  canvas : HTMLElement;
  entries : list Scrollomat.ScrollInstruction;
  scrollPlaceholder : option HTMLElement;
  maxHeight : float;
  (** the records the evaluators of [compilationResult] have captured:
      the compilation map of the pass that built them *)
  captured : Scrollomat.CompilationMap
}.

Definition push_entry (entry : Scrollomat.ScrollInstruction) (this : t) : t :=
  {| compilationResult := compilationResult this;
     canvas := canvas this;
     entries := entries this ++ [entry];
     scrollPlaceholder := scrollPlaceholder this;
     maxHeight := maxHeight this;
     captured := captured this |}.

Section WithHost.
Variable host : Host.

(** A value of [getAttribute] that is falsy: [null] or the empty
    string. *)
Definition falsy (value : option string) : bool :=
  negb (Scrollomat.truthy value).

(** [loadScrollData] (lines 225-238).  [None] for an element without
    the attribute [scroll-data]: the entry pushed would hold [null] for
    its instruction, which [ScrollInstruction] has no value for
    ([loadCanvas] calls the method on elements that have the attribute
    only). *)
Definition loadScrollData (element : HTMLElement) (s : t * Document)
  : option (t * Document) :=
  let (this, doc) := s in
  let doc :=
    if falsy (getAttribute doc element "id")
    then setAttribute element "id" (randomText host (randomCalls doc))
                      (count_random doc)
    else doc in
  let doc := classList_add element "scrollable" doc in
  let doc := setStyle element "top" (Literal "200vh") doc in
  match getAttribute doc element "scroll-data",
        getAttribute doc element "id" with
  | Some instruction, Some name =>
      Some (push_entry {| Scrollomat.element := element;
                          Scrollomat.instruction := instruction;
                          Scrollomat.name := name |} this, doc)
  | _, _ => None
  end.

Fixpoint load_each (es : list HTMLElement) (s : t * Document)
  : option (t * Document) :=
  match es with
  | [] => Some s
  | e :: rest =>
      match loadScrollData e s with
      | Some s' => load_each rest s'
      | None => None
      end
  end.

(** [loadCanvas] (lines 217-223) *)
Definition loadCanvas (s : t * Document) : option (t * Document) :=
  let (this, doc) := s in
  let children :=
    filter (fun e => hasAttribute doc e "scroll-data")
           (Dom.children doc (canvas this)) in
  load_each children s.

(** The constructor (lines 191-196); [maxHeight] starts at 100. *)
Definition new (canvas : HTMLElement) (doc : Document)
  : option (t * Document) :=
  loadCanvas ({| compilationResult := None; canvas := canvas; entries := [];
                 scrollPlaceholder := None; maxHeight := 100;
                 captured := [] |}, doc).

(** The callback of [compilationResult.forEach] in [update] (lines
    246-264) at the scroll distance [d]: the document afterwards, and
    the exception when an evaluator throws. *)
Definition updateOne (this : t) (d : float)
           (instruction : Scrollomat.CompiledScrollInstruction)
           (doc : Document) : Document * option exn :=
  let element := Scrollomat.element (Scrollomat.base instruction) in
  let listeners := Scrollomat.scrollListeners instruction in
  let call := Scrollomat.call (environment host) (captured this) in
  if Scrollomat.isAbsolute instruction
     && (JS.gtb (Scrollomat.enterAt instruction) d
         || JS.gtb d (Scrollomat.leaveAt instruction))
  then (setStyle element "display" (Literal "none") doc, None)
  else
    let doc :=
      if Scrollomat.isAbsolute instruction
      then setStyle element "display" (Literal "") doc else doc in
    let offset :=
      (d - Scrollomat.enterAt instruction) / Scrollomat.duration instruction in
    match call (Scrollomat.yEasingFunction listeners) offset with
    | Raise e => (doc, Some e)
    | Return top =>
        let doc := setStyle element "top" (Printed top) doc in
        match call (Scrollomat.xEasingFunction listeners) offset with
        | Raise e => (doc, Some e)
        | Return leftText =>
            let doc := setStyle element "left" (Printed leftText) doc in
            match call (Scrollomat.opacityEasingFunction listeners) offset
            with
            | Raise e => (doc, Some e)
            | Return opacity =>
                let doc := setStyle element "opacity" (Printed opacity) doc in
                (* the [for ... in] loop calls the three evaluators once
                   more and drops what they return *)
                match call (Scrollomat.xEasingFunction listeners) offset,
                      call (Scrollomat.yEasingFunction listeners) offset,
                      call (Scrollomat.opacityEasingFunction listeners) offset
                with
                | Raise e, _, _ => (doc, Some e)
                | _, Raise e, _ => (doc, Some e)
                | _, _, Raise e => (doc, Some e)
                | _, _, _ => (doc, None)
                end
            end
        end
    end.

(** [forEach] stops at the first exception. *)
Fixpoint update_each (this : t) (d : float)
         (instructions : list Scrollomat.CompiledScrollInstruction)
         (doc : Document) : Document * option exn :=
  match instructions with
  | [] => (doc, None)
  | i :: rest =>
      match updateOne this d i doc with
      | (doc', None) => update_each this d rest doc'
      | (doc', Some e) => (doc', Some e)
      end
  end.

(** [Math.min(this.maxHeight, -top / window.innerHeight * 100 + 100)]
    for the top of the placeholder. *)
Definition currentScrollDistance (this : t) (placeholder : HTMLElement)
  : float :=
  JS.Math_min2 (maxHeight this)
               ((- boundingTop host placeholder)
                / innerHeight (environment host) * 100 + 100).

(** [update] (lines 240-265) *)
Definition update (this : t) (doc : Document) : Document * option exn :=
  match scrollPlaceholder this with
  | None => (doc, Some (TypeError "Cannot read properties of undefined"))
  | Some placeholder =>
      match compilationResult this with
      | None => (doc, None)
      | Some instructions =>
          update_each this (currentScrollDistance this placeholder)
                      instructions doc
      end
  end.

(** [mountToWatcher] (lines 267-286): the object and the document
    afterwards, and the exception when the first [update] throws. *)
Definition mountToWatcher (fuel : nat) (watcher : HTMLElement)
           (s : t * Document)
  : Scrollomat.outcome (t * Document * option exn) :=
  let (this, doc) := s in
  Scrollomat.bind (Scrollomat.compileScrollData fuel (entries this))
    (fun pass =>
       let (report, st) := pass : Scrollomat.CompilationReport
                                  * Scrollomat.State in
       let height :=
         Printed (Scrollomat.template (Scrollomat.maxHeight report) "vh") in
       let (placeholder, doc) := createElement doc in
       let doc := setStyle placeholder "height" height doc in
       let doc := setStyle (canvas this) "height" height doc in
       let doc := appendChild watcher placeholder doc in
       let this :=
         {| compilationResult := Some (Scrollomat.compilationResult report);
            canvas := canvas this;
            entries := entries this;
            scrollPlaceholder := Some placeholder;
            maxHeight := Scrollomat.maxHeight report;
            captured := Scrollomat.compilationMap st |} in
       let doc := addScrollListener watcher doc in
       let (doc, thrown) := update this doc in
       Scrollomat.Ok (this, doc, thrown)).

End WithHost.

End Instance.

(** ** Notions for the statements about the page *)

Module PageNotions.

Import Dom.

(** The style properties [update] assigns. *)
Definition updated_properties : list string :=
  ["display"; "top"; "left"; "opacity"].

(** From [doc] to [doc'] nothing changed but inline styles, and a style
    property changed only where it is one that [update] assigns, on the
    element of one of the records [rs], [display] only on the element
    of an absolute record. *)
Definition styled_by (rs : list Scrollomat.CompiledScrollInstruction)
           (doc doc' : Document) : Prop :=
  children doc' = children doc
  /\ next doc' = next doc
  /\ scrollWatchers doc' = scrollWatchers doc
  /\ randomCalls doc' = randomCalls doc
  /\ forall x,
      attributes (elements doc' x) = attributes (elements doc x)
      /\ classList (elements doc' x) = classList (elements doc x)
      /\ forall property,
          getStyle doc' x property = getStyle doc x property
          \/ exists r,
               In r rs
               /\ Scrollomat.element (Scrollomat.base r) = x
               /\ In property updated_properties
               /\ (property = "display" -> Scrollomat.isAbsolute r = true).

(** What a pass of [update] at the scroll distance [d] makes of the
    element of the record [r], from [doc] to [doc']: an absolute
    element out of its window is hidden and left where it was; any
    other gets the texts its three evaluators return for its progress,
    an absolute one being shown again. *)
Definition placed (host : Host) (m : Scrollomat.CompilationMap) (d : float)
           (r : Scrollomat.CompiledScrollInstruction)
           (doc doc' : Document) : Prop :=
  let x := Scrollomat.element (Scrollomat.base r) in
  let offset :=
    ((d - Scrollomat.enterAt r) / Scrollomat.duration r)%float in
  let listeners := Scrollomat.scrollListeners r in
  let call := Scrollomat.call (environment host) m in
  if Scrollomat.isAbsolute r
     && (JS.gtb (Scrollomat.enterAt r) d || JS.gtb d (Scrollomat.leaveAt r))
  then getStyle doc' x "display" = Some (Literal "none")
       /\ forall property,
            property <> "display" ->
            getStyle doc' x property = getStyle doc x property
  else (if Scrollomat.isAbsolute r
        then getStyle doc' x "display" = Some (Literal "")
        else getStyle doc' x "display" = getStyle doc x "display")
       /\ exists top leftText opacity,
            call (Scrollomat.yEasingFunction listeners) offset = Return top
            /\ call (Scrollomat.xEasingFunction listeners) offset
               = Return leftText
            /\ call (Scrollomat.opacityEasingFunction listeners) offset
               = Return opacity
            /\ getStyle doc' x "top" = Some (Printed top)
            /\ getStyle doc' x "left" = Some (Printed leftText)
            /\ getStyle doc' x "opacity" = Some (Printed opacity).

End PageNotions.

(** ** A sample document *)

Module Documents.

Import Dom.
Local Open Scope float_scope.

(** A canvas (0) with three children: the first has an id, the second
    has none, the third has no attribute [scroll-data]. *)
Definition document : Document :=
  {| elements := fun x =>
       match x with
       | 1%nat =>
           {| attributes := [("scroll-data", "enter 10"); ("id", "a")];
              classList := []; style := [] |}
       | 2%nat =>
           {| attributes :=
                [("scroll-data", "!absolute; enter with-exit a; x 5")];
              classList := ["box"]; style := [] |}
       | _ => blank
       end;
     children := fun x => match x with 0%nat => [1; 2; 3]%nat | _ => [] end;
     next := 10%nat;
     scrollWatchers := [];
     randomCalls := 0%nat |}.

(** A host whose window is 800 high and scrolled by 80, and whose
    [Math.random] prints as 0.5. *)
Definition host : Host :=
  {| environment := Examples.page;
     boundingTop := fun _ => (-80);
     randomText := fun _ => "0.5" |}.

End Documents.

(** * Properties *)

(** ** The order of numbers *)

Module FloatOrder.

Import Notions.

Ltac compare_cases :=
  match goal with
  | |- context [Pos.compare_cont Eq ?m ?n] =>
      change (Pos.compare_cont Eq m n) with (Pos.compare m n)
  | _ => idtac
  end;
  repeat match goal with
    | |- context [Z.compare ?a ?b] => destruct (Z.compare_spec a b)
    | |- context [Pos.compare ?a ?b] => destruct (Pos.compare_spec a b)
    end;
  cbn; split; try discriminate; try reflexivity; try lia.

Lemma SFleb_key (x y : spec_float) :
  x <> S754_nan -> y <> S754_nan ->
  SFleb x y = true <-> key_le (key x) (key y).
Proof.
  intros Hx Hy. unfold SFleb, SFcompare.
  destruct x as [sx|sx| |sx mx ex], y as [sy|sy| |sy my ey];
    try congruence; try destruct sx; try destruct sy; cbn; compare_cases.
Qed.

Lemma SFltb_key (x y : spec_float) :
  x <> S754_nan -> y <> S754_nan ->
  SFltb x y = true <-> key_lt (key x) (key y).
Proof.
  intros Hx Hy. unfold SFltb, SFcompare.
  destruct x as [sx|sx| |sx mx ex], y as [sy|sy| |sy my ey];
    try congruence; try destruct sx; try destruct sy; cbn; compare_cases.
Qed.

Lemma SFleb_not_nan (x y : spec_float) :
  SFleb x y = true -> x <> S754_nan /\ y <> S754_nan.
Proof.
  unfold SFleb, SFcompare.
  destruct x as [sx|sx| |sx mx ex], y as [sy|sy| |sy my ey];
    try discriminate; intros _; split; discriminate.
Qed.

Lemma SFltb_not_nan (x y : spec_float) :
  SFltb x y = true -> x <> S754_nan /\ y <> S754_nan.
Proof.
  unfold SFltb, SFcompare.
  destruct x as [sx|sx| |sx mx ex], y as [sy|sy| |sy my ey];
    try discriminate; intros _; split; discriminate.
Qed.

Lemma key_le_trans (a b c : Z * Z * Z) :
  key_le a b -> key_le b c -> key_le a c.
Proof.
  destruct a as [[a1 a2] a3], b as [[b1 b2] b3], c as [[c1 c2] c3].
  unfold key_le. lia.
Qed.

Lemma key_total (a b : Z * Z * Z) : key_lt a b \/ key_le b a.
Proof.
  destruct a as [[a1 a2] a3], b as [[b1 b2] b3]. unfold key_le, key_lt. lia.
Qed.

Lemma key_lt_le (a b : Z * Z * Z) : key_lt a b -> key_le a b.
Proof.
  destruct a as [[a1 a2] a3], b as [[b1 b2] b3]. unfold key_le, key_lt. lia.
Qed.

Lemma key_le_refl (a : Z * Z * Z) : key_le a a.
Proof. destruct a as [[a1 a2] a3]. unfold key_le. lia. Qed.

Lemma is_nan_spec (x : float) :
  PrimFloat.is_nan x = false <-> Prim2SF x <> S754_nan.
Proof.
  unfold PrimFloat.is_nan. rewrite eqb_spec. unfold SFeqb.
  destruct (Prim2SF x) as [s|s| |s m e] eqn:E; cbn.
  - split; [discriminate | reflexivity].
  - destruct s; split; try discriminate; reflexivity.
  - split; [discriminate | congruence].
  - change (Pos.compare_cont Eq m m) with (Pos.compare m m).
    rewrite Z.compare_refl, Pos.compare_refl.
    destruct s; split; try discriminate; reflexivity.
Qed.

(** [x <= y] holds of no NaN. *)
Lemma leb_not_nan (x y : float) :
  PrimFloat.leb x y = true ->
  PrimFloat.is_nan x = false /\ PrimFloat.is_nan y = false.
Proof.
  rewrite leb_spec. intros H. apply SFleb_not_nan in H.
  rewrite !is_nan_spec. exact H.
Qed.

Lemma ltb_not_nan (x y : float) :
  PrimFloat.ltb x y = true ->
  PrimFloat.is_nan x = false /\ PrimFloat.is_nan y = false.
Proof.
  rewrite ltb_spec. intros H. apply SFltb_not_nan in H.
  rewrite !is_nan_spec. exact H.
Qed.

Lemma leb_trans (x y z : float) :
  PrimFloat.leb x y = true -> PrimFloat.leb y z = true ->
  PrimFloat.leb x z = true.
Proof.
  rewrite !leb_spec. intros H1 H2.
  destruct (SFleb_not_nan _ _ H1) as [Hx Hy].
  destruct (SFleb_not_nan _ _ H2) as [_ Hz].
  apply SFleb_key in H1; trivial. apply SFleb_key in H2; trivial.
  apply SFleb_key; trivial. eapply key_le_trans; eassumption.
Qed.

Lemma leb_refl (x : float) :
  PrimFloat.is_nan x = false -> PrimFloat.leb x x = true.
Proof.
  rewrite is_nan_spec, leb_spec. intros H.
  apply SFleb_key; trivial. apply key_le_refl.
Qed.

Lemma ltb_leb (x y : float) :
  PrimFloat.ltb x y = true -> PrimFloat.leb x y = true.
Proof.
  rewrite ltb_spec, leb_spec. intros H.
  destruct (SFltb_not_nan _ _ H) as [Hx Hy].
  apply SFltb_key in H; trivial. apply SFleb_key; trivial.
  now apply key_lt_le.
Qed.

(** Two numbers that are not NaN are comparable. *)
Lemma leb_total (x y : float) :
  PrimFloat.is_nan x = false -> PrimFloat.is_nan y = false ->
  PrimFloat.ltb x y = false -> PrimFloat.leb y x = true.
Proof.
  rewrite !is_nan_spec, ltb_spec, leb_spec. intros Hx Hy H.
  apply SFleb_key; trivial.
  destruct (key_total (key (Prim2SF x)) (key (Prim2SF y))) as [L|L]; trivial.
  apply SFltb_key in L; trivial. congruence.
Qed.

End FloatOrder.

(** ** The curve evaluator *)

Module BezierFacts.

Import BezierEasing.
Local Open Scope float_scope.

Lemma new_fields (env : Environment) (x1 y1 x2 y2 : option float) (b : t) :
  new env x1 y1 x2 y2 = Return b ->
  Some (mX1 b) = x1 /\ Some (mY1 b) = y1 /\ Some (mX2 b) = x2
  /\ Some (mY2 b) = y2 /\ _precomputed b = false.
Proof.
  unfold new.
  destruct (negb _); [discriminate|].
  destruct x1, y1, x2, y2; try discriminate.
  destruct (_ || _); [discriminate|].
  intros H. injection H as <-. cbn. auto.
Qed.

Lemma precompute_linear (env : Environment) (b : t) :
  linear (precompute env b) = linear b.
Proof.
  unfold precompute, linear. destruct (_ || _); reflexivity.
Qed.

Lemma one_not_below_zero (p : float) :
  (p <=? 0) = true -> JS.geb p 1 = false.
Proof.
  intros H. unfold JS.geb. destruct (1 <=? p) eqn:E; trivial.
  pose proof (FloatOrder.leb_trans _ _ _ E H) as C.
  vm_compute in C. discriminate.
Qed.

Lemma not_below_zero_above_one (p : float) :
  JS.geb p 1 = true -> (p <=? 0) = false.
Proof.
  intros H. destruct (p <=? 0) eqn:E; trivial.
  rewrite (one_not_below_zero _ E) in H. discriminate.
Qed.

(** C3, as stated, fails: the curve (0, 0, 1, 1) is constructed, and
    [evaluate] returns the progress -0.5 itself, not 0. *)
Lemma evaluate_linear_not_clamped :
  ~ (forall (env : Environment) (x1 y1 x2 y2 : float) (b : t) (p : float),
        new env (Some x1) (Some y1) (Some x2) (Some y2) = Return b ->
        ((p <=? 0) = true -> fst (evaluate env b p) = 0)
        /\ (JS.geb p 1 = true -> fst (evaluate env b p) = 1)).
Proof.
  intros H.
  destruct (H Examples.page 0 0 1 1 _ (-0.5) eq_refl) as [H0 _].
  specialize (H0 eq_refl).
  apply (f_equal (fun x => 0 <=? x)) in H0. vm_compute in H0. discriminate.
Qed.

(** C3, amended: on a constructed curve that is not linear (x1 = y1 and
    x2 = y2), [evaluate] returns exactly 0 for a progress [<= 0] and
    exactly 1 for a progress [>= 1]; on a linear curve it returns the
    progress itself, whatever it is; [Scrollomat.computeBezier], through
    which the evaluators reach the curve, clamps before it constructs
    the curve and so returns exactly 0 and 1 for every curve. *)
Theorem evaluate_clamps_unless_linear
        (env : Environment) (x1 y1 x2 y2 : option float) (b : t) (p : float) :
  new env x1 y1 x2 y2 = Return b ->
  (linear b = true -> fst (evaluate env b p) = p)
  /\ (linear b = false ->
      ((p <=? 0) = true -> fst (evaluate env b p) = 0)
      /\ (JS.geb p 1 = true -> fst (evaluate env b p) = 1))
  /\ ((p <=? 0) = true ->
      Scrollomat.computeBezier env p x1 y1 x2 y2 = Return 0)
  /\ (JS.geb p 1 = true ->
      Scrollomat.computeBezier env p x1 y1 x2 y2 = Return 1).
Proof.
  intros Hnew. destruct (new_fields _ _ _ _ _ _ Hnew) as (_ & _ & _ & _ & Hpre).
  assert (Hev : forall q,
             evaluate env b q
             = if linear b then (q, precompute env b)
               else if q <=? 0 then (0, precompute env b)
               else if JS.geb q 1 then (1, precompute env b)
               else (calcBezier (getTForX (precompute env b) q)
                                (mY1 (precompute env b))
                                (mY2 (precompute env b)),
                     precompute env b)).
  { intros q. unfold evaluate. rewrite Hpre. cbn [negb].
    rewrite precompute_linear. reflexivity. }
  split; [|split; [|split]].
  - intros L. rewrite Hev, L. reflexivity.
  - intros L. split; intros Hp.
    + rewrite Hev, L, Hp. reflexivity.
    + rewrite Hev, L, (not_below_zero_above_one _ Hp), Hp. reflexivity.
  - intros Hp. unfold Scrollomat.computeBezier.
    rewrite (one_not_below_zero _ Hp), Hp. reflexivity.
  - intros Hp. unfold Scrollomat.computeBezier. rewrite Hp. reflexivity.
Qed.

(** An instance: the curve (0.25, 0.1, 0.25, 1) at the progress -3. *)
Lemma evaluate_clamps_unless_linear_witness :
  fst (evaluate Examples.page
         (mk (repeat 0 kSplineTableSize) 0.25 0.1 0.25 1 false) (-3)) = 0.
Proof.
  apply (evaluate_clamps_unless_linear Examples.page
           (Some 0.25) (Some 0.1) (Some 0.25) (Some 1) _ (-3)).
  - reflexivity.
  - reflexivity.
  - reflexivity.
Defined.

End BezierFacts.

(** ** Directives on concrete pages *)

Module DirectiveFacts.

Import Scrollomat Examples Notions.
Local Open Scope float_scope.
#[local] Set Warnings "-inexact-float".

(** C1 on the code: the literal form of [leave] assigns [enterAt]
    (line 447), where the claim and the referent forms of lines 432 and
    438 assign [duration].  ['enter 0; leave 100;'] compiles to
    enterAt = 100, duration = 100, leaveAt = 200, and
    ['enter 0; duration 100;'] to enterAt = 0, duration = 100,
    leaveAt = 100. *)
Theorem leave_literal_assigns_enterAt :
  option_map times
    (compiledAs "a" (compileScrollData 2 [entry "a" "enter 0; leave 100;"]))
  = Some (100, 100, 200)
  /\ option_map times
       (compiledAs "a"
          (compileScrollData 2 [entry "a" "enter 0; duration 100;"]))
     = Some (0, 100, 100)
  /\ forall (e : ScrollInstruction) (v : string)
            (resultHere : CompiledScrollInstruction) (st : State),
      directive_leave e [v] None None (resultHere, st)
      = (set_enterAt (JS.parseInt (Some v) - enterAt resultHere) resultHere,
         st).
Proof.
  split; [|split].
  - vm_compute. reflexivity.
  - vm_compute. reflexivity.
  - intros e v resultHere st. reflexivity.
Qed.

(** C4 on the code: outside [!absolute] mode the message is sent, and
    the directive is carried out all the same (no [return] follows the
    [console.error] of line 530): ['x 5'] leaves the destination 5 and
    an evaluator that returns ['5vw'] in place of the default ['0vw'],
    and ['y 40 20'] replaces the default vertical evaluator. *)
Theorem absolute_directive_outside_absolute_mode_is_carried_out :
  let pass := compileScrollData 2 [entry "a" "x 5; y 40 20"] in
  option_map (fun r => (isAbsolute r, destination (absoluteX r),
                        scrollListeners r))
             (compiledAs "a" pass)
  = Some (false, Some 5,
          {| xEasingFunction := FixedPosition "a" AxisX;
             yEasingFunction := UniformSteps ["40"; "20"] [0; 0; 1; 1] AxisY;
             opacityEasingFunction := ConstantOpacity |})
  /\ match pass with
     | Ok (_, st) => console st
     | _ => []
     end
     = ["Cannot use directive 'x' outside of !absolute mode (a).";
        "Cannot use directive 'y' outside of !absolute mode (a)."]
  /\ evaluator "a" xEasingFunction pass 0.5 = Some (Return (Text 5 "vw"))
  /\ evaluator "a" yEasingFunction pass 0.5 = Some (Return (Text 30 "vh")).
Proof.
  cbv zeta. repeat split; vm_compute; reflexivity.
Qed.

(** The position a custom timeline returns does not depend on the
    leading [initialPos] once a clause has been collected. *)
Lemma customTimeline_ignores_initialPos
      (env : Environment) (d : float) (s : CompiledAbsoluteSegment)
      (rest : list CompiledAbsoluteSegment) (p q : float) (axis : Axis)
      (t : float) :
  customTimeline env d (s :: rest) p axis t
  = customTimeline env d (s :: rest) q axis t.
Proof.
  unfold customTimeline.
  destruct (JS.at_index (s :: rest) _) as [l|]; [reflexivity|].
  assert (H : exists c, hd_error (JS.slice_from (s :: rest) (-1)) = Some c).
  { unfold JS.slice_from, JS.relative_index.
    change ((-1 <? 0)%Z) with true. cbv iota.
    replace (Z.to_nat (Z.max (Z.of_nat (List.length (s :: rest)) + -1) 0))
      with (List.length rest) by (cbn [List.length]; lia).
    clear. revert s. induction rest as [|x rest IH]; intros s.
    - exists s. reflexivity.
    - cbn [List.length skipn]. apply IH. }
  destruct H as [c ->]. reflexivity.
Qed.

(** C6 on the code: before the end time of every clause the evaluator
    interpolates from the [startPos] of the earliest clause, which is 0
    unless the clause gives one; [initialPos] is stored as the [endPos]
    of the stand-in checkpoint (line 772) and never read.  With
    ['y 50 . 10: - 80 | 0 0 1 1 |'] the evaluator returns 0 at elapsed
    time 0 and 40 at elapsed time 5, where the claim has 50 and 65. *)
Theorem custom_timeline_starts_from_zero :
  let pass :=
    compileScrollData 2
      [entry "a" "!absolute; y 50 . 10: - 80 | 0 0 1 1 |"] in
  option_map (fun r => yEasingFunction (scrollListeners r))
             (compiledAs "a" pass)
  = Some (CustomTimeline "a"
            [{| byTime := 10; startPos := 0; endPos := 80;
                ease := [0; 0; 1; 1] |}] 50 AxisY)
  /\ evaluator "a" yEasingFunction pass 0 = Some (Return (Text 0 "vh"))
  /\ evaluator "a" yEasingFunction pass 0.05 = Some (Return (Text 40 "vh")).
Proof.
  cbv zeta. repeat split; vm_compute; reflexivity.
Qed.

End DirectiveFacts.

(** ** Interpolation between small integers *)

Module IntegerFacts.

Import Notions.
Local Open Scope float_scope.

Lemma interpolates_exactlyb_spec (u v : float) :
  interpolates_exactlyb u v = true -> interpolates_exactly u v.
Proof.
  unfold interpolates_exactlyb, interpolates_exactly. intros H.
  apply andb_prop in H as [H0 H1].
  split; apply FloatAxioms.Leibniz.eqb_spec; assumption.
Qed.

(** Between any two integers from -1000 to 1000 the interpolation is
    exact. *)
Lemma small_integers_interpolate_exactly (u v : float) :
  In u (integers_from (-1000) 2001) -> In v (integers_from (-1000) 2001) ->
  interpolates_exactly u v.
Proof.
  intros Hu Hv. apply interpolates_exactlyb_spec.
  assert (H : (let range := integers_from (-1000) 2001 in
               forallb (fun a => forallb (interpolates_exactlyb a) range)
                       range) = true)
    by (vm_compute; reflexivity).
  cbv zeta in H.
  rewrite forallb_forall in H. specialize (H u Hu).
  rewrite forallb_forall in H. apply H, Hv.
Qed.

End IntegerFacts.

(** ** Lists of values *)

Module UniformFacts.

Import Scrollomat Examples Notions.
Local Open Scope float_scope.
#[local] Set Warnings "-inexact-float".

Lemma indexOf_absent (x : string) (xs : list string) :
  JS.includes xs x = false -> JS.indexOf xs x = (-1)%Z.
Proof.
  unfold JS.includes, JS.indexOf, JS.findIndex. generalize 0%Z.
  induction xs as [|y ys IH]; intros k H; cbn in *.
  - reflexivity.
  - destruct (String.eqb x y); [discriminate|]. apply IH, H.
Qed.

Lemma read_own_array_just_set (axis : Axis) (xs : list string) (a : AbsoluteData)
      (r : CompiledScrollInstruction) (st : State) :
  read_array axis OwnArray (set_absolute axis (set_value (Some xs) a) r, st)
  = Ok xs.
Proof. destruct axis; reflexivity. Qed.

(** The evaluator of four values at the four boundaries. *)
Lemma uniformSteps_boundaries (env : Environment) (a b c d : string)
      (axis : Axis) :
  let v (s : string) := JS.parseInt (Some s) in
  let at_ (t u w k : float) :=
    uniformSteps env [a; b; c; d] linearCurve axis t
    = Return (template (u + k * (w - u)) (distanceUnit axis)) in
  at_ 0 (v a) (v b) 0 /\ at_ (1 / 3) (v b) (v c) 0
  /\ at_ (2 / 3) (v c) (v d) 0 /\ at_ 1 (v c) (v d) 1.
Proof.
  cbv zeta. unfold uniformSteps, template.
  set (f := JS.parseInt). clearbody f.
  set (u := distanceUnit axis). clearbody u.
  set (p := JS.printed). clearbody p.
  repeat split; vm_compute; reflexivity.
Qed.

(** C7, as stated, fails: the values of ['x 0.5 1.5 2.5 3.5'] are
    numbers, and the evaluator returns 0 at the progress 0 (each value
    is read with [parseInt]), not the first listed value 0.5. *)
Lemma fractional_values_are_truncated :
  ~ (forall a b c d : string,
        numeric a -> numeric b -> numeric c -> numeric d ->
        let pass :=
          compileScrollData 2
            [entry "e" ("!absolute; x " ++ a ++ " " ++ b ++ " " ++ c
                        ++ " " ++ d)] in
        evaluator "e" xEasingFunction pass 0
        = Some (Return (template (JS.parseFloat a) "vw"))
        /\ evaluator "e" xEasingFunction pass (1 / 3)
           = Some (Return (template (JS.parseFloat b) "vw"))
        /\ evaluator "e" xEasingFunction pass (2 / 3)
           = Some (Return (template (JS.parseFloat c) "vw"))
        /\ evaluator "e" xEasingFunction pass 1
           = Some (Return (template (JS.parseFloat d) "vw"))).
Proof.
  intros H.
  destruct (H "0.5" "1.5" "2.5" "3.5" eq_refl eq_refl eq_refl eq_refl)
    as [H0 _].
  apply (f_equal (fun o => match o with
                           | Some (Return (Text n _)) => 0.25 <=? n
                           | _ => false
                           end)) in H0.
  vm_compute in H0. discriminate.
Qed.

(** C7, amended: for an [x] directive in absolute mode that lists
    exactly four tokens (none of them [like] or [|]) and no colon, the
    evaluator at the progress 0, 1/3, 2/3 and 1 returns exactly what
    [parseInt] reads in the 1st, 2nd, 3rd and 4th token (a fractional
    part is dropped), whenever interpolating between neighbouring values
    is exact in floating point. *)
Theorem uniform_steps_return_the_listed_integers
        (env : Environment)
        (request : option string -> State -> outcome State)
        (e : ScrollInstruction) (text a b c d : string)
        (resultHere : CompiledScrollInstruction) (st : State) :
  JS.includes_char text ":" = false ->
  JS.includes [a; b; c; d] "like" = false ->
  JS.includes [a; b; c; d] "|" = false ->
  interpolates_exactly (JS.parseInt (Some a)) (JS.parseInt (Some b)) ->
  interpolates_exactly (JS.parseInt (Some b)) (JS.parseInt (Some c)) ->
  interpolates_exactly (JS.parseInt (Some c)) (JS.parseInt (Some d)) ->
  exists resultHere' : CompiledScrollInstruction,
    directive_absolute request e true AxisX text [a; b; c; d] None
                       (resultHere, st)
    = Ok (resultHere', st)
    /\ let x := call env (compilationMap st)
                     (xEasingFunction (scrollListeners resultHere')) in
       x 0 = Return (template (JS.parseInt (Some a)) "vw")
       /\ x (1 / 3) = Return (template (JS.parseInt (Some b)) "vw")
       /\ x (2 / 3) = Return (template (JS.parseInt (Some c)) "vw")
       /\ x 1 = Return (template (JS.parseInt (Some d)) "vw").
Proof.
  intros Hcolon Hlike Hpipe [Hab _] [Hbc _] [Hcd0 Hcd1].
  eexists. split.
  - unfold directive_absolute.
    rewrite read_own_array_just_set. cbn [bind List.length Nat.eqb].
    rewrite Hcolon. cbn [negb].
    unfold absolute_uniform. rewrite (indexOf_absent _ _ Hpipe).
    change (JS.slice [a; b; c; d] 0
              (if (-1 <? -1)%Z then (-1)%Z
               else Z.of_nat (List.length [a; b; c; d])))
      with [a; b; c; d].
    unfold substituteLike. rewrite (indexOf_absent _ _ Hlike).
    change ((-1 <? -1)%Z) with false. cbn [bind].
    rewrite read_own_array_just_set. cbn [bind]. rewrite Hpipe. reflexivity.
  - cbv zeta. cbn [call set_listener set_scrollListeners scrollListeners
                   xEasingFunction].
    destruct (uniformSteps_boundaries env a b c d AxisX)
      as (E0 & E1 & E2 & E3).
    cbv zeta in E0, E1, E2, E3. rewrite E0, E1, E2, E3.
    unfold template in *. cbn [distanceUnit].
    rewrite Hab, Hbc, Hcd0, Hcd1. repeat split; reflexivity.
Qed.

(** An instance: ['x 0 10 20 30'] on the sample page. *)
Lemma uniform_steps_return_the_listed_integers_witness :
  exists resultHere' : CompiledScrollInstruction,
    directive_absolute (requestForProcessing 1) (entry "e" "x 0 10 20 30")
        true AxisX "x 0 10 20 30" ["0"; "10"; "20"; "30"] None
        (set_isAbsolute true (initial (entry "e" "x 0 10 20 30")),
         {| compilationMap := []; entriesToProcess := []; console := [] |})
    = Ok (resultHere',
          {| compilationMap := []; entriesToProcess := []; console := [] |})
    /\ let x := call page []
                     (xEasingFunction (scrollListeners resultHere')) in
       x 0 = Return (template (JS.parseInt (Some "0")) "vw")
       /\ x (1 / 3) = Return (template (JS.parseInt (Some "10")) "vw")
       /\ x (2 / 3) = Return (template (JS.parseInt (Some "20")) "vw")
       /\ x 1 = Return (template (JS.parseInt (Some "30")) "vw").
Proof.
  apply (uniform_steps_return_the_listed_integers page
           (requestForProcessing 1) (entry "e" "x 0 10 20 30")
           "x 0 10 20 30" "0" "10" "20" "30").
  - reflexivity.
  - reflexivity.
  - reflexivity.
  - split; vm_compute; reflexivity.
  - split; vm_compute; reflexivity.
  - split; vm_compute; reflexivity.
Defined.

End UniformFacts.

(** ** Easing directives *)

Module EasingFacts.

Import Scrollomat Examples Notions.
Local Open Scope float_scope.
#[local] Set Warnings "-inexact-float".

Lemma plain_equals (first word : string) :
  plain first ->
  In word ["like"; "with-entry"; "with-exit"; "after-entry"; "after-exit"] ->
  equals (Some first) word = false.
Proof.
  intros P I. cbn [equals]. destruct (String.eqb_spec first word); trivial.
  subst. contradiction.
Qed.

(** A directive whose first parameter is no referent word resolves no
    referent. *)
Lemma resolveReferent_plain
      (request : option string -> State -> outcome State)
      (e : ScrollInstruction) (keyword first : string) (rest : list string)
      (st : State) :
  plain first ->
  resolveReferent request e keyword (first :: rest) st = Ok (None, None, st).
Proof.
  intros P. unfold resolveReferent. cbn [nth_error].
  rewrite !(plain_equals first) by (trivial; cbn; tauto).
  reflexivity.
Qed.

(** C9: in an entry that is not absolute, [ease like ID] returns a
    record whose [yEasingCurve] is the curve of the record compiled
    under ID and whose other fields are those it had: the evaluators,
    [yEasingFunction] among them, stay as they were, so the vertical
    evaluator still computes what it computed before.  The form with
    four numbers returns a record whose [yEasingCurve] is the parsed
    curve and whose [yEasingFunction] is a new evaluator built from
    it. *)
Theorem ease_like_keeps_the_evaluator
        (env : Environment)
        (request : option string -> State -> outcome State)
        (e : ScrollInstruction) (text id : string) (more : list string)
        (literal a b c d : string)
        (resultHere source : CompiledScrollInstruction) (st st' : State) :
  hd "" (JS.split text " ") = "ease" ->
  JS.slice_from (JS.split_spaces (JS.trim text)) 1 = "like" :: id :: more ->
  request (Some id) st = Ok st' ->
  lookup (compilationMap st') id = Some source ->
  hd "" (JS.split literal " ") = "ease" ->
  JS.slice_from (JS.split_spaces (JS.trim literal)) 1 = [a; b; c; d] ->
  plain a ->
  (exists r : CompiledScrollInstruction,
      directive request e false text (resultHere, st) = Ok (r, st')
      /\ yEasingCurve r = yEasingCurve source
      /\ scrollListeners r = scrollListeners resultHere
      /\ (forall m t,
             call env m (yEasingFunction (scrollListeners r)) t
             = call env m (yEasingFunction (scrollListeners resultHere)) t)
      /\ base r = base resultHere
      /\ times r = times resultHere
      /\ opacityEasingCurve r = opacityEasingCurve resultHere
      /\ isAbsolute r = isAbsolute resultHere
      /\ absoluteX r = absoluteX resultHere
      /\ absoluteY r = absoluteY resultHere)
  /\ let curve := map JS.parseFloat [a; b; c; d] in
     exists r : CompiledScrollInstruction,
       directive request e false literal (resultHere, st) = Ok (r, st)
       /\ yEasingCurve r = curve
       /\ yEasingFunction (scrollListeners r)
          = EasingFunction curve (element (base resultHere))
       /\ xEasingFunction (scrollListeners r)
          = xEasingFunction (scrollListeners resultHere)
       /\ opacityEasingFunction (scrollListeners r)
          = opacityEasingFunction (scrollListeners resultHere).
Proof.
  intros Hk Hp Hreq Hsrc Hk' Hp' Hplain. split.
  - exists (set_yEasingCurve (yEasingCurve source) resultHere).
    split; [|repeat split].
    unfold directive. rewrite Hk, Hp.
    change (JS.includes directives "ease") with true. cbn [negb].
    unfold resolveReferent. cbn [nth_error equals].
    change (String.eqb "like" "like") with true. cbv iota.
    rewrite Hreq. cbn [bind property_key]. unfold property. rewrite Hsrc.
    reflexivity.
  - cbv zeta.
    exists (set_listener AxisY
              (EasingFunction (map JS.parseFloat [a; b; c; d])
                              (element (base resultHere)))
              (set_yEasingCurve (map JS.parseFloat [a; b; c; d])
                                resultHere)).
    split; [|repeat split].
    unfold directive. rewrite Hk', Hp'.
    change (JS.includes directives "ease") with true. cbn [negb].
    rewrite resolveReferent_plain by assumption. reflexivity.
Qed.

(** An instance: B copies the curve of A and keeps its default
    evaluator. *)
Lemma ease_like_keeps_the_evaluator_witness :
  let A := entry "A" "ease 0.3 0.7 0.6 1" in
  let B := entry "B" "ease like A" in
  let st := {| compilationMap := []; entriesToProcess := [A; B];
               console := [] |} in
  exists (st' : State) (r : CompiledScrollInstruction),
    requestForProcessing 1 (Some "A") st = Ok st'
    /\ directive (requestForProcessing 1) B false "ease like A"
                 (initial B, st)
       = Ok (r, st')
    /\ yEasingCurve r = [0.3; 0.7; 0.6; 1]
    /\ yEasingFunction (scrollListeners r) = EasingFunction [0; 0; 1; 1] 0%nat.
Proof.
  cbv zeta.
  destruct (ease_like_keeps_the_evaluator page
              (requestForProcessing 1) (entry "B" "ease like A")
              "ease like A" "A" [] "ease 1 2 3 4" "1" "2" "3" "4"
              (initial (entry "B" "ease like A"))
              (set_leaveAt 100
                 (set_listener AxisY
                    (EasingFunction
                       (map JS.parseFloat ["0.3"; "0.7"; "0.6"; "1"]) 0%nat)
                    (set_yEasingCurve
                       (map JS.parseFloat ["0.3"; "0.7"; "0.6"; "1"])
                       (initial (entry "A" "ease 0.3 0.7 0.6 1")))))
              {| compilationMap := [];
                 entriesToProcess :=
                   [entry "A" "ease 0.3 0.7 0.6 1"; entry "B" "ease like A"];
                 console := [] |}
              {| compilationMap :=
                   [("A",
                     set_leaveAt 100
                       (set_listener AxisY
                          (EasingFunction
                             (map JS.parseFloat ["0.3"; "0.7"; "0.6"; "1"])
                             0%nat)
                          (set_yEasingCurve
                             (map JS.parseFloat ["0.3"; "0.7"; "0.6"; "1"])
                             (initial (entry "A" "ease 0.3 0.7 0.6 1")))))];
                 entriesToProcess := [entry "B" "ease like A"];
                 console := [] |})
    as [(r & Hrun & Hcurve & Hlisteners & _) _].
  - reflexivity.
  - reflexivity.
  - vm_compute. reflexivity.
  - reflexivity.
  - reflexivity.
  - reflexivity.
  - unfold plain. cbn. intuition discriminate.
  - eexists. exists r. split; [vm_compute; reflexivity|].
    split; [exact Hrun|]. split.
    + rewrite Hcurve. vm_compute. reflexivity.
    + rewrite Hlisteners. reflexivity.
Defined.

End EasingFacts.

(** ** parseInt on a number with a fraction *)

Module ParseFacts.

Import Notions.
Local Open Scope float_scope.

Lemma digit_cases (c : ascii) :
  JS.is_digit c = true ->
  JS.is_white c = false
  /\ JS.read_sign (String c "") = (false, String c "")
  /\ Ascii.eqb "x" c = false /\ Ascii.eqb "X" c = false
  /\ exists v, JS.digit_value c = Some v /\ (v <? 10)%Z = true.
Proof.
  destruct c as [[] [] [] [] [] [] [] []]; cbn; try discriminate;
    intros _; repeat split; eexists; split; reflexivity.
Qed.

Lemma read_sign_digit (c : ascii) (s : string) :
  JS.is_digit c = true -> JS.read_sign (String c s) = (false, String c s).
Proof.
  destruct c as [[] [] [] [] [] [] [] []]; cbn; try discriminate; reflexivity.
Qed.

(** Reading digits stops at the point. *)
Lemma read_digits_point (digits rest : string) (acc : Z) (n : nat) :
  all_digits digits = true ->
  exists v k,
    JS.read_digits 10 digits acc n = (v, k, "")
    /\ JS.read_digits 10 (digits ++ String "." rest) acc n
       = (v, k, String "." rest)
    /\ (n <= k)%nat.
Proof.
  revert acc n. induction digits as [|c digits IH]; intros acc n H.
  - exists acc, n. repeat split; reflexivity || lia.
  - cbn in H. apply andb_prop in H as [Hc Hd].
    destruct (digit_cases c Hc) as (_ & _ & _ & _ & v & Hv & Hlt).
    cbn [JS.read_digits append]. rewrite Hv, Hlt.
    destruct (IH (acc * 10 + v)%Z (S n) Hd) as (w & k & E1 & E2 & L).
    exists w, k. repeat split; trivial. lia.
Qed.

Lemma startsWith_0x_digits (digits rest : string) (x : string) :
  all_digits digits = true -> x = "0x" \/ x = "0X" ->
  JS.startsWith (digits ++ String "." rest) x = false
  /\ JS.startsWith digits x = false.
Proof.
  intros H X.
  destruct digits as [|c1 [|c2 digits]].
  - destruct X; subst; split; reflexivity.
  - destruct X; subst; cbn [JS.startsWith append];
      destruct (Ascii.eqb _ c1); split; reflexivity.
  - cbn in H. apply andb_prop in H as [_ H]. apply andb_prop in H as [H2 _].
    destruct (digit_cases c2 H2) as (_ & _ & Hx & HX & _).
    destruct X; subst; cbn [JS.startsWith append]; rewrite ?Hx, ?HX;
      destruct (Ascii.eqb _ c1); split; reflexivity.
Qed.

(** What [parseInt] reads in a decimal number with a fraction is what it
    reads in the digits before the point. *)
Lemma parseInt_drops_the_fraction (digits fraction : string) :
  all_digits digits = true ->
  JS.parseInt_string (digits ++ String "." fraction)
  = JS.parseInt_string digits.
Proof.
  intros H. destruct digits as [|c digits].
  - reflexivity.
  - pose proof H as H'. cbn in H'. apply andb_prop in H' as [Hc Hd].
    destruct (digit_cases c Hc) as (Hw & _).
    unfold JS.parseInt_string. cbn [append JS.trimStart]. rewrite Hw.
    rewrite !read_sign_digit by assumption.
    change (String c (digits ++ String "." fraction))
      with (String c digits ++ String "." fraction)%string.
    destruct (startsWith_0x_digits (String c digits) fraction "0x" H
                (or_introl eq_refl)) as [-> ->].
    destruct (startsWith_0x_digits (String c digits) fraction "0X" H
                (or_intror eq_refl)) as [-> ->].
    cbn [orb].
    destruct (read_digits_point (String c digits) fraction 0 0 H)
      as (v & k & -> & -> & _).
    reflexivity.
Qed.

End ParseFacts.

(** ** opacity-ease *)

Module OpacityFacts.

Import Scrollomat Examples Notions.
Local Open Scope float_scope.
#[local] Set Warnings "-inexact-float".



End OpacityFacts.

(** ** Arrays: indices, slices and splices *)

Module ArrayFacts.

Lemma findIndex_from_bounds {A : Type} (p : A -> bool) (xs : list A) (k : Z) :
  (0 <= k)%Z ->
  JS.findIndex_from p xs k = (-1)%Z
  \/ (k <= JS.findIndex_from p xs k < k + Z.of_nat (List.length xs))%Z.
Proof.
  revert k. induction xs as [|x xs IH]; intros k Hk; cbn [JS.findIndex_from].
  - left. reflexivity.
  - destruct (p x).
    + right. cbn [List.length]. lia.
    + destruct (IH (k + 1)%Z ltac:(lia)) as [->|H]; [left; reflexivity|].
      right. cbn [List.length]. lia.
Qed.

Lemma indexOf_bounds (xs : list string) (x : string) :
  JS.indexOf xs x = (-1)%Z
  \/ (0 <= JS.indexOf xs x < Z.of_nat (List.length xs))%Z.
Proof.
  unfold JS.indexOf, JS.findIndex.
  destruct (findIndex_from_bounds (String.eqb x) xs 0 ltac:(lia)); auto.
Qed.

Lemma indexOf_head (x y : string) (xs : list string) :
  (0 < JS.indexOf (y :: xs) x)%Z -> String.eqb x y = false.
Proof.
  unfold JS.indexOf, JS.findIndex. cbn [JS.findIndex_from].
  destruct (String.eqb x y); [lia | reflexivity].
Qed.

Lemma In_firstn {A : Type} (n : nat) (xs : list A) (x : A) :
  In x (firstn n xs) -> In x xs.
Proof.
  intros H. rewrite <- (firstn_skipn n xs). apply in_or_app. now left.
Qed.

Lemma In_skipn {A : Type} (n : nat) (xs : list A) (x : A) :
  In x (skipn n xs) -> In x xs.
Proof.
  intros H. rewrite <- (firstn_skipn n xs). apply in_or_app. now right.
Qed.

Lemma slice_In {A : Type} (xs : list A) (a b : Z) (x : A) :
  In x (JS.slice xs a b) -> In x xs.
Proof. unfold JS.slice. intros H. eapply In_skipn, In_firstn, H. Qed.

Lemma length_slice_le {A : Type} (xs : list A) (b : Z) :
  (0 <= b)%Z -> (Z.of_nat (List.length (JS.slice xs 0 b)) <= b)%Z.
Proof.
  intros Hb. unfold JS.slice, JS.relative_index.
  change ((0 <? 0)%Z) with false. cbv iota.
  destruct (Z.ltb_spec b 0); [lia|].
  rewrite length_firstn. lia.
Qed.

Lemma slice_all {A : Type} (xs : list A) :
  JS.slice xs 0 (Z.of_nat (List.length xs)) = xs.
Proof.
  unfold JS.slice, JS.relative_index.
  change ((0 <? 0)%Z) with false. cbv iota.
  destruct (Z.ltb_spec (Z.of_nat (List.length xs)) 0); [lia|].
  rewrite Nat2Z.id, Nat.min_id. cbn [Z.to_nat Nat.min skipn].
  rewrite Nat.sub_0_r. apply firstn_all.
Qed.

(** The elements of an array after [splice(k, 2, v)]. *)
Lemma nth_error_splice {A : Type} (xs : list A) (k : nat) (v : A) (j : nat) :
  k <= List.length xs ->
  nth_error (firstn k xs ++ [v] ++ skipn (k + 2) xs) j
  = if j <? k then nth_error xs j
    else if j =? k then Some v else nth_error xs (j + 1).
Proof.
  intros Hk. rewrite nth_error_app, length_firstn, Nat.min_l by exact Hk.
  destruct (Nat.ltb_spec j k).
  - rewrite nth_error_firstn.
    destruct (Nat.ltb_spec j k); [reflexivity | lia].
  - destruct (Nat.eqb_spec j k).
    + subst. rewrite Nat.sub_diag. reflexivity.
    + destruct (j - k) as [|d] eqn:E; [lia|]. cbn [app nth_error].
      rewrite nth_error_skipn. f_equal. lia.
Qed.

(** The id the easing part of a list can ask for is a token of the
    directive (or none), also after a value was substituted for a
    [like] among the listed values. *)
Lemma easing_reference (dp xs : list string) (v : string) :
  let p := JS.indexOf dp "|" in
  let prePipe :=
    JS.slice dp 0 (if (-1 <? p)%Z then p else Z.of_nat (List.length dp)) in
  let k := JS.indexOf prePipe "like" in
  xs = dp \/ ((-1 < k)%Z /\ xs = JS.splice dp k 2 [v]) ->
  let easingData := JS.slice xs (p + 1) (-1) in
  Scrollomat.equals (nth_error easingData 0) "like" = true ->
  In (nth_error easingData 1) (None :: map Some dp).
Proof.
  intros p prePipe k Hxs easingData Hlike.
  destruct (nth_error easingData 1) as [t|] eqn:E1; [|left; reflexivity].
  right. apply in_map.
  destruct Hxs as [->|[Hk ->]].
  { eapply slice_In, nth_error_In, E1. }
  destruct (nth_error easingData 0) as [t0|] eqn:E0; [|discriminate].
  cbn [Scrollomat.equals] in Hlike. apply String.eqb_eq in Hlike. subst t0.
  subst easingData. unfold JS.slice in E0, E1.
  rewrite nth_error_firstn, nth_error_skipn in E0, E1.
  match type of E1 with
  | (if ?c then _ else _) = _ => destruct c eqn:L1; [|discriminate]
  end.
  match type of E0 with
  | (if ?c then _ else _) = _ => destruct c eqn:L0; [|discriminate]
  end.
  apply Nat.ltb_lt in L1, L0.
  unfold JS.splice in E0, E1, L1.
  set (k' := JS.relative_index (List.length dp) k) in *.
  assert (Hk' : k' = Nat.min (Z.to_nat k) (List.length dp)).
  { subst k'. unfold JS.relative_index.
    destruct (Z.ltb_spec k 0); [lia | reflexivity]. }
  assert (Hle : k' <= List.length dp) by lia.
  set (ys := firstn k' dp ++ [v] ++ skipn (k' + 2) dp) in *.
  set (s := JS.relative_index (List.length ys) (p + 1)) in *.
  rewrite Nat.add_0_r in E0.
  unfold ys in E0, E1. rewrite nth_error_splice in E0, E1 by exact Hle.
  destruct (indexOf_bounds dp "|") as [Hp|Hp]; fold p in Hp.
  - (* no pipe: the slice starts at 0 *)
    assert (Hs : s = 0%nat).
    { subst s. unfold JS.relative_index. rewrite Hp. reflexivity. }
    rewrite Hs in *. cbn [Nat.add] in E1.
    assert (HprePipe : prePipe = dp).
    { subst prePipe. rewrite Hp. apply slice_all. }
    destruct dp as [|a dp'].
    { subst prePipe. subst k. cbn in Hk. lia. }
    destruct k' as [|k''] eqn:Ek.
    + change (nth_error (a :: dp') 2 = Some t) in E1.
      eapply nth_error_In. exact E1.
    + exfalso. cbn in E0. injection E0 as ->.
      assert (Hpos : (0 < k)%Z) by lia.
      unfold k in Hpos. rewrite HprePipe in Hpos.
      apply indexOf_head in Hpos. cbn in Hpos. discriminate.
  - (* a pipe at p: the slice starts behind the substituted value *)
    assert (Hkp : (k < p)%Z).
    { assert (Hpre : prePipe = JS.slice dp 0 p).
      { unfold prePipe.
        destruct (Z.ltb_spec (-1) p); [reflexivity | exfalso; lia]. }
      pose proof (indexOf_bounds prePipe "like") as Hb. fold k in Hb.
      rewrite Hpre in Hb.
      pose proof (length_slice_le dp p ltac:(lia)) as Hlen.
      destruct Hb as [Hb|Hb]; [rewrite Hb in Hk; discriminate Hk|].
      eapply Z.lt_le_trans; [apply Hb | exact Hlen]. }
    assert (Hf : JS.relative_index (List.length ys) (-1) <= List.length ys).
    { unfold JS.relative_index. change ((-1 <? 0)%Z) with true.
      cbv iota. lia. }
    assert (Hs : s = Z.to_nat (p + 1)).
    { assert (Hmin : s = Nat.min (Z.to_nat (p + 1)) (List.length ys)).
      { subst s. unfold JS.relative_index.
        destruct (Z.ltb_spec (p + 1) 0); [lia | reflexivity]. }
      lia. }
    assert (Hgt : k' + 2 <= s) by lia.
    destruct (Nat.ltb_spec (s + 1) k'); [lia|].
    destruct (Nat.eqb_spec (s + 1) k'); [lia|].
    eapply nth_error_In. exact E1.
Qed.

End ArrayFacts.

(** ** What every call of requestForProcessing preserves *)

Module Hoare.

Import Scrollomat Notions.
Local Open Scope float_scope.

Lemma sat_bind {A B : Type} (Q' : A -> Prop) (Q : B -> Prop) (D : Prop)
      (m : outcome A) (k : A -> outcome B) :
  sat Q' D m -> (forall a, Q' a -> sat Q D (k a)) -> sat Q D (bind m k).
Proof. destruct m; cbn; auto. Qed.

Lemma sat_weaken {A : Type} (Q' Q : A -> Prop) (D : Prop) (m : outcome A) :
  sat Q' D m -> (forall a, Q' a -> Q a) -> sat Q D m.
Proof. destruct m; cbn; auto. Qed.

Lemma forEach_sat {A S : Type} (Q : S -> Prop) (D : Prop)
      (f : A -> S -> outcome S) (xs : list A) :
  (forall x s, In x xs -> Q s -> sat Q D (f x s)) ->
  forall s, Q s -> sat Q D (forEach f xs s).
Proof.
  induction xs as [|x xs IH]; intros Hf s Hs; cbn [forEach].
  - exact Hs.
  - eapply sat_bind.
    + apply Hf; [left; reflexivity | exact Hs].
    + intros s' Hs'. apply IH; trivial. intros y t Hy. apply Hf. now right.
Qed.

Section Generic.

Variable P : State -> Prop.
Variable D : Prop.
Variable request : option string -> State -> outcome State.
Variable e : ScrollInstruction.
Variable absoluteMode : bool.

Hypothesis request_ok : forall id st, P st -> sat P D (request id st).
Hypothesis P_console :
  forall message st, P st -> P (console_error message st).
Hypothesis P_write :
  forall st key r axis xs,
    P st -> lookup (compilationMap st) key = Some r ->
    P (set_compilationMap
         (assign (compilationMap st) key
            (set_absolute axis (set_value (Some xs) (absolute axis r)) r))
         st).


Lemma compiled_sat (st : State) (id : option string)
      (Q : CompiledScrollInstruction -> Prop) :
  (forall r, lookup (compilationMap st) (property_key id) = Some r -> Q r) ->
  sat Q D (compiled st id).
Proof.
  intros H. unfold compiled, property.
  destruct (lookup _ _); [cbn; auto|].
  destruct (inherited _); cbn; auto.
Qed.

Lemma checkAllowReferent_sat (keyword : string) (dataParameter : list string)
      (st : State) :
  P st ->
  sat (fun r => P (snd r)) D
      (checkAllowReferent request e keyword dataParameter st).
Proof.
  intros Hst. unfold checkAllowReferent.
  destruct (JS.includes _ keyword); cbn [negb].
  - eapply sat_bind; [apply request_ok; auto|]. intros st' H'. exact H'.
  - cbn. apply P_console, Hst.
Qed.

Lemma resolveReferent_sat (keyword : string) (dataParameter : list string)
      (st : State) :
  P st ->
  sat (fun r => P (snd r)
                /\ (equals (nth_error dataParameter 0) "like" = false ->
                    fst (fst r) = None))
      D (resolveReferent request e keyword dataParameter st).
Proof.
  intros Hst. unfold resolveReferent.
  set (first := nth_error dataParameter 0) in *.
  set (id := nth_error dataParameter 1) in *.
  eapply sat_bind with
    (Q' := fun r => P (snd r) /\ (equals first "like" = false -> fst r = None)).
  { destruct (equals first "like").
    - eapply sat_bind; [apply request_ok; auto|].
      intros st' H'. destruct (property _ _); cbn; trivial;
        (split; [exact H'|discriminate]).
    - cbn. auto. }
  intros [src st1] [H1 Hsrc]. cbn [fst snd] in *.
  assert (Hr : forall v : CompiledScrollInstruction -> float,
             sat (fun r => P (snd r)
                           /\ (equals first "like" = false ->
                               fst (fst r) = None)) D
                 ('(allowed, st') <-
                    checkAllowReferent request e keyword dataParameter st1 ;;
                  if allowed : bool
                  then r <- compiled st' id ;; Ok (src, Some (v r), st')
                  else Ok (src, None, st'))).
  { intros v. eapply sat_bind; [apply checkAllowReferent_sat; auto|].
    intros [allowed st2] H2. cbn [snd] in H2. destruct allowed.
    - eapply sat_bind; [apply compiled_sat with (Q := fun _ => True); auto|].
      intros r _. cbn. auto.
    - cbn. auto. }
  destruct (equals first "with-entry"); [apply Hr|].
  destruct (equals first "with-exit"); [apply Hr|].
  destruct (equals first "after-entry"); [apply Hr|].
  destruct (equals first "after-exit"); [apply Hr|].
  cbn. auto.
Qed.

Lemma directive_enter_PL dataParameter source v (l : Locals) :
  PL P l -> PL P (directive_enter e dataParameter source v l).
Proof.
  destruct l as [r st]. unfold PL, directive_enter. cbn [snd]. intros H.
  destruct source, v; cbn [snd]; trivial;
    destruct (_ <? _)%nat; cbn [snd]; auto.
Qed.

Lemma directive_leave_PL dataParameter source v (l : Locals) :
  PL P l -> PL P (directive_leave e dataParameter source v l).
Proof.
  destruct l as [r st]. unfold PL, directive_leave. cbn [snd]. intros H.
  destruct source, v; cbn [snd]; trivial;
    destruct (_ <? _)%nat; cbn [snd]; auto.
Qed.

Lemma directive_ease_PL dataParameter source (l : Locals) :
  PL P l -> PL P (directive_ease e absoluteMode dataParameter source l).
Proof.
  destruct l as [r st]. unfold PL, directive_ease. cbn [snd]. intros H.
  destruct absoluteMode; cbn [snd]; auto.
  destruct source; cbn [snd]; trivial.
  destruct (negb _); cbn [snd]; auto.
Qed.

Lemma directive_opacity_ease_PL dataParameter source (l : Locals) :
  PL P l -> PL P (directive_opacity_ease e absoluteMode dataParameter source l).
Proof.
  destruct l as [r st]. unfold PL, directive_opacity_ease. cbn [snd].
  intros H. destruct source; cbn [snd]; trivial.
  destruct (_ && _); cbn [snd]; auto.
  destruct (_ =? _)%nat; cbn [snd]; auto.
Qed.

Lemma directive_duration_PL dataParameter source (l : Locals) :
  PL P l -> PL P (directive_duration e dataParameter source l).
Proof.
  destruct l as [r st]. unfold PL, directive_duration. cbn [snd]. intros H.
  destruct source; cbn [snd]; trivial.
  destruct (_ <? _)%nat; cbn [snd]; auto.
Qed.



Lemma read_array_own (axis : Axis) (l : Locals) (xs : list string) :
  read_array axis OwnArray l = Ok xs <-> own axis l = Some xs.
Proof.
  unfold read_array, own. destruct (value _); split; congruence.
Qed.

Lemma read_array_sat (axis : Axis) (ref : ArrayRef) (l : Locals)
      (Q : list string -> Prop) :
  (forall xs, read_array axis ref l = Ok xs -> Q xs) ->
  sat Q D (read_array axis ref l).
Proof.
  intros H. destruct (read_array axis ref l) eqn:E; cbn; auto.
  unfold read_array in E. destruct ref.
  - destruct (value _); discriminate.
  - destruct (lookup _ _) as [r|]; [destruct (value _)|]; discriminate.
Qed.

Lemma write_array_PL (axis : Axis) (ref : ArrayRef) (xs : list string)
      (l : Locals) :
  PL P l -> PL P (write_array axis ref xs l).
Proof.
  destruct l as [r st]. unfold PL, write_array. cbn [snd]. intros H.
  destruct ref as [|key]; cbn [snd]; trivial.
  destruct (lookup _ key) eqn:E; cbn [snd]; trivial.
  apply P_write; assumption.
Qed.

Lemma write_array_own (axis : Axis) (xs : list string) (l : Locals) :
  own axis (write_array axis OwnArray xs l) = Some xs.
Proof. destruct l as [r st], axis; reflexivity. Qed.

Lemma substituteLike_sat (axis : Axis) (ref : ArrayRef)
      (prePipe : list string) (l : Locals) :
  PL P l -> sat (PL P) D (substituteLike request axis ref prePipe l).
Proof.
  intros Hl. unfold substituteLike.
  destruct (_ <? _)%Z; [|exact Hl].
  eapply sat_bind; [apply request_ok; exact Hl|].
  intros st' H'.
  eapply sat_bind; [apply compiled_sat with (Q := fun _ => True); auto|].
  intros r _.
  destruct (value (absolute axis r)) as [[|v [|? ?]]|]; try exact H'.
  eapply sat_bind.
  { apply read_array_sat with (Q := fun _ => True). auto. }
  intros dp _. cbn [sat]. apply write_array_PL. exact H'.
Qed.

Lemma absolute_uniform_sat (axis : Axis) (ref : ArrayRef)
      (dataParameter : list string) (l : Locals) :
  PL P l ->
  sat (PL P) D (absolute_uniform request e axis ref dataParameter l).
Proof.
  intros Hl. unfold absolute_uniform.
  eapply sat_bind; [apply substituteLike_sat; exact Hl|].
  intros l' Hl'.
  eapply sat_bind.
  { apply read_array_sat with (Q := fun _ => True). auto. }
  intros xs _. destruct l' as [r st].
  unfold PL in Hl'. cbn [snd] in Hl'.
  destruct (JS.includes xs "|"); [|exact Hl'].
  destruct (negb _); [apply P_console, Hl'|].
  destruct (equals _ "like").
  - eapply sat_bind; [apply request_ok; exact Hl'|].
    intros st' H'.
    eapply sat_bind; [apply compiled_sat with (Q := fun _ => True); auto|].
    intros r' _. exact H'.
  - destruct (_ =? _)%nat; [exact Hl'|apply P_console, Hl'].
Qed.

Lemma clausePosition_sat (axis : Axis) (segment : Regex.captures) (g : nat)
      (current : float) (st : State) :
  P st ->
  sat (fun r => P (snd r)) D
      (clausePosition request e axis segment g current st).
Proof.
  intros Hst. unfold clausePosition.
  destruct (truthy (Regex.group segment (g + 1))); [|exact Hst].
  eapply sat_bind; [apply request_ok; exact Hst|].
  intros st' H'.
  eapply sat_bind; [apply compiled_sat with (Q := fun _ => True); auto|].
  intros r _. destruct (destination _); [exact H'|apply P_console, H'].
Qed.

Lemma clause_sat (axis : Axis) (resultHere : CompiledScrollInstruction)
      (segment : Regex.captures) (c : Clauses) :
  P (shared c) ->
  sat (fun c' => P (shared c')) D
      (clause request e axis resultHere segment c).
Proof.
  intros Hc. unfold clause.
  eapply sat_bind with (Q' := fun r => P (snd r)).
  { destruct (truthy (Regex.group segment 2)).
    - destruct (equals _ "+"); [exact Hc|].
      destruct (truthy _); [apply P_console, Hc|exact Hc].
    - destruct (_ && _).
      + eapply sat_bind; [apply request_ok; exact Hc|].
        intros st' H'.
        eapply sat_bind;
          [apply compiled_sat with (Q := fun _ => True); auto|].
        intros r _. exact H'.
      + apply P_console, Hc. }
  intros [[time|] st] Hst; cbn [snd] in Hst; [|exact Hst].
  eapply sat_bind; [apply (clausePosition_sat axis segment 5); exact Hst|].
  intros [startPosHere st1] H1. cbn [snd] in H1.
  eapply sat_bind; [apply (clausePosition_sat axis segment 8); exact H1|].
  intros [endPosHere st2] H2. cbn [snd] in H2.
  eapply sat_bind with (Q' := fun r => P (snd r)).
  { destruct (truthy (Regex.group segment 11)); [exact H2|].
    destruct (truthy (Regex.group segment 12)); [|exact H2].
    eapply sat_bind; [apply request_ok; exact H2|].
    intros st' H'.
    eapply sat_bind; [apply compiled_sat with (Q := fun _ => True); auto|].
    intros r _. exact H'. }
  intros [easeHere st3] H3. exact H3.
Qed.

Lemma absolute_custom_sat (axis : Axis) (dataParameter : list string)
      (l : Locals) :
  PL P l ->
  sat (PL P) D (absolute_custom request e axis dataParameter l).
Proof.
  intros Hl. destruct l as [r st]. unfold PL in Hl. cbn [snd] in Hl.
  unfold absolute_custom.
  destruct (negb (equals _ ".")); [apply P_console, Hl|].
  destruct (negb (_ =? 0)%nat); [apply P_console, Hl|].
  eapply sat_bind.
  { apply forEach_sat with (Q := fun c => P (shared c)); [|exact Hl].
    intros segment c Hin Hc. apply clause_sat. exact Hc. }
  intros c Hc. exact Hc.
Qed.


Lemma directive_absolute_sat (axis : Axis) (instruction : string)
      (dataParameter : list string)
      (source : option CompiledScrollInstruction) (l : Locals) :
  PL P l ->
  sat (PL P) D
      (directive_absolute request e absoluteMode axis instruction
                          dataParameter source l).
Proof.
  intros Hl. destruct l as [r st]. unfold PL in Hl. cbn [snd] in Hl.
  unfold directive_absolute.
  set (st1 := if absoluteMode then st else console_error _ st).
  assert (H1 : P st1).
  { subst st1. destruct absoluteMode; [exact Hl|apply P_console, Hl]. }
  clearbody st1.
  eapply sat_bind.
  { apply read_array_sat with (Q := fun _ => True). auto. }
  intros xs _.
  destruct (List.length xs =? 1)%nat; [exact H1|].
  destruct (negb _).
  - apply absolute_uniform_sat. exact H1.
  - apply absolute_custom_sat. exact H1.
Qed.

Lemma keyword_cases (keyword : string) :
  JS.includes directives keyword = true ->
  In keyword directives.
Proof.
  unfold JS.includes. intros H. apply existsb_exists in H as (x & Hin & Hx).
  apply String.eqb_eq in Hx. subst. exact Hin.
Qed.

(** One directive of an entry preserves the invariant, when the calls
    it makes do. *)
Lemma directive_sat (instruction : string) (l : Locals) :
  PL P l ->
  sat (PL P) D (directive request e absoluteMode instruction l).
Proof.
  intros Hl. destruct l as [r st]. unfold PL in Hl. cbn [snd] in Hl.
  unfold directive.
  remember (hd "" (JS.split instruction " ")) as keyword eqn:Ek.
  destruct (JS.includes directives keyword) eqn:Hk; cbn [negb] in *;
    [|apply P_console, Hl].
  apply keyword_cases in Hk.
  eapply sat_bind; [apply resolveReferent_sat; exact Hl|].
  intros [[source v] st1] [H1 _]. cbn [fst snd] in H1.
  cbn [In directives] in Hk.
  destruct Hk as [K|[K|[K|[K|[K|[K|[K|[]]]]]]]]; rewrite <- K in *;
    cbn [String.eqb Ascii.eqb Bool.eqb orb] in *.
  - apply (directive_enter_PL _ _ _ (r, st1)), H1.
  - apply (directive_ease_PL _ _ (r, st1)), H1.
  - apply (directive_duration_PL _ _ (r, st1)), H1.
  - apply (directive_leave_PL _ _ _ (r, st1)), H1.
  - apply (directive_opacity_ease_PL _ _ (r, st1)), H1.
  - apply directive_absolute_sat. exact H1.
  - apply directive_absolute_sat. exact H1.
Qed.

End Generic.

End Hoare.

(** ** requestForProcessing as a whole *)

Module RequestFacts.

Import Scrollomat Notions Hoare.
Local Open Scope float_scope.

Lemma find_entry_spec (id : option string) (entries : list ScrollInstruction)
      (ent : ScrollInstruction) :
  find_entry id entries = Some ent ->
  In ent entries /\ id = Some (name ent).
Proof.
  destruct id as [s|]; cbn [find_entry]; [|discriminate].
  intros H. apply find_some in H as [Hin Hn].
  apply String.eqb_eq in Hn. subst. auto.
Qed.

Section Calls.

Variable P : State -> Prop.

Hypothesis P_console :
  forall message st, P st -> P (console_error message st).
Hypothesis P_write :
  forall st key r axis xs,
    P st -> lookup (compilationMap st) key = Some r ->
    P (set_compilationMap
         (assign (compilationMap st) key
            (set_absolute axis (set_value (Some xs) (absolute axis r)) r))
         st).
Hypothesis P_finish :
  forall st ent r, P st -> P (finish ent r st).

(** A call that returns keeps the invariant, and a call for an id that
    was not a property of the map has ended with [finish]. *)
Theorem requestForProcessing_sat (fuel : nat) :
  forall (id : option string) (st : State),
    P st -> sat (after_call P id st) True (requestForProcessing fuel id st).
Proof.
  induction fuel as [|fuel IH]; intros id st Hst.
  - exact I.
  - cbn [requestForProcessing].
    destruct (property (compilationMap st) (property_key id)) eqn:Elook;
      try (cbn [sat]; split; [exact Hst|intros E; congruence]).
    destruct (find_entry id (entriesToProcess st)) as [ent|] eqn:Efind;
      [|exact I].
    destruct (instructionLines (instruction ent)) as [isAbs lines].
    eapply sat_bind.
    { apply forEach_sat with (Q := Notions.PL P); [|exact Hst].
      intros line l Hline Hl.
      apply (directive_sat P True); trivial.
      intros id' st' H'.
      eapply sat_weaken; [apply IH; assumption|].
      intros st1 [H1 _]. exact H1. }
    intros [r st'] H'. unfold PL in H'. cbn [snd] in H'. cbn [sat].
    split; [apply P_finish, H'|]. intros _.
    exists ent, r, st'. auto.
Qed.

End Calls.

End RequestFacts.

(** ** The invariant of compiled records *)

Module InvariantFacts.

Import Scrollomat Notions Hoare RequestFacts.
Local Open Scope float_scope.

Lemma lookup_In (m : CompilationMap) (key : string)
      (r : CompiledScrollInstruction) :
  lookup m key = Some r -> In (key, r) m.
Proof.
  induction m as [|[k0 r0] m IH]; cbn [lookup]; [discriminate|].
  destruct (String.eqb_spec k0 key) as [->|_].
  - intros E. injection E as <-. left. reflexivity.
  - intros E. right. apply IH, E.
Qed.

Lemma In_assign (m : CompilationMap) (key k : string)
      (r r' : CompiledScrollInstruction) :
  In (k, r') (assign m key r) -> (k, r') = (key, r) \/ In (k, r') m.
Proof.
  induction m as [|[k0 r0] m IH]; cbn [assign].
  - intros [E|[]]. left. congruence.
  - destruct (String.eqb_spec k0 key) as [->|_]; cbn [In].
    + intros [E|H]; [left; congruence|right; right; exact H].
    + intros [E|H]; [right; left; exact E|].
      destruct (IH H); [left|right; right]; assumption.
Qed.

Lemma lookup_assign (m : CompilationMap) (key k : string)
      (r : CompiledScrollInstruction) :
  lookup (assign m key r) k
  = if String.eqb key k then Some r else lookup m k.
Proof.
  induction m as [|[k0 r0] m IH]; cbn [assign lookup].
  - reflexivity.
  - destruct (String.eqb_spec k0 key) as [->|Hne]; cbn [lookup].
    + destruct (String.eqb key k); reflexivity.
    + rewrite IH. destruct (String.eqb_spec k0 k) as [->|Hne'].
      * destruct (String.eqb_spec key k); [congruence|reflexivity].
      * reflexivity.
Qed.

Lemma map_invariant_console message st :
  map_invariant st -> map_invariant (console_error message st).
Proof. intros H. exact H. Qed.

Lemma map_invariant_write st key r axis xs :
  map_invariant st -> lookup (compilationMap st) key = Some r ->
  map_invariant
    (set_compilationMap
       (assign (compilationMap st) key
          (set_absolute axis (set_value (Some xs) (absolute axis r)) r))
       st).
Proof.
  intros H Hr k r' Hin. cbn [compilationMap set_compilationMap] in Hin.
  apply In_assign in Hin as [E|Hin]; [|apply (H k r' Hin)].
  injection E as _ ->. apply (H key r), lookup_In, Hr.
Qed.

Lemma map_invariant_finish st ent r :
  map_invariant st -> map_invariant (finish ent r st).
Proof.
  intros H k r' Hin. unfold finish in Hin.
  cbn [compilationMap set_compilationMap set_entriesToProcess] in Hin.
  apply In_assign in Hin as [E|Hin]; [|apply (H k r' Hin)].
  injection E as _ ->. reflexivity.
Qed.

(** A call keeps an invariant that messages, splices and [finish] keep. *)
Lemma call_keeps (P : State -> Prop) :
  (forall message st, P st -> P (console_error message st)) ->
  (forall st key r axis xs,
      P st -> lookup (compilationMap st) key = Some r ->
      P (set_compilationMap
           (assign (compilationMap st) key
              (set_absolute axis (set_value (Some xs) (absolute axis r)) r))
           st)) ->
  (forall st ent r, P st -> P (finish ent r st)) ->
  forall fuel id st st',
    P st -> requestForProcessing fuel id st = Ok st' -> P st'.
Proof.
  intros Hc Hw Hf fuel id st st' Hst E.
  pose proof (requestForProcessing_sat P Hc Hw Hf fuel id st Hst) as H.
  rewrite E in H. apply H.
Qed.

(** A directive keeps such an invariant too. *)
Lemma directive_keeps (P : State -> Prop) :
  (forall message st, P st -> P (console_error message st)) ->
  (forall st key r axis xs,
      P st -> lookup (compilationMap st) key = Some r ->
      P (set_compilationMap
           (assign (compilationMap st) key
              (set_absolute axis (set_value (Some xs) (absolute axis r)) r))
           st)) ->
  (forall st ent r, P st -> P (finish ent r st)) ->
  forall fuel ent isAbs line r st r' st',
    P st ->
    directive (requestForProcessing fuel) ent isAbs line (r, st)
    = Ok (r', st') ->
    P st'.
Proof.
  intros Hc Hw Hf fuel ent isAbs line r st r' st' Hst E.
  pose proof (directive_sat P True (requestForProcessing fuel) ent isAbs) as H.
  specialize (H (fun id s Hs =>
                   sat_weaken _ P True _
                     (requestForProcessing_sat P Hc Hw Hf fuel id s Hs)
                     (fun s1 H1 => proj1 H1))
                Hc Hw line (r, st) Hst).
  rewrite E in H. exact H.
Qed.

Lemma reachable_invariant (entries : list ScrollInstruction) (st : State) :
  reachable entries st -> map_invariant st.
Proof.
  induction 1 as [|fuel id st st' _ IH E
                  |fuel ent isAbs line r r' st st' _ IH E
                  |message st _ IH
                  |key r axis xs st _ IH Hr].
  - intros key r [].
  - eapply (call_keeps map_invariant); eauto using map_invariant_console,
      map_invariant_write, map_invariant_finish.
  - eapply (directive_keeps map_invariant); eauto using map_invariant_console,
      map_invariant_write, map_invariant_finish.
  - exact IH.
  - apply map_invariant_write; assumption.
Qed.

Lemma drain_reachable (entries : list ScrollInstruction) (fuel : nat) :
  forall (rounds : nat) (st st' : State),
    reachable entries st -> drain fuel rounds st = Ok st' ->
    reachable entries st' /\ entriesToProcess st' = [].
Proof.
  induction rounds as [|rounds IH]; intros st st' Hst E;
    cbn [drain] in E; destruct (entriesToProcess st) as [|first rest] eqn:El.
  - injection E as <-. auto.
  - discriminate.
  - injection E as <-. auto.
  - destruct (requestForProcessing fuel (Some (name first)) st) as [st1| | |]
      eqn:E1; try discriminate.
    cbn [bind] in E. eapply IH; [|exact E].
    eapply reach_call; eassumption.
Qed.

Lemma compile_reachable (entries : list ScrollInstruction) (fuel : nat)
      (rep : CompilationReport) (st : State) :
  compileScrollData fuel entries = Ok (rep, st) ->
  reachable entries st /\ entriesToProcess st = [] /\ rep = report st.
Proof.
  unfold compileScrollData.
  destruct (drain fuel fuel _) as [st'| | |] eqn:E; try discriminate.
  cbn [bind]. intros H. injection H as <- <-.
  destruct (drain_reachable entries fuel fuel _ _ (reach_start entries) E).
  auto.
Qed.

Lemma sort_insert_In {A : Type} (lt : A -> A -> bool) (x y : A)
      (sorted : list A) :
  In y (JS.sort_insert lt x sorted) <-> y = x \/ In y sorted.
Proof.
  induction sorted as [|z sorted IH]; cbn [JS.sort_insert In].
  - intuition congruence.
  - destruct (lt x z); cbn [In]; [intuition congruence|].
    rewrite IH. intuition congruence.
Qed.

Lemma sort_In {A : Type} (lt : A -> A -> bool) (xs : list A) (y : A) :
  In y (JS.sort lt xs) <-> In y xs.
Proof.
  unfold JS.sort.
  assert (H : forall acc, In y (fold_left (fun acc x =>
                                             JS.sort_insert lt x acc) xs acc)
                          <-> In y acc \/ In y xs).
  { induction xs as [|x xs IH]; intros acc; cbn [fold_left In].
    - tauto.
    - rewrite IH, sort_insert_In. intuition congruence. }
  rewrite H. cbn [In]. tauto.
Qed.

(** The records [Object.values] lists are those of the map. *)
Lemma Object_values_In (m : CompilationMap) (r : CompiledScrollInstruction) :
  In r (Object_values m) <-> exists key, In (key, r) m.
Proof.
  unfold Object_values. rewrite in_app_iff, !in_map_iff. split.
  - intros [([i r'] & E & H)|([k r'] & E & H)]; cbn [snd] in E; subst r'.
    + apply sort_In, in_flat_map in H as ([k r'] & Hin & H').
      cbn [fst snd] in H'. destruct (array_index k); [|destruct H'].
      destruct H' as [E|[]]. injection E as _ <-. exists k. exact Hin.
    + apply filter_In in H as [Hin _]. exists k. exact Hin.
  - intros [k Hin]. destruct (array_index k) as [i|] eqn:E.
    + left. exists (i, r). split; [reflexivity|].
      apply sort_In, in_flat_map. exists (k, r). split; [exact Hin|].
      cbn [fst snd]. rewrite E. left. reflexivity.
    + right. exists (k, r). split; [reflexivity|].
      apply filter_In. split; [exact Hin|]. cbn [fst]. rewrite E.
      reflexivity.
Qed.

(** A field of [compilationMap[id]] is read from a record exactly when
    the map has the record as its own property. *)
Lemma compiled_Ok (st : State) (id : option string)
      (r : CompiledScrollInstruction) :
  compiled st id = Ok r
  <-> lookup (compilationMap st) (property_key id) = Some r.
Proof.
  unfold compiled, property.
  destruct (lookup _ _) as [r'|]; [split; congruence|].
  destruct (inherited _); split; discriminate.
Qed.

Lemma property_Compiled (m : CompilationMap) (key : string)
      (r : CompiledScrollInstruction) :
  property m key = Compiled r <-> lookup m key = Some r.
Proof.
  unfold property. destruct (lookup m key) as [r'|]; [split; congruence|].
  destruct (inherited key); split; discriminate.
Qed.

(** The comparison of a number with itself fails for NaN only. *)
Lemma equals_itself (x : float) : (x =? x) = negb (JS.isNaN x).
Proof.
  unfold JS.isNaN, PrimFloat.is_nan. rewrite negb_involutive. reflexivity.
Qed.

(** C8, as stated, fails: the entry ['enter soon'] is compiled to a
    record whose [enterAt] is NaN ([parseInt] of a word), so that its
    [leaveAt] is NaN too, and [leaveAt == enterAt + duration] is false
    of it. *)
Lemma record_with_NaN_times :
  ~ (forall (entries : list ScrollInstruction) (st : State),
        reachable entries st ->
        forall key r, In (key, r) (compilationMap st) ->
                      equation_holds r = true).
Proof.
  intros H.
  pose (page := [Examples.entry "a" "enter soon"]).
  assert (R : reachable page
                (finish (Examples.entry "a" "enter soon")
                   (set_enterAt nan
                      (initial (Examples.entry "a" "enter soon")))
                   {| compilationMap := []; entriesToProcess := page;
                      console := [] |})).
  { apply (reach_call _ 1 (Some "a") _ _ (reach_start _)).
    vm_compute. reflexivity. }
  specialize (H _ _ R "a" _ (or_introl eq_refl)).
  vm_compute in H. discriminate H.
Qed.

(** C8, amended: in every state of a compilation pass, for every
    record of the compilation map, [leaveAt] and [enterAt + duration]
    are the same number, so that the comparison
    [leaveAt == enterAt + duration] is true of the record unless that
    number is NaN, and false when it is.  This holds of the records
    present in the map, of the record a reference reads
    ([compilationMap[id]] after [requestForProcessing(id)]), and of the
    records of the report. *)
Theorem leaveAt_is_enterAt_plus_duration
        (entries : list ScrollInstruction) (st : State) :
  reachable entries st ->
  let holds (r : CompiledScrollInstruction) :=
    leaveAt r = enterAt r + duration r
    /\ equation_holds r = negb (JS.isNaN (leaveAt r)) in
  (forall key r, In (key, r) (compilationMap st) -> holds r)
  /\ (forall id r, compiled st id = Ok r -> holds r)
  /\ (forall r, In r (compilationResult (report st)) -> holds r).
Proof.
  intros H holds. apply reachable_invariant in H.
  assert (Hall : forall key r, In (key, r) (compilationMap st) -> holds r).
  { intros key r Hin. pose proof (H key r Hin) as E.
    unfold leaves_after_duration in E. split; [exact E|].
    unfold equation_holds. rewrite <- E. apply equals_itself. }
  split; [exact Hall|]. split.
  - intros id r E. apply compiled_Ok in E.
    eapply Hall, lookup_In, E.
  - intros r Hin. cbn [report compilationResult] in Hin.
    apply Object_values_In in Hin as [key Hin]. eapply Hall, Hin.
Qed.

(** An instance: the state after the entry b of a page of two entries
    is compiled. *)
Lemma leaveAt_is_enterAt_plus_duration_witness :
  exists st : State,
    requestForProcessing 2 (Some "b")
      {| compilationMap := [];
         entriesToProcess :=
           [Examples.entry "b" "enter with-exit first-elem; duration 200;";
            Examples.entry "first-elem" "enter 0; duration 100;"];
         console := [] |}
    = Ok st
    /\ forall key r, In (key, r) (compilationMap st) ->
                     leaveAt r = enterAt r + duration r
                     /\ equation_holds r = negb (JS.isNaN (leaveAt r)).
Proof.
  eexists. split.
  - vm_compute. reflexivity.
  - apply (leaveAt_is_enterAt_plus_duration
             [Examples.entry "b" "enter with-exit first-elem; duration 200;";
              Examples.entry "first-elem" "enter 0; duration 100;"]).
    apply (reach_call _ 2 (Some "b") _ _ (reach_start _)).
    vm_compute. reflexivity.
Defined.

End InvariantFacts.

(** ** The extent of the report *)

Module ExtentFacts.

Import Scrollomat Notions FloatOrder InvariantFacts.
Local Open Scope float_scope.

Lemma Math_max2_numbers (a b : float) :
  JS.isNaN a = false -> JS.isNaN b = false ->
  (JS.Math_max2 a b = a \/ JS.Math_max2 a b = b)
  /\ (a <=? JS.Math_max2 a b) = true /\ (b <=? JS.Math_max2 a b) = true.
Proof.
  unfold JS.isNaN. intros Ha Hb. unfold JS.Math_max2, JS.isNaN.
  rewrite Ha, Hb. cbn [orb].
  destruct (a <? b) eqn:Eab.
  - repeat split; auto using ltb_leb, leb_refl.
  - destruct (b <? a) eqn:Eba.
    + repeat split; auto using ltb_leb, leb_refl.
    + pose proof (leb_total a b Ha Hb Eab). pose proof (leb_total b a Hb Ha Eba).
      destruct (JS.is_neg_zero a); repeat split; auto using leb_refl.
Qed.

Lemma Math_max2_nan (a b : float) :
  JS.isNaN a = true \/ JS.isNaN b = true ->
  JS.isNaN (JS.Math_max2 a b) = true.
Proof.
  unfold JS.Math_max2. intros [H|H]; rewrite H; [|rewrite orb_true_r];
    reflexivity.
Qed.

Lemma leb_max_numbers (a : float) :
  (a <=? a) = true -> JS.isNaN a = false.
Proof. intros H. apply (leb_not_nan a a H). Qed.

(** The fold of [Math.max] over numbers. *)
Lemma fold_max_numbers (xs : list float) :
  forall acc : float,
    JS.isNaN acc = false ->
    (forall x, In x xs -> JS.isNaN x = false) ->
    let M := fold_left JS.Math_max2 xs acc in
    In M (acc :: xs) /\ forall x, In x (acc :: xs) -> (x <=? M) = true.
Proof.
  induction xs as [|y ys IH]; intros acc Hacc Hxs; cbn [fold_left].
  - split; [left; reflexivity|]. intros x [<-|[]]. apply leb_refl, Hacc.
  - assert (Hy : JS.isNaN y = false) by (apply Hxs; left; reflexivity).
    destruct (Math_max2_numbers acc y Hacc Hy) as (Hor & La & Ly).
    assert (Hm : JS.isNaN (JS.Math_max2 acc y) = false).
    { destruct Hor as [->| ->]; assumption. }
    destruct (IH (JS.Math_max2 acc y) Hm
                 (fun x Hx => Hxs x (or_intror Hx))) as [Hin Hle].
    cbv zeta. split.
    + destruct Hin as [E|Hin]; [|right; right; exact Hin].
      rewrite <- E. destruct Hor as [->| ->]; [left|right; left]; reflexivity.
    + intros x [<-|[<-|Hx]].
      * eapply leb_trans; [exact La|]. apply Hle. left. reflexivity.
      * eapply leb_trans; [exact Ly|]. apply Hle. left. reflexivity.
      * apply Hle. right. exact Hx.
Qed.

(** The fold of [Math.max] over values one of which is NaN. *)
Lemma fold_max_nan (xs : list float) :
  forall acc : float,
    JS.isNaN acc = true \/ (exists x, In x xs /\ JS.isNaN x = true) ->
    JS.isNaN (fold_left JS.Math_max2 xs acc) = true.
Proof.
  induction xs as [|y ys IH]; intros acc H; cbn [fold_left].
  - destruct H as [H|(x & [] & _)]. exact H.
  - apply IH. destruct H as [H|(x & [<-|Hx] & Hn)].
    + left. apply Math_max2_nan. left. exact H.
    + left. apply Math_max2_nan. right. exact Hn.
    + right. exists x. split; assumption.
Qed.

Lemma below_neg_infinity (x : float) :
  (x <=? neg_infinity) = true -> x = neg_infinity.
Proof.
  rewrite leb_spec. intros H.
  destruct (SFleb_not_nan _ _ H) as [Hx Hn].
  apply SFleb_key in H; trivial.
  apply Prim2SF_inj.
  change (Prim2SF neg_infinity) with (S754_infinity true) in *.
  destruct (Prim2SF x) as [s|s| |s m e]; try congruence;
    try destruct s; cbn in H; try lia; reflexivity.
Qed.

Lemma some_nan_or_none (xs : list float) :
  (exists x, In x xs /\ JS.isNaN x = true)
  \/ (forall x, In x xs -> JS.isNaN x = false).
Proof.
  induction xs as [|y ys [(x & Hx & Hn)|IH]].
  - right. intros x [].
  - left. exists x. split; [right|]; assumption.
  - destruct (JS.isNaN y) eqn:E.
    + left. exists y. split; [left; reflexivity|exact E].
    + right. intros x [<-|Hx]; auto.
Qed.

(** [Math.max] of a non-empty array is its maximum. *)
Lemma Math_max_is_maximum (xs : list float) :
  xs <> [] -> is_maximum (JS.Math_max xs) xs.
Proof.
  intros Hne. unfold JS.Math_max, is_maximum.
  destruct (some_nan_or_none xs) as [Hnan|Hnum].
  - left. split; [|exact Hnan]. apply fold_max_nan. right. exact Hnan.
  - right.
    destruct (fold_max_numbers xs neg_infinity eq_refl Hnum) as [Hin Hle].
    cbv zeta in Hin, Hle. split.
    + destruct Hin as [E|Hin]; [|exact Hin].
      destruct xs as [|x xs']; [congruence|]. left.
      pose proof (Hle x (or_intror (or_introl eq_refl))) as Hx.
      rewrite <- E in Hx |- *. apply below_neg_infinity in Hx.
      rewrite Hx. reflexivity.
    + intros x Hx. split; [apply Hnum, Hx|]. apply Hle. right. exact Hx.
Qed.

Lemma assign_not_empty (m : CompilationMap) (key : string)
      (r : CompiledScrollInstruction) :
  assign m key r <> [].
Proof.
  destruct m as [|[k0 r0] m]; cbn [assign]; [discriminate|].
  destruct (String.eqb k0 key); discriminate.
Qed.

(** The loop keeps what every call keeps. *)
Lemma drain_keeps (P : State -> Prop) :
  (forall message st, P st -> P (console_error message st)) ->
  (forall st key r axis xs,
      P st -> lookup (compilationMap st) key = Some r ->
      P (set_compilationMap
           (assign (compilationMap st) key
              (set_absolute axis (set_value (Some xs) (absolute axis r)) r))
           st)) ->
  (forall st ent r, P st -> P (finish ent r st)) ->
  forall fuel rounds st st',
    P st -> drain fuel rounds st = Ok st' -> P st'.
Proof.
  intros Hc Hw Hf fuel.
  induction rounds as [|rounds IH]; intros st st' Hst E;
    cbn [drain] in E; destruct (entriesToProcess st) as [|first rest].
  - injection E as <-. exact Hst.
  - discriminate.
  - injection E as <-. exact Hst.
  - destruct (requestForProcessing fuel (Some (name first)) st) as [st1| | |]
      eqn:E1; try discriminate.
    cbn [bind] in E. eapply IH; [|exact E].
    eapply (call_keeps P); eassumption.
Qed.

(** A pass over a page that has entries compiles a record. *)
Lemma compiled_something (entries : list ScrollInstruction) (fuel : nat)
      (rep : CompilationReport) (st : State) :
  compileScrollData fuel entries = Ok (rep, st) -> entries <> [] ->
  compilationResult rep <> [].
Proof.
  intros E Hne.
  destruct (compile_reachable _ _ _ _ E) as (_ & Hdone & ->).
  unfold compileScrollData in E.
  destruct (drain fuel fuel _) as [st'| | |] eqn:Ed; try discriminate.
  cbn [bind] in E. assert (st' = st) as -> by congruence. clear E.
  pose proof (drain_keeps
                (fun s => (compilationMap s = []
                           /\ entriesToProcess s = entries)
                          \/ compilationMap s <> [])) as K.
  specialize (K (fun _ s H => H)).
  specialize (K (fun s key r axis xs _ _ =>
                   or_intror (assign_not_empty _ _ _))).
  specialize (K (fun s ent r _ => or_intror (assign_not_empty _ _ _))).
  specialize (K fuel fuel
                {| compilationMap := []; entriesToProcess := entries;
                   console := [] |} st
                (or_introl (conj eq_refl eq_refl)) Ed).
  cbn beta in K. destruct K as [[_ K]|K]; [congruence|].
  cbn [report compilationResult].
  destruct (compilationMap st) as [|[k r] m] eqn:Em; [congruence|].
  intros Hnil.
  assert (Hin : In r (Object_values ((k, r) :: m))).
  { apply Object_values_In. exists k. left. reflexivity. }
  rewrite Hnil in Hin. destruct Hin.
Qed.

End ExtentFacts.

(** ** Termination *)

Module TerminationFacts.

Import Scrollomat Notions Examples Hoare RequestFacts InvariantFacts.
Local Open Scope float_scope.

Lemma filter_filter {A : Type} (p q : A -> bool) (xs : list A) :
  filter q (filter p xs) = filter (fun x => p x && q x) xs.
Proof.
  induction xs as [|x xs IH]; cbn [filter]; [reflexivity|].
  destruct (p x); cbn [filter andb]; [destruct (q x)|]; congruence.
Qed.

Lemma filter_all {A : Type} (xs : list A) : xs = filter (fun _ => true) xs.
Proof. induction xs as [|x xs IH]; cbn [filter]; congruence. Qed.

Lemma filter_shorter {A : Type} (p : A -> bool) (xs : list A) (x : A) :
  In x xs -> p x = false -> List.length (filter p xs) < List.length xs.
Proof.
  induction xs as [|y ys IH]; intros Hin Hp; [destruct Hin|].
  cbn [filter List.length]. destruct Hin as [->|Hin].
  - rewrite Hp. pose proof (filter_length_le p ys). lia.
  - specialize (IH Hin Hp). destruct (p y); cbn [List.length]; lia.
Qed.

(** *** The compiler that detects cycles and the source *)

Lemma agrees_refl {A : Type} (o : outcome A) : agrees o o.
Proof. right. reflexivity. Qed.

Lemma agrees_bind {A B : Type} (m1 m2 : outcome A)
      (k1 k2 : A -> outcome B) :
  agrees m1 m2 -> (forall a, agrees (k1 a) (k2 a)) ->
  agrees (bind m1 k1) (bind m2 k2).
Proof.
  intros [->| ->] Hk; [left; reflexivity|].
  destruct m2; cbn [bind]; [apply Hk|right; reflexivity..].
Qed.

Lemma agrees_forEach {A S : Type} (f1 f2 : A -> S -> outcome S)
      (xs : list A) :
  (forall x s, agrees (f1 x s) (f2 x s)) ->
  forall s, agrees (forEach f1 xs s) (forEach f2 xs s).
Proof.
  intros Hf. induction xs as [|x xs IH]; intros s; cbn [forEach].
  - apply agrees_refl.
  - apply agrees_bind; [apply Hf|exact IH].
Qed.

(** Two pieces of the same code that differ in the function they call
    agree, step by step. *)
Ltac agree_with known :=
  repeat first
    [ apply agrees_refl
    | known
    | apply agrees_bind; [|intros]
    | match goal with
      | |- agrees (if ?c then _ else _) (if ?c then _ else _) => destruct c
      | |- agrees (match ?x with _ => _ end) (match ?x with _ => _ end) =>
          destruct x
      end ].

Section Simulation.

Variable checked request : option string -> State -> outcome State.
Variable e : ScrollInstruction.
Variable absoluteMode : bool.
Hypothesis request_agrees :
  forall id st, agrees (checked id st) (request id st).

Lemma checkAllowReferent_agrees keyword dataParameter st :
  agrees (checkAllowReferent checked e keyword dataParameter st)
         (checkAllowReferent request e keyword dataParameter st).
Proof. unfold checkAllowReferent. agree_with ltac:(apply request_agrees). Qed.

Lemma resolveReferent_agrees keyword dataParameter st :
  agrees (resolveReferent checked e keyword dataParameter st)
         (resolveReferent request e keyword dataParameter st).
Proof.
  unfold resolveReferent.
  agree_with ltac:(first [apply request_agrees
                         |apply checkAllowReferent_agrees]).
Qed.

Lemma substituteLike_agrees axis ref prePipe l :
  agrees (substituteLike checked axis ref prePipe l)
         (substituteLike request axis ref prePipe l).
Proof. unfold substituteLike. agree_with ltac:(apply request_agrees). Qed.

Lemma absolute_uniform_agrees axis ref dataParameter l :
  agrees (absolute_uniform checked e axis ref dataParameter l)
         (absolute_uniform request e axis ref dataParameter l).
Proof.
  unfold absolute_uniform.
  agree_with ltac:(first [apply request_agrees
                         |apply substituteLike_agrees]).
Qed.

Lemma clausePosition_agrees axis segment g current st :
  agrees (clausePosition checked e axis segment g current st)
         (clausePosition request e axis segment g current st).
Proof. unfold clausePosition. agree_with ltac:(apply request_agrees). Qed.

Lemma clause_agrees axis resultHere segment c :
  agrees (clause checked e axis resultHere segment c)
         (clause request e axis resultHere segment c).
Proof.
  unfold clause.
  agree_with ltac:(first [apply request_agrees
                         |apply clausePosition_agrees]).
Qed.

Lemma absolute_custom_agrees axis dataParameter l :
  agrees (absolute_custom checked e axis dataParameter l)
         (absolute_custom request e axis dataParameter l).
Proof.
  unfold absolute_custom.
  agree_with ltac:(first [apply agrees_forEach; intros; apply clause_agrees]).
Qed.

Lemma directive_absolute_agrees axis instruction dataParameter source l :
  agrees (directive_absolute checked e absoluteMode axis instruction
                             dataParameter source l)
         (directive_absolute request e absoluteMode axis instruction
                             dataParameter source l).
Proof.
  unfold directive_absolute.
  agree_with ltac:(first [apply absolute_uniform_agrees
                         |apply absolute_custom_agrees]).
Qed.

Lemma directive_agrees instruction l :
  agrees (directive checked e absoluteMode instruction l)
         (directive request e absoluteMode instruction l).
Proof.
  unfold directive.
  agree_with ltac:(first [apply resolveReferent_agrees
                         |apply directive_absolute_agrees]).
Qed.

End Simulation.

(** A call of the compiler that detects cycles comes to what the call
    of the source comes to, unless it detects a cycle. *)
Lemma requestForProcessing_agrees (fuel : nat) :
  forall (inProgress : list string) (id : option string) (st : State),
    agrees (Detecting.requestForProcessing fuel inProgress id st)
           (requestForProcessing fuel id st).
Proof.
  induction fuel as [|fuel IH]; intros inProgress id st;
    cbn [Detecting.requestForProcessing requestForProcessing].
  - apply agrees_refl.
  - destruct (property _ _); try apply agrees_refl.
    destruct (find_entry _ _) as [ent|]; [|apply agrees_refl].
    destruct (JS.includes inProgress (name ent)); [left; reflexivity|].
    destruct (instructionLines _) as [isAbs lines].
    apply agrees_bind; [|intros [r st1]; apply agrees_refl].
    apply agrees_forEach. intros line l.
    apply directive_agrees. intros id' st'. apply IH.
Qed.

Lemma drain_agrees (fuel : nat) :
  forall (rounds : nat) (st : State),
    agrees (Detecting.drain fuel rounds st) (drain fuel rounds st).
Proof.
  induction rounds as [|rounds IH]; intros st;
    cbn [Detecting.drain drain]; destruct (entriesToProcess st);
    try apply agrees_refl.
  apply agrees_bind; [apply requestForProcessing_agrees|exact IH].
Qed.

Lemma compileScrollData_agrees (fuel : nat)
      (entries : list ScrollInstruction) :
  agrees (Detecting.compileScrollData fuel entries)
         (compileScrollData fuel entries).
Proof.
  unfold Detecting.compileScrollData, compileScrollData.
  apply agrees_bind; [apply drain_agrees|intros st; apply agrees_refl].
Qed.

(** *** The compiler that detects cycles ends *)

Lemma includes_cons (x y : string) (xs : list string) :
  JS.includes (y :: xs) x = String.eqb x y || JS.includes xs x.
Proof. reflexivity. Qed.

(** An entry whose call starts leaves fewer entries idle. *)
Lemma idle_shorter (entries : list ScrollInstruction)
      (inProgress : list string) (ent : ScrollInstruction) :
  In ent entries -> JS.includes inProgress (name ent) = false ->
  List.length (idle entries (name ent :: inProgress))
  < List.length (idle entries inProgress).
Proof.
  intros Hin Hidle. unfold idle.
  rewrite (filter_ext _
             (fun x => negb (JS.includes inProgress (name x))
                       && negb (String.eqb (name x) (name ent)))).
  2:{ intros x. rewrite includes_cons, negb_orb. apply andb_comm. }
  rewrite <- filter_filter. apply (filter_shorter _ _ ent).
  - apply filter_In. split; [exact Hin|]. rewrite Hidle. reflexivity.
  - rewrite String.eqb_refl. reflexivity.
Qed.

Section Page.

Variable entries : list ScrollInstruction.

Lemma pending_console st0 message st :
  pending entries st0 st -> pending entries st0 (console_error message st).
Proof. intros H. exact H. Qed.

Lemma pending_write st0 st key r axis xs :
  pending entries st0 st -> lookup (compilationMap st) key = Some r ->
  pending entries st0
    (set_compilationMap
       (assign (compilationMap st) key
          (set_absolute axis (set_value (Some xs) (absolute axis r)) r))
       st).
Proof.
  intros (Hi & Hn & Hp) Hr. split; [exact Hi|]. split; [|exact Hp].
  intros e0 He. cbn [compilationMap set_compilationMap entriesToProcess] in *.
  rewrite lookup_assign. destruct (String.eqb_spec key (name e0)) as [E|_].
  - rewrite E in Hr. rewrite (Hn e0 He) in Hr. discriminate.
  - apply Hn, He.
Qed.

Lemma pending_finish st0 st ent r :
  pending entries st0 st -> pending entries st0 (finish ent r st).
Proof.
  intros (Hi & Hn & p & Hp). unfold finish.
  split; [|split];
    cbn [compilationMap set_compilationMap set_entriesToProcess
         entriesToProcess].
  - intros x Hx. apply filter_In in Hx as [Hx _]. apply Hi, Hx.
  - intros x Hx. apply filter_In in Hx as [Hx Hne].
    rewrite lookup_assign.
    destruct (String.eqb_spec (name ent) (name x)) as [E|_].
    + rewrite E, String.eqb_refl in Hne. discriminate.
    + apply Hn, Hx.
  - eexists. rewrite Hp. apply filter_filter.
Qed.

(** A call of the compiler that detects cycles ends within a fuel above
    the number of idle entries, and keeps the invariant of the loop. *)
Lemma detecting_call_ends (st0 : State) (fuel : nat) :
  forall (inProgress : list string) (id : option string) (st : State),
    pending entries st0 st ->
    List.length (idle entries inProgress) < fuel ->
    sat (after_call (pending entries st0) id st) False
        (Detecting.requestForProcessing fuel inProgress id st).
Proof.
  induction fuel as [|fuel IH]; intros inProgress id st Hst Hroom;
    [lia|].
  cbn [Detecting.requestForProcessing].
  destruct (property (compilationMap st) (property_key id)) eqn:Elook;
    try (cbn [sat]; split; [exact Hst|intros E; congruence]).
  destruct (find_entry id (entriesToProcess st)) as [ent|] eqn:Efind;
    [|exact I].
  destruct (find_entry_spec _ _ _ Efind) as [Hin _].
  destruct (JS.includes inProgress (name ent)) eqn:Hidle; [exact I|].
  pose proof (idle_shorter entries inProgress ent
                (proj1 Hst _ Hin) Hidle) as Hless.
  destruct (instructionLines (instruction ent)) as [isAbs lines].
  eapply sat_bind.
  { apply forEach_sat with (Q := Notions.PL (pending entries st0));
      [|exact Hst].
    intros line l Hline Hl.
    apply (directive_sat (pending entries st0) False);
      auto using pending_console, pending_write.
    intros id' st' H'.
    eapply sat_weaken; [apply IH; [exact H'|lia]|].
    intros st1 [H1 _]. exact H1. }
  intros [r st'] H'. unfold PL in H'. cbn [snd] in H'. cbn [sat].
  split; [apply pending_finish, H'|]. intros _.
  exists ent, r, st'. auto using pending_finish.
Qed.

Hypothesis names : plain_names entries.

(** One round of the loop ends, and leaves fewer entries. *)
Lemma detecting_round_ends (fuel : nat) (st : State)
      (first : ScrollInstruction) (rest : list ScrollInstruction) :
  pending entries st st -> entriesToProcess st = first :: rest ->
  List.length entries < fuel ->
  sat (fun st1 => pending entries st1 st1
                  /\ List.length (entriesToProcess st1)
                     < List.length (entriesToProcess st))
      False (Detecting.requestForProcessing fuel [] (Some (name first)) st).
Proof.
  intros Hst Hfirst Hfuel.
  assert (Hin : In first (entriesToProcess st)).
  { rewrite Hfirst. left. reflexivity. }
  eapply sat_weaken.
  { apply (detecting_call_ends st); [exact Hst|].
    unfold idle. pose proof (filter_length_le
                               (fun e => negb (JS.includes [] (name e)))
                               entries). lia. }
  intros st1 [(Hi & Hn & _) Hend]. split.
  { split; [exact Hi|]. split; [exact Hn|].
    exists (fun _ => true). apply filter_all. }
  destruct Hend as (ent & r & st' & Hfind & (_ & _ & p & Hp) & ->).
  { unfold property. cbn [property_key].
    rewrite (proj1 (proj2 Hst) _ Hin), (names _ (proj1 Hst _ Hin)).
    reflexivity. }
  apply find_entry_spec in Hfind as [Hin' _].
  unfold finish. cbn [entriesToProcess set_entriesToProcess].
  rewrite Hp, filter_filter.
  apply (filter_shorter _ _ ent Hin').
  rewrite String.eqb_refl. apply andb_false_r.
Qed.

Lemma detecting_drain_ends (fuel : nat) :
  List.length entries < fuel ->
  forall (rounds : nat) (st : State),
    pending entries st st ->
    List.length (entriesToProcess st) <= rounds ->
    followed (Detecting.drain fuel rounds st).
Proof.
  intros Hfuel. induction rounds as [|rounds IH]; intros st Hst Hlen;
    cbn [Detecting.drain];
    destruct (entriesToProcess st) as [|first rest] eqn:El;
    try discriminate.
  - cbn [List.length] in Hlen. lia.
  - pose proof (detecting_round_ends fuel st first rest Hst El Hfuel) as H.
    destruct (Detecting.requestForProcessing fuel [] (Some (name first)) st)
      as [st1| | |]; cbn [bind sat] in *; try discriminate; [|destruct H].
    destruct H as [H1 Hlt]. apply IH; [exact H1|].
    rewrite El in Hlt. cbn [List.length] in *. lia.
Qed.

End Page.

(** On the page A: ['enter like B'], B: ['enter like A'] every call for
    A or B asks for the other before it stores anything. *)
Lemma cycle_step (fuel : nat) (me other : string) :
  (me = "A" /\ other = "B") \/ (me = "B" /\ other = "A") ->
  requestForProcessing fuel (Some other) cycle_start = OutOfFuel ->
  requestForProcessing (S fuel) (Some me) cycle_start = OutOfFuel.
Proof.
  intros [[-> ->]|[-> ->]] H.
  - change (requestForProcessing (S fuel) (Some "A") cycle_start)
      with ('(resultHere, st) <-
              (l <- ('(foundDataSource, foundDataValue, st) <-
                       ('(foundDataSource, st) <-
                          (st' <- requestForProcessing fuel (Some "B")
                                    cycle_start ;;
                           match property (compilationMap st') "B" with
                           | Compiled r => Ok (Some r, st')
                           | Member => NotARecord
                           | Missing => Ok (None, st')
                           end) ;;
                        Ok (foundDataSource, @None float, st)) ;;
                     Ok (directive_enter (Examples.entry "A" "enter like B")
                           ["like"; "B"] foundDataSource foundDataValue
                           (set_isAbsolute false
                              (initial (Examples.entry "A" "enter like B")),
                            st))) ;;
               Ok l) ;;
            Ok (finish (Examples.entry "A" "enter like B") resultHere st)).
    rewrite H. reflexivity.
  - change (requestForProcessing (S fuel) (Some "B") cycle_start)
      with ('(resultHere, st) <-
              (l <- ('(foundDataSource, foundDataValue, st) <-
                       ('(foundDataSource, st) <-
                          (st' <- requestForProcessing fuel (Some "A")
                                    cycle_start ;;
                           match property (compilationMap st') "A" with
                           | Compiled r => Ok (Some r, st')
                           | Member => NotARecord
                           | Missing => Ok (None, st')
                           end) ;;
                        Ok (foundDataSource, @None float, st)) ;;
                     Ok (directive_enter (Examples.entry "B" "enter like A")
                           ["like"; "A"] foundDataSource foundDataValue
                           (set_isAbsolute false
                              (initial (Examples.entry "B" "enter like A")),
                            st))) ;;
               Ok l) ;;
            Ok (finish (Examples.entry "B" "enter like A") resultHere st)).
    rewrite H. reflexivity.
Qed.

Lemma cycle_never_answers (fuel : nat) :
  requestForProcessing fuel (Some "A") cycle_start = OutOfFuel
  /\ requestForProcessing fuel (Some "B") cycle_start = OutOfFuel.
Proof.
  induction fuel as [|fuel [IA IB]]; [split; reflexivity|].
  split; [apply (cycle_step fuel "A" "B")|apply (cycle_step fuel "B" "A")];
    auto.
Qed.

(** On that page the compiler that detects cycles reports one. *)
Lemma cycle_is_detected :
  Detecting.compileScrollData 3 cycle = Throw Detecting.CyclicReference.
Proof. vm_compute. reflexivity. Qed.


(** An entry named like a member of [Object.prototype] is never
    compiled: [compilationMap['constructor']] is truthy from the start,
    every call for it returns at once, and the loop of
    [compileScrollData] goes on for ever. *)
Lemma inherited_name_never_answers (fuel : nat) :
  compileScrollData fuel [Examples.entry "constructor" "enter 0"]
  = OutOfFuel.
Proof.
  unfold compileScrollData.
  enough (H : forall rounds,
             drain fuel rounds
               {| compilationMap := [];
                  entriesToProcess := [Examples.entry "constructor" "enter 0"];
                  console := [] |} = OutOfFuel) by (rewrite H; reflexivity).
  destruct fuel as [|fuel]; induction rounds as [|rounds IH];
    try reflexivity.
  exact IH.
Qed.



End TerminationFacts.

(** * Further properties *)

From Stdlib Require Import Permutation.

(** ** The order the directives of an entry are carried out in *)

Module OrderFacts.

Import Scrollomat Notions.

(** Inserting into a list whose marked elements all stand behind the
    others, with the comparator of [sort_last]. *)
Lemma sort_insert_partition {A : Type} (mark : A -> bool) (x : A)
      (front back : list A) :
  forallb (fun a => negb (mark a)) front = true ->
  forallb mark back = true ->
  JS.sort_insert (fun a b => negb (mark a) && mark b) x (front ++ back)
  = if mark x then front ++ back ++ [x] else front ++ x :: back.
Proof.
  intros Hf Hb. induction front as [|a front IH]; cbn [app].
  - destruct (mark x) eqn:Ex; cbn [negb andb].
    + clear Hf. induction back as [|b back IHb]; cbn [JS.sort_insert app].
      * reflexivity.
      * rewrite Ex. cbn [negb andb]. cbn [forallb] in Hb.
        apply andb_prop in Hb as [_ Hb]. rewrite (IHb Hb). reflexivity.
    + destruct back as [|b back]; cbn [JS.sort_insert]; [reflexivity|].
      cbn [forallb] in Hb. apply andb_prop in Hb as [Hb _].
      rewrite Ex, Hb. reflexivity.
  - cbn [forallb] in Hf. apply andb_prop in Hf as [Ha Hf].
    cbn [JS.sort_insert]. apply negb_true_iff in Ha. rewrite Ha, andb_false_r.
    rewrite (IH Hf). destruct (mark x); reflexivity.
Qed.

Lemma forallb_filter {A : Type} (p : A -> bool) (xs : list A) :
  forallb p (filter p xs) = true.
Proof.
  induction xs as [|x xs IH]; cbn [filter]; [reflexivity|].
  destruct (p x) eqn:E; cbn [forallb]; [rewrite E|]; exact IH.
Qed.

(** A stable sort by "is marked" is a stable partition. *)
Lemma sort_partition {A : Type} (mark : A -> bool) (xs : list A) :
  JS.sort (fun a b => negb (mark a) && mark b) xs
  = filter (fun a => negb (mark a)) xs ++ filter mark xs.
Proof.
  unfold JS.sort.
  change (@nil A)
    with (filter (fun a => negb (mark a)) [] ++ filter mark (@nil A)).
  rewrite <- (app_nil_l xs) at 2 3.
  generalize (@nil A) as done.
  induction xs as [|x xs IH]; intros done; cbn [fold_left].
  - rewrite app_nil_r. reflexivity.
  - rewrite sort_insert_partition by apply forallb_filter.
    replace (done ++ x :: xs) with ((done ++ [x]) ++ xs)
      by (rewrite <- app_assoc; reflexivity).
    rewrite <- IH. f_equal. rewrite !filter_app. cbn [filter].
    destruct (mark x); cbn [negb].
    + rewrite app_nil_r. reflexivity.
    + rewrite app_nil_r, <- app_assoc. reflexivity.
Qed.

Lemma leave_is_not_y (line : string) :
  JS.startsWith line "leave " = true -> JS.startsWith line "y " = false.
Proof.
  destruct line as [|c line]; [discriminate|]. cbn [JS.startsWith].
  intros H. apply andb_prop in H as [H _]. apply Ascii.eqb_eq in H.
  subst c. reflexivity.
Qed.

(** X1: the two sorts of lines 343-345 leave the directives in three
    groups, each in the order of the attribute: first the directives
    that start with neither ['leave '] nor ['y '], then those that start
    with ['leave '], then those that start with ['y '].  The test is on
    the text with the space: the bare words [leave] and [y] start with
    neither and stay in the first group, where the attribute has
    them. *)
Theorem leave_then_y_come_last (lines : list string) :
  sort_last "y " (sort_last "leave " lines)
  = filter (fun l => negb (JS.startsWith l "leave ")
                     && negb (JS.startsWith l "y ")) lines
    ++ filter (fun l => JS.startsWith l "leave ") lines
    ++ filter (fun l => JS.startsWith l "y ") lines
  /\ forall bare, bare = "leave" \/ bare = "y" ->
       JS.startsWith bare "leave " = false
       /\ JS.startsWith bare "y " = false.
Proof.
  split; [|intros bare [-> | ->]; split; reflexivity].
  unfold sort_last.
  rewrite (sort_partition (fun l => JS.startsWith l "leave ")).
  rewrite (sort_partition (fun l => JS.startsWith l "y ")).
  rewrite !filter_app, <- app_assoc.
  rewrite !TerminationFacts.filter_filter.
  f_equal. f_equal.
  - apply filter_ext_in. intros l _.
    destruct (JS.startsWith l "leave ") eqn:E; [|reflexivity].
    rewrite (leave_is_not_y _ E). reflexivity.
  - rewrite <- app_nil_r. f_equal.
    + apply filter_ext_in. intros l _.
      destruct (JS.startsWith l "leave ") eqn:E; [|reflexivity].
      rewrite (leave_is_not_y _ E). reflexivity.
    + induction lines as [|l lines IH]; cbn [filter]; [reflexivity|].
      destruct (JS.startsWith l "leave ") eqn:E; cbn [andb]; [|exact IH].
      rewrite (leave_is_not_y _ E). exact IH.
Qed.

End OrderFacts.
(** ** The records of a pass and the entries of the page *)

Module RecordFacts.

Import Scrollomat Notions PassNotions Hoare RequestFacts InvariantFacts.
Local Open Scope float_scope.

Lemma sat_any {A : Type} (m : outcome A) : sat (fun _ => True) True m.
Proof. destruct m; exact I. Qed.

Ltac same_entry_step :=
  match goal with
  | |- sat _ _ (bind _ _) => eapply sat_bind; [apply sat_any|intros ? _]
  | |- sat _ _ (Ok _) => cbn [sat fst]
  | |- sat _ _ (match ?x with _ => _ end) => destruct x
  | |- sat _ _ (let (_, _) := ?x in _) => destruct x
  | |- same_entry _ _ =>
      unfold same_entry in *; cbn; intuition congruence
  end.

Section Frame.

Variable request : option string -> State -> outcome State.
Variable e : ScrollInstruction.
Variable absoluteMode : bool.
Variable r0 : CompiledScrollInstruction.

Lemma write_array_kept axis ref xs (l : Locals) :
  kept r0 l -> kept r0 (write_array axis ref xs l).
Proof.
  unfold kept, write_array. destruct l as [r st]. cbn [fst]. intros H.
  destruct ref; [cbn [fst]; same_entry_step|].
  destruct (lookup _ _); exact H.
Qed.

Lemma substituteLike_kept axis ref prePipe (l : Locals) :
  kept r0 l ->
  sat (kept r0) True (substituteLike request axis ref prePipe l).
Proof.
  intros H. unfold substituteLike.
  destruct (_ <? _)%Z; [|exact H].
  do 2 same_entry_step.
  destruct (value _) as [[|v [|]]|]; try exact H.
  same_entry_step. cbn [sat]. apply write_array_kept. exact H.
Qed.

Lemma absolute_uniform_kept axis ref dataParameter (l : Locals) :
  kept r0 l ->
  sat (kept r0) True
      (absolute_uniform request e axis ref dataParameter l).
Proof.
  intros H. unfold absolute_uniform.
  eapply sat_bind; [apply substituteLike_kept, H|].
  intros [r st] Hr. same_entry_step. unfold kept in *. cbn [fst] in *.
  repeat same_entry_step.
Qed.

Lemma absolute_custom_kept axis dataParameter (l : Locals) :
  kept r0 l ->
  sat (kept r0) True (absolute_custom request e axis dataParameter l).
Proof.
  intros H. unfold absolute_custom. destruct l as [r st].
  unfold kept in *. cbn [fst] in *.
  repeat same_entry_step.
Qed.

Lemma directive_absolute_kept axis instruction dataParameter source
      (l : Locals) :
  kept r0 l ->
  sat (kept r0) True
      (directive_absolute request e absoluteMode axis instruction
                          dataParameter source l).
Proof.
  intros H. unfold directive_absolute. destruct l as [r st].
  unfold kept in H. cbn [fst] in H.
  same_entry_step.
  destruct (_ =? _)%nat;
    [cbn [sat]; unfold kept; cbn [fst]; same_entry_step|].
  destruct (negb _).
  - apply absolute_uniform_kept. unfold kept. cbn [fst]. same_entry_step.
  - apply absolute_custom_kept. unfold kept. cbn [fst]. same_entry_step.
Qed.

(** A directive leaves the inherited fields and the mode of the record
    it works on as they are. *)
Lemma directive_kept (instruction : string) (l : Locals) :
  kept r0 l ->
  sat (kept r0) True (directive request e absoluteMode instruction l).
Proof.
  intros H. unfold directive. destruct l as [r st].
  unfold kept in H. cbn [fst] in H.
  destruct (negb _); [exact H|].
  eapply sat_bind; [apply sat_any|intros [[source v] st1] _].
  repeat match goal with
         | |- sat _ _ (if String.eqb ?a ?b then _ else _) =>
             destruct (String.eqb a b)
         end;
    try apply directive_absolute_kept; unfold kept; cbn [sat fst]; trivial.
  - unfold directive_enter. destruct source, v; try destruct (_ <? _)%nat;
      cbn [fst]; same_entry_step.
  - unfold directive_leave. destruct source, v; try destruct (_ <? _)%nat;
      cbn [fst]; same_entry_step.
  - unfold directive_ease. destruct absoluteMode; [exact H|].
    destruct source; try destruct (negb _); cbn [fst]; same_entry_step.
  - unfold directive_opacity_ease.
    destruct source; try destruct (_ && _); try destruct (_ =? _)%nat;
      cbn [fst]; same_entry_step.
  - unfold directive_duration.
    destruct source; try destruct (_ <? _)%nat; cbn [fst]; same_entry_step.
Qed.

End Frame.

End RecordFacts.

Module PassFacts.

Import Scrollomat Notions PassNotions Hoare RequestFacts InvariantFacts
       RecordFacts.
Local Open Scope float_scope.

Lemma is_key_assign (m : CompilationMap) (key k : string)
      (r : CompiledScrollInstruction) :
  is_key (assign m key r) k = String.eqb key k || is_key m k.
Proof.
  unfold is_key. rewrite lookup_assign.
  destruct (String.eqb key k); reflexivity.
Qed.

Lemma keys_assign (m : CompilationMap) (key : string)
      (r : CompiledScrollInstruction) :
  map fst (assign m key r)
  = if is_key m key then map fst m else map fst m ++ [key].
Proof.
  unfold is_key.
  induction m as [|[k0 r0] m IH]; cbn [assign lookup map fst app];
    [reflexivity|].
  destruct (String.eqb_spec k0 key) as [->|Hne]; cbn [map fst]; [reflexivity|].
  rewrite IH. destruct (lookup m key); reflexivity.
Qed.

Lemma is_key_In (m : CompilationMap) (k : string) :
  is_key m k = true <-> In k (map fst m).
Proof.
  unfold is_key. induction m as [|[k0 r0] m IH]; cbn [lookup map fst In].
  - split; [discriminate|intros []].
  - destruct (String.eqb_spec k0 k) as [->|Hne].
    + split; auto.
    + rewrite IH. split; [auto|intros [E|H]; [congruence|exact H]].
Qed.

Lemma NoDup_keys_assign (m : CompilationMap) (key : string)
      (r : CompiledScrollInstruction) :
  NoDup (map fst m) -> NoDup (map fst (assign m key r)).
Proof.
  intros H. rewrite keys_assign. destruct (is_key m key) eqn:E; [exact H|].
  apply NoDup_app; [exact H|repeat constructor; intros []|].
  intros k Hk [<-|[]]. apply is_key_In in Hk. congruence.
Qed.

Section Page.

Variable entries : list ScrollInstruction.

Lemma well_formed_console message st :
  well_formed entries st -> well_formed entries (console_error message st).
Proof. intros H. exact H. Qed.

Lemma well_formed_write st key r axis xs :
  well_formed entries st -> lookup (compilationMap st) key = Some r ->
  well_formed entries
    (set_compilationMap
       (assign (compilationMap st) key
          (set_absolute axis (set_value (Some xs) (absolute axis r)) r))
       st).
Proof.
  intros (He & Hn & Hr) Hlook. unfold well_formed.
  cbn [compilationMap set_compilationMap entriesToProcess].
  assert (Hk : is_key (compilationMap st) key = true).
  { unfold is_key. rewrite Hlook. reflexivity. }
  split; [|split].
  - rewrite He. apply filter_ext. intros x. rewrite is_key_assign.
    destruct (String.eqb_spec key (name x)) as [<-|_]; [|reflexivity].
    rewrite Hk. reflexivity.
  - apply NoDup_keys_assign, Hn.
  - intros k r' Hin. apply In_assign in Hin as [E|Hin]; [|apply Hr, Hin].
    injection E as -> ->. apply lookup_In in Hlook.
    destruct (Hr _ _ Hlook) as [H1 H2]. cbn. auto.
Qed.

Lemma find_entry_filter (p : string -> bool) (id : string)
      (ent : ScrollInstruction) :
  find_entry (Some id) (filter (fun x => p (name x)) entries) = Some ent ->
  find_entry (Some id) entries = Some ent.
Proof.
  cbn [find_entry]. induction entries as [|x xs IH]; cbn [filter find];
    [discriminate|].
  destruct (p (name x)) eqn:Ep; cbn [find].
  - destruct (String.eqb (name x) id); [trivial|exact IH].
  - intros H. destruct (String.eqb_spec (name x) id) as [E|_]; [|exact (IH H)].
    exfalso. apply find_some in H as [Hin Hid].
    apply filter_In in Hin as [_ Hp]. apply String.eqb_eq in Hid.
    congruence.
Qed.

Lemma well_formed_finish st0 st id ent r :
  well_formed entries st0 -> well_formed entries st ->
  find_entry id (entriesToProcess st0) = Some ent ->
  base r = ent ->
  isAbsolute r = fst (instructionLines (instruction ent)) ->
  well_formed entries (finish ent r st).
Proof.
  intros (He0 & _) (He & Hn & Hr) Hfind Hb Ha. unfold well_formed, finish.
  cbn [compilationMap set_compilationMap set_entriesToProcess
       entriesToProcess].
  split; [|split].
  - rewrite He, TerminationFacts.filter_filter. apply filter_ext.
    intros x. rewrite is_key_assign, negb_orb, andb_comm.
    rewrite (String.eqb_sym (name ent)). reflexivity.
  - apply NoDup_keys_assign, Hn.
  - intros k r' Hin. apply In_assign in Hin as [E|Hin]; [|apply Hr, Hin].
    injection E as -> ->. cbn [base isAbsolute set_leaveAt].
    rewrite Hb. split; [|exact Ha].
    destruct (find_entry_spec _ _ _ Hfind) as [_ ->].
    rewrite He0 in Hfind.
    apply (find_entry_filter
             (fun n => negb (is_key (compilationMap st0) n))), Hfind.
Qed.

(** A call of [requestForProcessing] keeps the records and the entries
    left to process in step. *)
Lemma call_well_formed (fuel : nat) :
  forall (id : option string) (st : State),
    well_formed entries st ->
    sat (well_formed entries) True (requestForProcessing fuel id st).
Proof.
  induction fuel as [|fuel IH]; intros id st Hst; [exact I|].
  cbn [requestForProcessing].
  destruct (property (compilationMap st) (property_key id));
    try exact Hst.
  destruct (find_entry id (entriesToProcess st)) as [ent|] eqn:Efind;
    [|exact I].
  destruct (instructionLines (instruction ent)) as [isAbs lines] eqn:El.
  eapply sat_bind.
  { apply forEach_sat
      with (Q := fun l : Locals =>
                   well_formed entries (snd l)
                   /\ same_entry (set_isAbsolute isAbs (initial ent)) (fst l)).
    - intros line [r st1] _ [H1 H2]. cbn [fst snd] in H1, H2.
      pose proof (directive_sat (well_formed entries) True
                    (requestForProcessing fuel) ent isAbs
                    (fun id' st' H' => IH id' st' H')
                    well_formed_console well_formed_write line (r, st1) H1)
        as Hd.
      pose proof (directive_kept (requestForProcessing fuel) ent isAbs
                    (set_isAbsolute isAbs (initial ent)) line (r, st1) H2)
        as Hk.
      destruct (directive _ _ _ _ _); cbn [sat] in *; auto.
    - cbn [fst snd]. split; [exact Hst|]. split; reflexivity. }
  intros [r st1] [H1 [Hb Ha]]. cbn [fst snd sat] in *.
  apply (well_formed_finish st st1 id); auto.
  rewrite Ha, El. reflexivity.
Qed.

Lemma drain_well_formed (fuel : nat) :
  forall (rounds : nat) (st st' : State),
    well_formed entries st -> drain fuel rounds st = Ok st' ->
    well_formed entries st'.
Proof.
  induction rounds as [|rounds IH]; intros st st' Hst E;
    cbn [drain] in E; destruct (entriesToProcess st) as [|first rest].
  - injection E as <-. exact Hst.
  - discriminate.
  - injection E as <-. exact Hst.
  - pose proof (call_well_formed fuel (Some (name first)) st Hst) as H.
    destruct (requestForProcessing fuel (Some (name first)) st) as [st1| | |];
      try discriminate.
    cbn [bind] in E. apply (IH st1 st' H E).
Qed.

End Page.

Lemma compile_well_formed (entries : list ScrollInstruction) (fuel : nat)
      (rep : CompilationReport) (st : State) :
  compileScrollData fuel entries = Ok (rep, st) ->
  well_formed entries st /\ entriesToProcess st = [] /\ rep = report st.
Proof.
  intros E. destruct (compile_reachable _ _ _ _ E) as (_ & Hdone & Hrep).
  split; [|auto]. unfold compileScrollData in E.
  destruct (drain fuel fuel _) as [st'| | |] eqn:Ed; try discriminate.
  cbn [bind] in E. assert (st' = st) as -> by congruence.
  apply (drain_well_formed entries fuel fuel _ _) in Ed; [exact Ed|].
  split; [|split].
  - cbn [entriesToProcess compilationMap]. clear.
    induction entries as [|x xs IH]; cbn [filter]; [reflexivity|].
    unfold is_key at 1. cbn [lookup negb]. f_equal. exact IH.
  - constructor.
  - intros k r [].
Qed.

End PassFacts.

(** ** The report *)

Module ReportFacts.

Import Scrollomat Notions PassNotions Hoare RequestFacts InvariantFacts
       RecordFacts PassFacts.
Local Open Scope float_scope.

Lemma sort_insert_Permutation {A : Type} (lt : A -> A -> bool) (x : A)
      (sorted : list A) :
  Permutation (JS.sort_insert lt x sorted) (x :: sorted).
Proof.
  induction sorted as [|y sorted IH]; cbn [JS.sort_insert]; [reflexivity|].
  destruct (lt x y); [reflexivity|].
  rewrite IH. apply perm_swap.
Qed.

Lemma sort_Permutation {A : Type} (lt : A -> A -> bool) (xs : list A) :
  Permutation (JS.sort lt xs) xs.
Proof.
  unfold JS.sort.
  assert (H : forall acc,
             Permutation
               (fold_left (fun acc x => JS.sort_insert lt x acc) xs acc)
               (xs ++ acc)).
  { induction xs as [|x xs IH]; intros acc; cbn [fold_left app];
      [reflexivity|].
    rewrite IH, sort_insert_Permutation. symmetry.
    apply Permutation_middle. }
  rewrite H, app_nil_r. reflexivity.
Qed.

(** [Object.values] lists every record of the map once. *)
Lemma Object_values_Permutation (m : CompilationMap) :
  Permutation (Object_values m) (map snd m).
Proof.
  unfold Object_values. rewrite sort_Permutation.
  induction m as [|[k r] m IH]; cbn [flat_map filter map app fst snd];
    [reflexivity|].
  destruct (array_index k); cbn [app map snd].
  - apply perm_skip, IH.
  - rewrite <- Permutation_middle. apply perm_skip, IH.
Qed.

Lemma lookup_NoDup (m : CompilationMap) (k : string)
      (r : CompiledScrollInstruction) :
  NoDup (map fst m) -> In (k, r) m -> lookup m k = Some r.
Proof.
  induction m as [|[k0 r0] m IH]; cbn [map fst lookup In]; [intros _ []|].
  intros Hn [E|Hin].
  - injection E as -> ->. rewrite String.eqb_refl. reflexivity.
  - inversion Hn as [|? ? Hk Hn']; subst.
    destruct (String.eqb_spec k0 k) as [->|_]; [|apply IH; assumption].
    exfalso. apply Hk. apply in_map_iff. exists (k, r). auto.
Qed.

(** The records of a state that is well formed, once no entry is left
    to process. *)
Lemma records_of_a_finished_pass
      (entries : list ScrollInstruction) (st : State) :
  well_formed entries st -> entriesToProcess st = [] ->
  (forall e, In e entries ->
     exists r, lookup (compilationMap st) (name e) = Some r
               /\ In r (Object_values (compilationMap st)))
  /\ (forall r, In r (Object_values (compilationMap st)) ->
        find_entry (Some (name (base r))) entries = Some (base r)
        /\ lookup (compilationMap st) (name (base r)) = Some r
        /\ isAbsolute r = fst (instructionLines (instruction (base r)))).
Proof.
  intros (He & Hn & Hr) Hdone. split.
  - intros e Hin.
    destruct (lookup (compilationMap st) (name e)) as [r|] eqn:El.
    + exists r. split; [reflexivity|].
      apply Object_values_In. exists (name e). apply lookup_In, El.
    + exfalso. assert (H : In e (entriesToProcess st)).
      { rewrite He. apply filter_In. split; [exact Hin|].
        unfold is_key. rewrite El. reflexivity. }
      rewrite Hdone in H. destruct H.
  - intros r Hin. apply Object_values_In in Hin as [k Hin].
    destruct (Hr _ _ Hin) as [Hfind Habs].
    destruct (find_entry_spec _ _ _ Hfind) as [_ Hk].
    injection Hk as ->. split; [exact Hfind|]. split; [|exact Habs].
    apply lookup_NoDup; assumption.
Qed.

(** X2: when a pass returns, every entry of the page has a record under
    its id and in the report, and every record of the report is that of
    the first entry of the page with the id of the record: it inherits
    the fields of that entry, is absolute when the text of that entry
    starts with [!absolute], and is what the map holds under the id. *)
Theorem every_entry_is_compiled
        (entries : list ScrollInstruction) (fuel : nat)
        (rep : CompilationReport) (st : State) :
  compileScrollData fuel entries = Ok (rep, st) ->
  (forall e, In e entries ->
     exists r, lookup (compilationMap st) (name e) = Some r
               /\ In r (compilationResult rep))
  /\ (forall r, In r (compilationResult rep) ->
        find_entry (Some (name (base r))) entries = Some (base r)
        /\ lookup (compilationMap st) (name (base r)) = Some r
        /\ isAbsolute r = fst (instructionLines (instruction (base r)))).
Proof.
  intros E.
  destruct (compile_well_formed _ _ _ _ E) as (Hwf & Hdone & ->).
  cbn [report compilationResult].
  apply records_of_a_finished_pass; assumption.
Qed.

(** An instance: a page where two entries share the id a. *)
Lemma every_entry_is_compiled_witness :
  exists (rep : CompilationReport) (st : State),
    compileScrollData 3 Pages.twins = Ok (rep, st)
    /\ (forall e, In e Pages.twins ->
          exists r, lookup (compilationMap st) (name e) = Some r
                    /\ In r (compilationResult rep))
    /\ (forall r, In r (compilationResult rep) ->
          find_entry (Some (name (base r))) Pages.twins = Some (base r)
          /\ lookup (compilationMap st) (name (base r)) = Some r
          /\ isAbsolute r
             = fst (instructionLines (instruction (base r)))).
Proof.
  eexists. eexists.
  assert (E : compileScrollData 3 Pages.twins = Ok (_, _))
    by (vm_compute; reflexivity).
  split; [exact E|].
  exact (every_entry_is_compiled _ _ _ _ E).
Defined.

(** X3: when a pass returns, its report has one record for each id of
    the page: the ids of its records are the ids of the entries, none
    twice, so there are as many records as distinct ids. *)
Theorem one_record_for_each_id
        (entries : list ScrollInstruction) (fuel : nat)
        (rep : CompilationReport) (st : State) :
  compileScrollData fuel entries = Ok (rep, st) ->
  let ids := map (fun r => name (base r)) (compilationResult rep) in
  NoDup ids
  /\ (forall id, In id ids <-> In id (map name entries))
  /\ List.length (compilationResult rep)
     = List.length (nodup string_dec (map name entries)).
Proof.
  intros E ids.
  destruct (compile_well_formed _ _ _ _ E) as (Hwf & Hdone & ->).
  destruct (records_of_a_finished_pass _ _ Hwf Hdone) as [Hall Hrec].
  destruct Hwf as (He & Hn & Hr).
  cbn [report compilationResult] in *.
  assert (Hids : Permutation ids (map fst (compilationMap st))).
  { unfold ids. rewrite Object_values_Permutation, map_map.
    replace (map (fun x => name (base (snd x))) (compilationMap st))
      with (map fst (compilationMap st)); [reflexivity|].
    apply map_ext_in. intros [k r] Hin. cbn [fst snd].
    destruct (Hr _ _ Hin) as [Hfind _].
    destruct (find_entry_spec _ _ _ Hfind) as [_ Hk]. congruence. }
  assert (Hnodup : NoDup ids).
  { apply (Permutation_NoDup (Permutation_sym Hids)), Hn. }
  assert (Hsame : forall id, In id ids <-> In id (map name entries)).
  { intros id. unfold ids. rewrite !in_map_iff. split.
    - intros (r & <- & Hin). exists (base r). split; [reflexivity|].
      destruct (Hrec r Hin) as [Hfind _].
      apply (find_entry_spec _ _ _ Hfind).
    - intros (e & <- & Hin). destruct (Hall e Hin) as (r & Hl & Hin').
      exists r. split; [|exact Hin'].
      destruct (Hrec r Hin') as (_ & Hl' & _).
      apply lookup_In in Hl. destruct (Hr _ _ Hl) as [Hfind _].
      destruct (find_entry_spec _ _ _ Hfind) as [_ Hk]. congruence. }
  split; [exact Hnodup|]. split; [exact Hsame|].
  rewrite <- (length_map (fun r => name (base r))).
  apply Permutation_length, NoDup_Permutation;
    [exact Hnodup|apply NoDup_nodup|].
  intros id. rewrite nodup_In. apply Hsame.
Qed.

(** An instance: the page where two entries share the id a has three
    entries and two records. *)
Lemma one_record_for_each_id_witness :
  exists (rep : CompilationReport) (st : State),
    compileScrollData 3 Pages.twins = Ok (rep, st)
    /\ NoDup (map (fun r => name (base r)) (compilationResult rep))
    /\ (forall id, In id (map (fun r => name (base r))
                              (compilationResult rep))
                   <-> In id (map name Pages.twins))
    /\ List.length (compilationResult rep) = 2%nat.
Proof.
  eexists. eexists.
  assert (E : compileScrollData 3 Pages.twins = Ok (_, _))
    by (vm_compute; reflexivity).
  split; [exact E|].
  destruct (one_record_for_each_id _ _ _ _ E) as (H1 & H2 & H3).
  split; [exact H1|]. split; [exact H2|]. reflexivity.
Defined.

End ReportFacts.

(** ** The extent of the report and the records of the pass *)

Module MaximumFacts.

Import Scrollomat Notions PassNotions InvariantFacts ExtentFacts PassFacts
       ReportFacts.
Local Open Scope float_scope.

Lemma is_maximum_same (M : float) (xs ys : list float) :
  (forall x, In x xs <-> In x ys) -> is_maximum M xs -> is_maximum M ys.
Proof.
  intros H [[Hn (x & Hx & Hnan)]|[Hin Hle]].
  - left. split; [exact Hn|]. exists x. split; [apply H, Hx|exact Hnan].
  - right. split; [apply H, Hin|]. intros x Hx. apply Hle, H, Hx.
Qed.



End MaximumFacts.


(** ** References to other entries *)

Module ReferenceFacts.

Import Scrollomat Notions PassNotions Hoare RequestFacts InvariantFacts
       RecordFacts PassFacts.
Local Open Scope float_scope.

(** After a call that returns, the id it was made for is a property of
    the map: its own or an inherited one. *)
Lemma request_compiles (fuel : nat) (id : option string) (st st' : State) :
  requestForProcessing fuel id st = Ok st' ->
  property (compilationMap st') (property_key id) <> Missing.
Proof.
  destruct fuel as [|fuel]; [discriminate|]. cbn [requestForProcessing].
  destruct (property (compilationMap st) (property_key id)) eqn:Ep;
    try (intros E; injection E as <-; rewrite Ep; discriminate).
  destruct (find_entry id (entriesToProcess st)) as [ent|] eqn:Ef;
    [|discriminate].
  destruct (find_entry_spec _ _ _ Ef) as [_ ->].
  destruct (instructionLines (instruction ent)) as [isAbs lines].
  destruct (forEach _ _ _) as [[r st1]| | |]; try discriminate.
  cbn [bind]. intros E. injection E as <-. unfold finish, property.
  cbn [compilationMap set_compilationMap set_entriesToProcess property_key].
  rewrite lookup_assign, String.eqb_refl. discriminate.
Qed.

(** A record is read after the call only from an own property. *)
Lemma compiled_after_request (fuel : nat) (id : option string)
      (st st' : State) :
  requestForProcessing fuel id st = Ok st' ->
  match property (compilationMap st') (property_key id) with
  | Compiled _ => is_key (compilationMap st') (property_key id) = true
  | Member => True
  | Missing => False
  end.
Proof.
  intros E. apply request_compiles in E. unfold property, is_key in *.
  destruct (lookup _ _); [reflexivity|].
  destruct (inherited _); [exact I|congruence].
Qed.

(** A call for an id that is compiled changes nothing. *)
Lemma request_again (fuel : nat) (id : option string) (st : State) :
  is_key (compilationMap st) (property_key id) = true ->
  requestForProcessing (S fuel) id st = Ok st.
Proof.
  unfold is_key, property. cbn [requestForProcessing]. unfold property.
  destruct (lookup _ _); [reflexivity|discriminate].
Qed.

(** Keys are never taken out of the map. *)
Lemma key_stays_console (k : string) message st :
  is_key (compilationMap st) k = true ->
  is_key (compilationMap (console_error message st)) k = true.
Proof. trivial. Qed.

Lemma key_stays_write (k : string) st key r axis xs :
  is_key (compilationMap st) k = true ->
  lookup (compilationMap st) key = Some r ->
  is_key (compilationMap
            (set_compilationMap
               (assign (compilationMap st) key
                  (set_absolute axis
                     (set_value (Some xs) (absolute axis r)) r))
               st)) k = true.
Proof.
  intros H _. cbn [compilationMap set_compilationMap].
  rewrite is_key_assign, H. apply orb_true_r.
Qed.

Lemma key_stays_finish (k : string) st ent r :
  is_key (compilationMap st) k = true ->
  is_key (compilationMap (finish ent r st)) k = true.
Proof.
  intros H. unfold finish.
  cbn [compilationMap set_compilationMap set_entriesToProcess].
  rewrite is_key_assign, H. apply orb_true_r.
Qed.

Lemma key_stays_directive (k : string) fuel ent isAbs line r st r' st' :
  is_key (compilationMap st) k = true ->
  directive (requestForProcessing fuel) ent isAbs line (r, st)
  = Ok (r', st') ->
  is_key (compilationMap st') k = true.
Proof.
  apply (directive_keeps (fun s => is_key (compilationMap s) k = true)
           (key_stays_console k) (key_stays_write k) (key_stays_finish k)).
Qed.

(** A directive that returns has compiled the id it refers to. *)
Lemma directive_requests (fuel : nat) (e : ScrollInstruction) (isAbs : bool)
      (line : string) (id : option string)
      (r r' : CompiledScrollInstruction) (st st' : State) :
  directive (requestForProcessing fuel) e isAbs line (r, st) = Ok (r', st') ->
  referred line = Some id ->
  is_key (compilationMap st') (property_key id) = true.
Proof.
  intros E Href.
  enough (H : exists st1,
             is_key (compilationMap st1) (property_key id) = true
             /\ directive (requestForProcessing fuel) e isAbs line (r, st1)
                = Ok (r', st')).
  { destruct H as (st1 & Hk & E1).
    apply (key_stays_directive _ _ _ _ _ _ _ _ _ Hk E1). }
  unfold referred in Href. unfold directive in E |- *.
  destruct (negb (JS.includes directives _)); [discriminate|].
  unfold resolveReferent in E |- *.
  set (keyword := hd "" (JS.split line " ")) in *.
  set (dataParameter :=
         JS.slice_from (JS.split_spaces (JS.trim line)) 1) in *.
  destruct (equals (nth_error dataParameter 0) "like") eqn:Elike.
  - injection Href as <-.
    destruct (requestForProcessing fuel (nth_error dataParameter 1) st)
      as [st1| | |] eqn:Er; try discriminate.
    destruct fuel as [|fuel]; [discriminate|].
    pose proof (compiled_after_request _ _ _ _ Er) as Hk.
    cbn [bind] in E.
    destruct (property (compilationMap st1)
                       (property_key (nth_error dataParameter 1)))
      as [r1| |] eqn:Ep; [|discriminate E|destruct Hk].
    exists st1. split; [exact Hk|].
    rewrite (request_again fuel _ _ Hk). cbn [bind]. rewrite Ep. exact E.
  - destruct (JS.includes ["enter"; "leave"] keyword) eqn:Ekw;
      [|discriminate].
    cbn [andb] in Href. cbn [bind] in E |- *.
    unfold checkAllowReferent in E |- *. rewrite Ekw in E |- *.
    cbn [negb] in E |- *.
    assert (Hcase :
              forall (K : outcome State -> outcome Locals),
                K (requestForProcessing fuel (nth_error dataParameter 1) st)
                = Ok (r', st') ->
                (forall m, K m = Ok (r', st') ->
                           exists s,
                             m = Ok s
                             /\ is_key (compilationMap s)
                                       (property_key
                                          (nth_error dataParameter 1))
                                = true) ->
                exists st1,
                  is_key (compilationMap st1)
                         (property_key (nth_error dataParameter 1)) = true
                  /\ K (requestForProcessing fuel
                          (nth_error dataParameter 1) st1) = Ok (r', st')).
    { intros K HK Hstrict.
      destruct (Hstrict _ HK) as (st1 & Er & Hk).
      destruct fuel as [|fuel]; [discriminate|].
      exists st1. split; [exact Hk|].
      rewrite (request_again fuel _ _ Hk). rewrite Er in HK. exact HK. }
    destruct (equals (nth_error dataParameter 0) "with-entry");
      [|destruct (equals (nth_error dataParameter 0) "with-exit");
        [|destruct (equals (nth_error dataParameter 0) "after-entry");
          [|destruct (equals (nth_error dataParameter 0) "after-exit");
            [|discriminate]]]];
      injection Href as <-;
      match type of E with
      | context C [requestForProcessing fuel ?i st] =>
          let K := constr:(fun m : outcome State =>
                             ltac:(let t := context C [m] in
                                   match t with ?a = _ => exact a end)) in
          apply (Hcase K E); intros m Hm; destruct m as [s| | |];
            [|discriminate Hm..];
            exists s; split; [reflexivity|];
            cbn [bind] in Hm; unfold compiled, property, is_key in *;
            destruct (lookup (compilationMap s) _);
            [reflexivity|destruct (inherited _); discriminate Hm]
      end.
Qed.

(** [forEach], with what holds of the elements gone through. *)
Lemma forEach_sat_done {A S : Type} (Q : list A -> S -> Prop) (D : Prop)
      (f : A -> S -> outcome S) (xs : list A) :
  forall done s,
    (forall pre x s, Q pre s -> sat (Q (pre ++ [x])) D (f x s)) ->
    Q done s -> sat (Q (done ++ xs)) D (forEach f xs s).
Proof.
  induction xs as [|x xs IH]; intros done s Hf Hs; cbn [forEach].
  - rewrite app_nil_r. exact Hs.
  - eapply sat_bind; [apply Hf, Hs|].
    intros s' Hs'. replace (done ++ x :: xs) with ((done ++ [x]) ++ xs)
      by (rewrite <- app_assoc; reflexivity).
    apply IH; assumption.
Qed.

Lemma resolved_console K message st :
  resolved_with K st -> resolved_with K (console_error message st).
Proof. intros H. exact H. Qed.

Lemma resolved_write K st key r axis xs :
  resolved_with K st -> lookup (compilationMap st) key = Some r ->
  resolved_with K
    (set_compilationMap
       (assign (compilationMap st) key
          (set_absolute axis (set_value (Some xs) (absolute axis r)) r))
       st).
Proof.
  intros [Hr HK] Hl. split.
  - intros k r' Hin line id Hline Hid.
    apply key_stays_write; [|exact Hl].
    cbn [compilationMap set_compilationMap] in Hin.
    apply In_assign in Hin as [E|Hin]; [|apply (Hr k r' Hin line id); auto].
    injection E as -> ->. apply lookup_In in Hl.
    apply (Hr _ _ Hl line id); auto.
  - intros k Hk. apply key_stays_write; [apply HK, Hk|exact Hl].
Qed.

Lemma resolved_finish K st ent r :
  resolved_with K st -> base r = ent ->
  (forall line id, In line (directives_of ent) -> referred line = Some id ->
                   is_key (compilationMap st) (property_key id) = true) ->
  resolved_with K (finish ent r st).
Proof.
  intros [Hr HK] Hb Hlines. split.
  - intros k r' Hin line id Hline Hid. apply key_stays_finish.
    unfold finish in Hin.
    cbn [compilationMap set_compilationMap set_entriesToProcess] in Hin.
    apply In_assign in Hin as [E|Hin]; [|apply (Hr k r' Hin line id); auto].
    injection E as -> ->. cbn [base set_leaveAt] in Hline.
    rewrite Hb in Hline. apply (Hlines line id); auto.
  - intros k Hk. apply key_stays_finish, HK, Hk.
Qed.

(** A call keeps the references of the compiled records compiled. *)
Lemma call_resolved (fuel : nat) :
  forall (K : string -> Prop) (id : option string) (st : State),
    resolved_with K st ->
    sat (resolved_with K) True (requestForProcessing fuel id st).
Proof.
  induction fuel as [|fuel IH]; intros K id st Hst; [exact I|].
  cbn [requestForProcessing].
  destruct (property (compilationMap st) (property_key id));
    try exact Hst.
  destruct (find_entry id (entriesToProcess st)) as [ent|] eqn:Efind;
    [|exact I].
  pose proof (eq_refl (directives_of ent)) as Hlines.
  unfold directives_of at 1 in Hlines.
  destruct (instructionLines (instruction ent)) as [isAbs lines].
  cbn [snd] in Hlines. rewrite Hlines. clear Hlines.
  eapply sat_bind.
  { apply (forEach_sat_done
             (fun done (l : Locals) =>
                resolved_with K (snd l)
                /\ same_entry (set_isAbsolute isAbs (initial ent)) (fst l)
                /\ forall line id,
                    In line done -> referred line = Some id ->
                    is_key (compilationMap (snd l)) (property_key id) = true)
             True _ (directives_of ent) []).
    - intros pre line [r st1] (H1 & H2 & H3). cbn [fst snd] in H1, H2, H3.
      set (K' := fun k => K k
                          \/ exists line' id',
                               In line' pre /\ referred line' = Some id'
                               /\ k = property_key id').
      assert (H1' : resolved_with K' st1).
      { split; [apply H1|]. intros k [Hk|(line' & id' & Hin & Hid & ->)].
        - apply H1, Hk.
        - apply (H3 line' id'); assumption. }
      pose proof (directive_sat (resolved_with K') True
                    (requestForProcessing fuel) ent isAbs
                    (fun id' st' H' => IH K' id' st' H')
                    (resolved_console K') (resolved_write K')
                    line (r, st1) H1') as Hd.
      pose proof (directive_kept (requestForProcessing fuel) ent isAbs
                    (set_isAbsolute isAbs (initial ent)) line (r, st1) H2)
        as Hk.
      destruct (directive _ _ _ _ _) as [[r2 st2]| | |] eqn:Ed;
        cbn [sat fst snd] in *; trivial.
      destruct Hd as [Hres HK']. unfold PL in *. cbn [snd] in *.
      split; [|split].
      + split; [exact Hres|]. intros k Hk'. apply HK'. left. exact Hk'.
      + exact Hk.
      + intros line' id' Hin Hid. apply in_app_iff in Hin as [Hin|[<-|[]]].
        * apply HK'. right. exists line', id'. auto.
        * apply (directive_requests _ _ _ _ _ _ _ _ _ Ed Hid).
    - cbn [fst snd]. split; [exact Hst|]. split; [split; reflexivity|].
      intros line0 id0 []. }
  intros [r st1] (H1 & [Hb _] & H3). cbn [fst snd sat app] in *.
  apply resolved_finish; auto.
Qed.

Lemma drain_resolved (fuel : nat) :
  forall (rounds : nat) (st st' : State),
    resolved_with (fun _ => False) st -> drain fuel rounds st = Ok st' ->
    resolved_with (fun _ => False) st'.
Proof.
  induction rounds as [|rounds IH]; intros st st' Hst E;
    cbn [drain] in E; destruct (entriesToProcess st) as [|first rest].
  - injection E as <-. exact Hst.
  - discriminate.
  - injection E as <-. exact Hst.
  - pose proof (call_resolved fuel _ (Some (name first)) st Hst) as H.
    destruct (requestForProcessing fuel (Some (name first)) st) as [st1| | |];
      try discriminate.
    cbn [bind] in E. apply (IH st1 st' H E).
Qed.



End ReferenceFacts.

(** ** Referents of enter and leave *)

Module ReferentFacts.

Import Scrollomat Notions PassNotions Hoare RequestFacts InvariantFacts.
Local Open Scope float_scope.

(** X5: during a pass, an [enter] directive with a referent word makes
    the element enter at the time the word denotes of the element it
    names: when that one enters ([with-entry]), when it leaves
    ([with-exit]), or that time plus the number that follows
    ([after-entry], [after-exit]); a [leave] directive sets the
    duration to that time minus the time the element enters.  The
    element named is compiled first, and nothing else changes. *)
Theorem referent_words_denote_the_times_of_the_other
        (entries : list ScrollInstruction) (fuel : nat)
        (e : ScrollInstruction) (isAbs : bool)
        (line keyword word id : string) (more : list string)
        (r r' : CompiledScrollInstruction) (st st' : State) :
  reachable entries st ->
  hd "" (JS.split line " ") = keyword ->
  In keyword ["enter"; "leave"] ->
  JS.slice_from (JS.split_spaces (JS.trim line)) 1 = word :: id :: more ->
  In word referent_words ->
  directive (requestForProcessing fuel) e isAbs line (r, st) = Ok (r', st') ->
  requestForProcessing fuel (Some id) st = Ok st'
  /\ exists source,
      lookup (compilationMap st') id = Some source
      /\ let time := referent_time word source (hd_error more) in
         r' = if String.eqb keyword "enter" then set_enterAt time r
              else set_duration (time - enterAt r) r.
Proof.
  intros Hreach Hk Hkw Hdp Hword E.
  assert (Hrun :
            match requestForProcessing fuel (Some id) st with
            | Ok st1 =>
                match property (compilationMap st1) id with
                | Compiled source =>
                    Ok (if String.eqb keyword "enter"
                        then set_enterAt
                               (if String.eqb word "with-entry"
                                then enterAt source
                                else if String.eqb word "with-exit"
                                then enterAt source + duration source
                                else if String.eqb word "after-entry"
                                then enterAt source
                                     + JS.parseInt (hd_error more)
                                else enterAt source + duration source
                                     + JS.parseInt (hd_error more)) r
                        else set_duration
                               ((if String.eqb word "with-entry"
                                 then enterAt source
                                 else if String.eqb word "with-exit"
                                 then enterAt source + duration source
                                 else if String.eqb word "after-entry"
                                 then enterAt source
                                      + JS.parseInt (hd_error more)
                                 else enterAt source + duration source
                                      + JS.parseInt (hd_error more))
                                - enterAt r) r, st1)
                | Member => NotARecord
                | Missing =>
                    Throw (TypeError "Cannot read properties of undefined")
                end
            | Throw x => Throw x
            | OutOfFuel => OutOfFuel
            | NotARecord => NotARecord
            end = Ok (r', st')).
  { rewrite <- E. unfold directive. rewrite Hk, Hdp.
    unfold resolveReferent, checkAllowReferent, compiled.
    cbn [nth_error property_key].
    destruct Hword as [<-|[<-|[<-|[<-|[]]]]];
      destruct Hkw as [<-|[<-|[]]]; cbn;
      destruct (requestForProcessing fuel (Some id) st) as [st1| | |];
      cbn -[property]; try reflexivity;
      destruct (property (compilationMap st1) id); cbn; try reflexivity;
      destruct more; reflexivity. }
  destruct (requestForProcessing fuel (Some id) st) as [st1| | |] eqn:Er;
    try discriminate Hrun.
  pose proof (reachable_invariant _ _ (reach_call _ _ _ _ _ Hreach Er))
    as Hinv.
  destruct (property (compilationMap st1) id) as [source| |] eqn:El;
    try discriminate Hrun.
  apply property_Compiled in El.
  pose proof (Hinv _ _ (lookup_In _ _ _ El)) as Hleave.
  unfold leaves_after_duration in Hleave.
  injection Hrun as <- <-. split; [reflexivity|].
  exists source. split; [exact El|]. cbv zeta. unfold referent_time.
  rewrite Hleave. reflexivity.
Qed.

(** An instance: ['enter with-exit a'] on the page [twins], where a
    enters at 10 and lasts 100. *)
Lemma referent_words_denote_the_times_of_the_other_witness :
  let e := Examples.entry "b" "enter with-exit a" in
  let st := {| compilationMap := []; entriesToProcess := Pages.twins;
               console := [] |} in
  exists (r' : CompiledScrollInstruction) (st' : State),
    directive (requestForProcessing 2) e false "enter with-exit a"
              (initial e, st) = Ok (r', st')
    /\ requestForProcessing 2 (Some "a") st = Ok st'
    /\ exists source,
        lookup (compilationMap st') "a" = Some source
        /\ r' = set_enterAt (leaveAt source) (initial e).
Proof.
  cbv zeta. eexists. eexists.
  assert (E : directive (requestForProcessing 2)
                (Examples.entry "b" "enter with-exit a") false
                "enter with-exit a"
                (initial (Examples.entry "b" "enter with-exit a"),
                 {| compilationMap := []; entriesToProcess := Pages.twins;
                    console := [] |})
              = Ok (_, _)) by (vm_compute; reflexivity).
  split; [exact E|].
  apply (referent_words_denote_the_times_of_the_other
           Pages.twins 2 (Examples.entry "b" "enter with-exit a") false
           "enter with-exit a" "enter" "with-exit" "a" []).
  - apply reach_start.
  - reflexivity.
  - left. reflexivity.
  - reflexivity.
  - right. left. reflexivity.
  - exact E.
Defined.

End ReferentFacts.

(** ** The easing curves *)

Module CurveFacts.

Import BezierEasing FloatOrder.
#[local] Set Warnings "-inexact-float".
Local Open Scope float_scope.

Lemma leb_not_ltb (x y : float) :
  (x <=? y) = true -> (y <? x) = false.
Proof.
  intros H. destruct (y <? x) eqn:E; trivial. exfalso.
  rewrite leb_spec in H. rewrite ltb_spec in E.
  destruct (SFleb_not_nan _ _ H) as [Hx Hy].
  apply SFleb_key in H; trivial. apply SFltb_key in E; trivial.
  unfold Notions.key_le, Notions.key_lt in *.
  destruct (Notions.key (Prim2SF x)) as [[a1 a2] a3].
  destruct (Notions.key (Prim2SF y)) as [[b1 b2] b3]. lia.
Qed.

Lemma finite_not_nan (x : float) :
  JS.isFinite x = true -> JS.isNaN x = false.
Proof.
  unfold JS.isFinite, JS.isNaN, PrimFloat.is_finite.
  destruct (PrimFloat.is_nan x); [discriminate|reflexivity].
Qed.

Lemma valid_argument_finite (a : option float) :
  valid_argument a = true <-> exists x, a = Some x /\ JS.isFinite x = true.
Proof.
  destruct a as [x|]; cbn [valid_argument].
  - split.
    + intros H. apply andb_prop in H as [_ H]. eauto.
    + intros (y & E & H). injection E as <-.
      rewrite (finite_not_nan _ H), H. reflexivity.
  - split; [discriminate|intros (y & E & _); discriminate].
Qed.

Lemma in_range (x : float) :
  JS.isNaN x = false ->
  (x <? 0) || (1 <? x) = false <-> (0 <=? x) = true /\ (x <=? 1) = true.
Proof.
  intros Hn. rewrite orb_false_iff. split.
  - intros [H0 H1]. split; apply leb_total; trivial.
  - intros [H0 H1]. split; apply leb_not_ltb; trivial.
Qed.

(** What the constructor has checked when it returns. *)
Lemma new_checked (env : Environment) (x1 y1 x2 y2 : option float) (b : t) :
  new env x1 y1 x2 y2 = Return b ->
  exists mX1 mY1 mX2 mY2 : float,
    x1 = Some mX1 /\ y1 = Some mY1 /\ x2 = Some mX2 /\ y2 = Some mY2
    /\ JS.isFinite mX1 = true /\ JS.isFinite mY1 = true
    /\ JS.isFinite mX2 = true /\ JS.isFinite mY2 = true
    /\ (0 <=? mX1) = true /\ (mX1 <=? 1) = true
    /\ (0 <=? mX2) = true /\ (mX2 <=? 1) = true
    /\ b = mk (repeat (if float32ArraySupported env then 0 else nan) 11)
              mX1 mY1 mX2 mY2 false.
Proof.
  unfold new. cbn [forallb]. rewrite andb_true_r.
  destruct (valid_argument x1) eqn:V1; [|discriminate].
  destruct (valid_argument y1) eqn:V2; [|discriminate].
  destruct (valid_argument x2) eqn:V3; [|discriminate].
  destruct (valid_argument y2) eqn:V4; [|discriminate].
  apply valid_argument_finite in V1 as (a1 & -> & F1).
  apply valid_argument_finite in V2 as (b1 & -> & F2).
  apply valid_argument_finite in V3 as (a2 & -> & F3).
  apply valid_argument_finite in V4 as (b2 & -> & F4).
  cbn [andb negb].
  destruct (a1 <? 0) eqn:A1, (1 <? a1) eqn:B1, (a2 <? 0) eqn:A2,
           (1 <? a2) eqn:B2; try discriminate.
  cbn [orb]. intros E. injection E as <-.
  pose proof (finite_not_nan _ F1). pose proof (finite_not_nan _ F3).
  exists a1, b1, a2, b2.
  repeat (split; [first [reflexivity|assumption|now apply leb_total]|]).
  reflexivity.
Qed.

(** X6: the constructor returns a curve exactly when its four
    arguments are finite numbers (none of them [undefined], NaN or
    infinite) and [0 <= mX1 <= 1] and [0 <= mX2 <= 1]; [mY1] and [mY2]
    may be any finite numbers.  The curve then has the four arguments as
    its fields, a table of 11 entries, and nothing precomputed. *)
Theorem constructor_wants_finite_numbers_and_x_in_range
        (env : Environment) (x1 y1 x2 y2 : option float) (b : t) :
  new env x1 y1 x2 y2 = Return b
  <-> exists mX1 mY1 mX2 mY2 : float,
        x1 = Some mX1 /\ y1 = Some mY1 /\ x2 = Some mX2 /\ y2 = Some mY2
        /\ JS.isFinite mX1 = true /\ JS.isFinite mY1 = true
        /\ JS.isFinite mX2 = true /\ JS.isFinite mY2 = true
        /\ (0 <=? mX1) = true /\ (mX1 <=? 1) = true
        /\ (0 <=? mX2) = true /\ (mX2 <=? 1) = true
        /\ b = mk (repeat (if float32ArraySupported env then 0 else nan) 11)
                  mX1 mY1 mX2 mY2 false.
Proof.
  split; [apply new_checked|].
  intros (a1 & b1 & a2 & b2 & -> & -> & -> & -> & F1 & F2 & F3 & F4
          & L1 & U1 & L2 & U2 & ->).
  unfold new. cbn [forallb]. rewrite andb_true_r.
  assert (V : forall x, JS.isFinite x = true ->
                        valid_argument (Some x) = true).
  { intros x F. apply valid_argument_finite. eauto. }
  rewrite !V by assumption. cbn [andb negb].
  rewrite (leb_not_ltb _ _ L1), (leb_not_ltb _ _ U1),
    (leb_not_ltb _ _ L2), (leb_not_ltb _ _ U2).
  reflexivity.
Qed.

Lemma precompute_precomputed (env : Environment) (b : t) :
  _precomputed (precompute env b) = true.
Proof. unfold precompute. destruct (_ || _); reflexivity. Qed.

Lemma precompute_twice (env : Environment) (b : t) :
  precompute env (precompute env b) = precompute env b.
Proof.
  unfold precompute. destruct b as [table a1 b1 a2 b2 done].
  cbn [mX1 mY1 mX2 mY2 mSampleValues _precomputed].
  destruct (negb (a1 =? b1) || negb (a2 =? b2)) eqn:E;
    unfold calcSampleValues;
    cbn [mX1 mY1 mX2 mY2 mSampleValues _precomputed]; rewrite E;
    reflexivity.
Qed.

Lemma snd_evaluate (env : Environment) (b : t) (p : float) :
  snd (evaluate env b p) = if _precomputed b then b else precompute env b.
Proof.
  unfold evaluate. destruct (_precomputed b); cbn [negb].
  - destruct (linear b), (p <=? 0), (JS.geb p 1); reflexivity.
  - destruct (linear (precompute env b)), (p <=? 0), (JS.geb p 1);
      reflexivity.
Qed.

(** X7: [evaluate] computes the table once: the object it leaves is
    precomputed, a second [evaluate] on it returns what a first one on
    the object as constructed returns, and leaves it as it is; and
    [precompute] on the object [evaluate] leaves changes nothing. *)
Theorem evaluate_computes_the_table_once
        (env : Environment) (b : t) (p q : float) :
  let cached := snd (evaluate env b p) in
  _precomputed cached = true
  /\ evaluate env cached q = (fst (evaluate env b q), cached)
  /\ (_precomputed b = false -> precompute env cached = cached).
Proof.
  cbv zeta. rewrite snd_evaluate.
  destruct (_precomputed b) eqn:Eb.
  - split; [exact Eb|]. split; [|discriminate].
    rewrite (surjective_pairing (evaluate env b q)) at 1.
    rewrite snd_evaluate, Eb. reflexivity.
  - pose proof (precompute_precomputed env b) as Hc.
    split; [exact Hc|]. split; [|intros _; apply precompute_twice].
    rewrite (surjective_pairing (evaluate env (precompute env b) q)).
    rewrite snd_evaluate, Hc. f_equal.
    unfold evaluate. rewrite Hc, Eb. reflexivity.
Qed.

Lemma eqb_refl (x : float) : JS.isNaN x = false -> (x =? x) = true.
Proof.
  unfold JS.isNaN, PrimFloat.is_nan. destruct (x =? x); [trivial|discriminate].
Qed.

Lemma new_table (env : Environment) (x1 y1 x2 y2 : option float) (b : t) :
  new env x1 y1 x2 y2 = Return b ->
  List.length (mSampleValues (precompute env b)) = kSplineTableSize.
Proof.
  intros H.
  apply new_checked in H
    as (a1 & b1 & a2 & b2 & _ & _ & _ & _ & _ & _ & _ & _ & _ & _ & _ & _
        & ->).
  unfold precompute. cbn [mX1 mY1 mX2 mY2 mSampleValues _precomputed].
  destruct (_ || _); unfold calcSampleValues; cbn [mSampleValues].
  - rewrite length_map, length_seq. reflexivity.
  - apply repeat_length.
Qed.

(** The [for] loop of [getTForX]: where it stops, and what it went by. *)
Lemma getTForX_loop_spec (this : t) (aX : float) :
  forall (left : nat) (intervalStart : float) (currentSample : nat),
    let stop := snd (getTForX_loop this left aX intervalStart currentSample) in
    (currentSample <= stop <= currentSample + left)%nat
    /\ (forall i, (currentSample <= i < stop)%nat ->
                   (sample this i <=? aX) = true)
    /\ ((stop < currentSample + left)%nat ->
        (sample this stop <=? aX) = false).
Proof.
  induction left as [|left IH]; intros s c; cbn [getTForX_loop].
  - cbn [snd]. repeat split; try lia.
  - destruct (sample this c <=? aX) eqn:E.
    + specialize (IH (s + kSampleStepSize) (S c)). cbv zeta in IH.
      destruct IH as (Hb & Hle & Hgt).
      split; [lia|]. split.
      * intros i Hi. destruct (Nat.eq_dec i c) as [->|Hne]; [exact E|].
        apply Hle. lia.
      * intros Hs. apply Hgt. lia.
    + cbn [snd]. split; [lia|]. split.
      * intros i Hi. lia.
      * intros _. exact E.
Qed.

(** X8: the search of [getTForX] in the table of a constructed curve
    stays inside the table and brackets the progress: the loop stops at
    an index between 1 and 10, so that the two entries read (at the
    index before it and at it) are among the 11 of the table; every
    entry the loop went by is [<= aX]; and unless the loop stops at the
    last index, the entry it stops at is not. *)
Theorem table_search_stays_inside_and_brackets
        (env : Environment) (x1 y1 x2 y2 : option float) (b : t)
        (aX : float) :
  new env x1 y1 x2 y2 = Return b ->
  let this := precompute env b in
  let stop := snd (getTForX_loop this 9 aX 0 1) in
  (1 <= stop <= 10)%nat
  /\ nth_error (mSampleValues this) (stop - 1)
     = Some (sample this (stop - 1))
  /\ nth_error (mSampleValues this) stop = Some (sample this stop)
  /\ (forall i, (1 <= i < stop)%nat -> (sample this i <=? aX) = true)
  /\ ((stop < 10)%nat -> (sample this stop <=? aX) = false).
Proof.
  intros Hnew this stop.
  pose proof (new_table _ _ _ _ _ _ Hnew) as Hlen. fold this in Hlen.
  destruct (getTForX_loop_spec this aX 9 0 1) as (Hb & Hle & Hgt).
  fold stop in Hb, Hle, Hgt.
  assert (Hread : forall i, (i < kSplineTableSize)%nat ->
                            nth_error (mSampleValues this) i
                            = Some (sample this i)).
  { intros i Hi. unfold sample. apply nth_error_nth'. lia. }
  unfold kSplineTableSize in Hread.
  repeat split; try lia; try (apply Hread; lia); assumption.
Qed.

(** An instance: the curve (0.25, 0.1, 0.25, 1) and the progress 0.5. *)
Lemma table_search_stays_inside_and_brackets_witness :
  let this :=
    precompute Examples.page
               (mk (repeat 0 kSplineTableSize) 0.25 0.1 0.25 1 false) in
  let stop := snd (getTForX_loop this 9 0.5 0 1) in
  (1 <= stop <= 10)%nat
  /\ nth_error (mSampleValues this) (stop - 1)
     = Some (sample this (stop - 1))
  /\ nth_error (mSampleValues this) stop = Some (sample this stop)
  /\ (forall i, (1 <= i < stop)%nat -> (sample this i <=? 0.5) = true)
  /\ ((stop < 10)%nat -> (sample this stop <=? 0.5) = false).
Proof.
  apply (table_search_stays_inside_and_brackets Examples.page
           (Some 0.25) (Some 0.1) (Some 0.25) (Some 1)).
  reflexivity.
Defined.

(** X9: on a curve whose control points lie on the diagonal
    ([mX1 = mY1], [mX2 = mY2]), [computeBezier] is the clamp to
    [0, 1]: 1 for a progress [>= 1], 0 for one [<= 0], and the progress
    itself in between (and for NaN).  The evaluator every record starts
    with, built on the curve (0, 0, 1, 1), therefore moves the element
    linearly: its top is [100 - clamp(t) * (100 + height ratio * 100)]. *)
Theorem diagonal_curve_is_the_clamp
        (env : Environment) (a b : float) (c : t) (t : float)
        (m : Scrollomat.CompilationMap) (e : HTMLElement) :
  new env (Some a) (Some a) (Some b) (Some b) = Return c ->
  let clamp := if JS.geb t 1 then 1 else if t <=? 0 then 0 else t in
  Scrollomat.computeBezier env t (Some a) (Some a) (Some b) (Some b)
  = Return clamp
  /\ Scrollomat.call env m
       (Scrollomat.yEasingFunction
          (Scrollomat.scrollListeners
             (Scrollomat.initial
                {| Scrollomat.element := e; Scrollomat.instruction := "";
                   Scrollomat.name := "" |}))) t
     = Return (Scrollomat.template
                 (100 - (if JS.geb t 1 then 1 else if t <=? 0 then 0 else t)
                        * (100 + Scrollomat.heightRatio env e * 100)) "vh").
Proof.
  intros Hnew clamp.
  assert (Hany : forall a b c,
             new env (Some a) (Some a) (Some b) (Some b) = Return c ->
             Scrollomat.computeBezier env t (Some a) (Some a) (Some b)
                                      (Some b)
             = Return (if JS.geb t 1 then 1 else if t <=? 0 then 0 else t)).
  { clear. intros a b c Hnew. unfold Scrollomat.computeBezier.
    destruct (JS.geb t 1); [reflexivity|].
    destruct (t <=? 0); [reflexivity|]. rewrite Hnew. f_equal.
    apply new_checked in Hnew
      as (a1 & b1 & a2 & b2 & Ea & Ea' & Eb & Eb' & F1 & _ & F3 & _ & _
          & _ & _ & _ & ->).
    injection Ea as <-. injection Ea' as <-. injection Eb as <-.
    injection Eb' as <-.
    unfold evaluate. cbn [_precomputed negb].
    rewrite BezierFacts.precompute_linear. unfold linear.
    cbn [mX1 mY1 mX2 mY2].
    rewrite !eqb_refl by (apply finite_not_nan; assumption). reflexivity. }
  split; [apply (Hany a b c Hnew)|].
  cbn [Scrollomat.initial Scrollomat.scrollListeners
       Scrollomat.yEasingFunction Scrollomat.call Scrollomat.element].
  unfold Scrollomat.computeBezier_spread. cbn [nth_error].
  rewrite (Hany 0 1 (mk (repeat (if float32ArraySupported env
                                  then 0 else nan) 11) 0 0 1 1 false)).
  - reflexivity.
  - reflexivity.
Qed.

(** An instance: the curve (0.5, 0.5, 0.5, 0.5) at the progress 0.25. *)
Lemma diagonal_curve_is_the_clamp_witness :
  Scrollomat.computeBezier Examples.page 0.25 (Some 0.5) (Some 0.5)
                           (Some 0.5) (Some 0.5) = Return 0.25.
Proof.
  apply (diagonal_curve_is_the_clamp Examples.page 0.5 0.5
           (mk (repeat 0 11) 0.5 0.5 0.5 0.5 false) 0.25 [] 0%nat).
  reflexivity.
Defined.

End CurveFacts.

(** ** Curves that cannot be constructed *)

Module ValidationFacts.

Import Scrollomat Notions.
Local Open Scope float_scope.

(** X10: [ease] with four parameters checks nothing of them: it sends
    no message and stores what [parseFloat] reads, also when no curve
    can be constructed from it (a parameter that is no number, or
    [mX1], [mX2] outside [0, 1]).  The evaluator it installs then
    throws the error of the constructor at every progress that is
    neither [>= 1] nor [<= 0], and returns at the others, where
    [computeBezier] answers before it constructs the curve. *)
Theorem ease_stores_a_curve_it_never_checks
        (env : Environment) (m : CompilationMap) (e : ScrollInstruction)
        (a b c d : string) (r : CompiledScrollInstruction) (st : State)
        (ex : exn) :
  let curve := map JS.parseFloat [a; b; c; d] in
  BezierEasing.new env (nth_error curve 0) (nth_error curve 1)
                   (nth_error curve 2) (nth_error curve 3) = Raise ex ->
  let compiled := directive_ease e false [a; b; c; d] None (r, st) in
  let height := 100 + heightRatio env (element (base r)) * 100 in
  snd compiled = st
  /\ yEasingCurve (fst compiled) = curve
  /\ forall t,
      call env m (yEasingFunction (scrollListeners (fst compiled))) t
      = if JS.geb t 1 then Return (template (100 - 1 * height) "vh")
        else if t <=? 0 then Return (template (100 - 0 * height) "vh")
        else Raise ex.
Proof.
  intros curve Hnew compiled height.
  split; [reflexivity|]. split; [reflexivity|]. intros t.
  cbn [compiled directive_ease fst List.length Nat.eqb negb set_listener
       set_scrollListeners scrollListeners yEasingFunction call base
       set_yEasingCurve].
  fold curve. unfold computeBezier_spread, computeBezier.
  destruct (JS.geb t 1); [reflexivity|].
  destruct (t <=? 0); [reflexivity|].
  rewrite Hnew. reflexivity.
Qed.

(** An instance: ['ease 2 0 1 1'], at the progress 0.5. *)
Lemma ease_stores_a_curve_it_never_checks_witness :
  let compiled :=
    directive_ease (Examples.entry "a" "ease 2 0 1 1") false
                   ["2"; "0"; "1"; "1"] None
                   (initial (Examples.entry "a" "ease 2 0 1 1"),
                    {| compilationMap := []; entriesToProcess := [];
                       console := [] |}) in
  console (snd compiled) = []
  /\ call Examples.page [] (yEasingFunction (scrollListeners (fst compiled)))
          0.5
     = Raise (Error "BezierEasing x values must be in [0, 1] range.").
Proof.
  cbv zeta.
  destruct (ease_stores_a_curve_it_never_checks
              Examples.page [] (Examples.entry "a" "ease 2 0 1 1")
              "2" "0" "1" "1"
              (initial (Examples.entry "a" "ease 2 0 1 1"))
              {| compilationMap := []; entriesToProcess := [];
                 console := [] |}
              (Error "BezierEasing x values must be in [0, 1] range.")
              eq_refl) as (Hst & _ & Hcall).
  split; [rewrite Hst; reflexivity|]. rewrite Hcall. reflexivity.
Defined.

End ValidationFacts.

(** ** Loading the page *)

Module LoadFacts.

Import Dom Instance.
Local Open Scope float_scope.

Lemma assoc_put {V : Type} (k k' : string) (v : V) (xs : list (string * V)) :
  assoc k (put k' v xs) = if String.eqb k' k then Some v else assoc k xs.
Proof.
  induction xs as [|[k0 v0] xs IH]; cbn [put assoc].
  - reflexivity.
  - destruct (String.eqb_spec k0 k') as [->|Hne]; cbn [assoc].
    + destruct (String.eqb k' k); reflexivity.
    + rewrite IH. destruct (String.eqb_spec k0 k) as [->|_]; [|reflexivity].
      destruct (String.eqb_spec k' k); [congruence|reflexivity].
Qed.

(** What [loadScrollData] makes of an element, and of the others. *)
Lemma loadScrollData_spec (host : Host) (e : HTMLElement) (this : t)
      (doc : Document) (instruction : string) :
  getAttribute doc e "scroll-data" = Some instruction ->
  exists (name : string) (doc' : Document),
    loadScrollData host e (this, doc)
    = Some (push_entry {| Scrollomat.element := e;
                          Scrollomat.instruction := instruction;
                          Scrollomat.name := name |} this, doc')
    /\ getAttribute doc' e "id" = Some name
    /\ (falsy (getAttribute doc e "id") = false ->
        getAttribute doc e "id" = Some name)
    /\ (falsy (getAttribute doc e "id") = true ->
        name = randomText host (randomCalls doc))
    /\ getAttribute doc' e "scroll-data" = Some instruction
    /\ In "scrollable" (classList (elements doc' e))
    /\ getStyle doc' e "top" = Some (Literal "200vh")
    /\ (forall x, x <> e -> elements doc' x = elements doc x)
    /\ Dom.children doc' = Dom.children doc.
Proof.
  intros Hdata. unfold loadScrollData.
  set (doc1 := if falsy (getAttribute doc e "id")
               then setAttribute e "id" (randomText host (randomCalls doc))
                                 (count_random doc)
               else doc).
  assert (H1 : exists name,
             getAttribute doc1 e "id" = Some name
             /\ (falsy (getAttribute doc e "id") = false ->
                 getAttribute doc e "id" = Some name)
             /\ (falsy (getAttribute doc e "id") = true ->
                 name = randomText host (randomCalls doc))
             /\ getAttribute doc1 e "scroll-data" = Some instruction
             /\ (forall x, x <> e -> elements doc1 x = elements doc x)
             /\ Dom.children doc1 = Dom.children doc).
  { unfold doc1. destruct (falsy (getAttribute doc e "id")) eqn:Ef.
    - exists (randomText host (randomCalls doc)).
      unfold getAttribute, setAttribute. cbn [elements set_element].
      rewrite Nat.eqb_refl. cbn [attributes]. rewrite !assoc_put.
      cbn [String.eqb Ascii.eqb Bool.eqb]. repeat split; trivial.
      + discriminate.
      + intros x Hx. apply Nat.eqb_neq in Hx. rewrite Hx. reflexivity.
    - unfold falsy, Scrollomat.truthy in Ef.
      destruct (getAttribute doc e "id") as [[|c name]|] eqn:Eid;
        try discriminate.
      exists (String c name). repeat split; trivial. discriminate. }
  destruct H1 as (name & Hid & Hkeep & Hrandom & Hdata1 & Hframe & Hchildren).
  exists name.
  exists (setStyle e "top" (Literal "200vh")
                   (classList_add e "scrollable" doc1)).
  assert (Hattr : forall k,
             getAttribute
               (setStyle e "top" (Literal "200vh")
                         (classList_add e "scrollable" doc1)) e k
             = getAttribute doc1 e k).
  { intros k. unfold getAttribute, setStyle, classList_add.
    cbn [elements set_element]. rewrite !Nat.eqb_refl. reflexivity. }
  cbv zeta. rewrite !Hattr, Hdata1, Hid.
  split; [reflexivity|]. split; [reflexivity|].
  split; [exact Hkeep|]. split; [exact Hrandom|].
  split; [reflexivity|]. split; [|split; [|split]].
  - unfold setStyle, classList_add. cbn [elements set_element].
    rewrite !Nat.eqb_refl. cbn [classList].
    destruct (JS.includes _ _) eqn:Ei.
    + unfold JS.includes in Ei. apply existsb_exists in Ei as (x & Hin & Hx).
      apply String.eqb_eq in Hx. subst x. exact Hin.
    + apply in_or_app. right. left. reflexivity.
  - unfold getStyle, setStyle. cbn [elements set_element].
    rewrite Nat.eqb_refl. cbn [style]. rewrite assoc_put. reflexivity.
  - intros x Hx. unfold setStyle, classList_add. cbn [elements set_element].
    apply Nat.eqb_neq in Hx. rewrite !Hx. apply Hframe.
    apply Nat.eqb_neq, Hx.
  - exact Hchildren.
Qed.

(** What the loop of [loadCanvas] makes of the elements it goes
    through, when each has the attribute and none comes twice. *)
Lemma load_each_spec (host : Host) :
  forall (es : list HTMLElement) (this : t) (doc : Document),
    NoDup es ->
    (forall e, In e es -> hasAttribute doc e "scroll-data" = true) ->
    exists (news : list Scrollomat.ScrollInstruction) (this' : t)
           (doc' : Document),
      load_each host es (this, doc) = Some (this', doc')
      /\ entries this' = entries this ++ news
      /\ map Scrollomat.element news = es
      /\ (forall n, In n news ->
            getAttribute doc (Scrollomat.element n) "scroll-data"
            = Some (Scrollomat.instruction n)
            /\ getAttribute doc' (Scrollomat.element n) "id"
               = Some (Scrollomat.name n)
            /\ (falsy (getAttribute doc (Scrollomat.element n) "id") = false
                -> getAttribute doc (Scrollomat.element n) "id"
                   = Some (Scrollomat.name n))
            /\ In "scrollable"
                  (classList (elements doc' (Scrollomat.element n)))
            /\ getStyle doc' (Scrollomat.element n) "top"
               = Some (Literal "200vh"))
      /\ (forall x, ~ In x es -> elements doc' x = elements doc x)
      /\ Dom.children doc' = Dom.children doc
      /\ canvas this' = canvas this
      /\ compilationResult this' = compilationResult this.
Proof.
  induction es as [|e es IH]; intros this doc Hnodup Hdata.
  - exists [], this, doc. cbn [load_each map]. rewrite app_nil_r.
    split; [reflexivity|]. split; [reflexivity|]. split; [reflexivity|].
    split; [intros n []|]. repeat (split; [reflexivity|]). reflexivity.
  - inversion Hnodup as [|? ? Hnotin Hnodup']; subst.
    assert (He : exists instruction,
               getAttribute doc e "scroll-data" = Some instruction).
    { specialize (Hdata e (or_introl eq_refl)). unfold hasAttribute in Hdata.
      destruct (getAttribute doc e "scroll-data"); [eauto|discriminate]. }
    destruct He as [instruction He].
    destruct (loadScrollData_spec host e this doc instruction He)
      as (name & doc1 & Hload & Hid & Hkeep & _ & Hdata1 & Hclass & Htop
          & Hframe & Hchildren).
    set (n0 := {| Scrollomat.element := e;
                  Scrollomat.instruction := instruction;
                  Scrollomat.name := name |}) in *.
    assert (Hsame : forall x, In x es -> elements doc1 x = elements doc x).
    { intros x Hx. apply Hframe. intros ->. contradiction. }
    destruct (IH (push_entry n0 this) doc1 Hnodup')
      as (news & this' & doc' & Hrest & Hentries & Hmap & Hnews & Hframe'
          & Hchildren' & Hcanvas & Hresult).
    { intros x Hx. unfold hasAttribute, getAttribute. rewrite (Hsame x Hx).
      apply (Hdata x). right. exact Hx. }
    exists (n0 :: news), this', doc'. cbn [load_each]. rewrite Hload.
    split; [exact Hrest|]. split.
    { rewrite Hentries. cbn [entries push_entry]. rewrite <- app_assoc.
      reflexivity. }
    split; [cbn [map]; rewrite Hmap; reflexivity|].
    split; [|split; [|split; [|split]]].
    + intros ent [<-|Hent].
      * cbn [Scrollomat.element Scrollomat.instruction Scrollomat.name n0].
        unfold getAttribute, getStyle in *. rewrite (Hframe' e Hnotin).
        auto.
      * destruct (Hnews ent Hent) as (H1 & H2 & H3 & H4 & H5).
        assert (Hin : In (Scrollomat.element ent) es).
        { rewrite <- Hmap. apply in_map, Hent. }
        unfold getAttribute in *. rewrite (Hsame _ Hin) in H1, H3. auto.
    + intros x Hx. cbn [In] in Hx. rewrite Hframe' by tauto.
      apply Hframe. intros ->. tauto.
    + congruence.
    + exact Hcanvas.
    + exact Hresult.
Qed.

(** X11: the constructor loads the children of the canvas that have
    the attribute [scroll-data], in document order, and always returns:
    the entries are one for each such child, with the text of the
    attribute for instruction and, for name, the id the child has
    afterwards, which is the id it had unless that was missing or
    empty.  Every loaded child is of class [scrollable] and has its top
    set to 200vh; no other element and no child list changes. *)
Theorem constructor_loads_the_children_with_scroll_data
        (host : Host) (canvas : HTMLElement) (doc : Document) :
  NoDup (Dom.children doc canvas) ->
  exists (this : t) (doc' : Document),
    new host canvas doc = Some (this, doc')
    /\ map Scrollomat.element (entries this)
       = filter (fun e => hasAttribute doc e "scroll-data")
                (Dom.children doc canvas)
    /\ (forall n, In n (entries this) ->
          getAttribute doc (Scrollomat.element n) "scroll-data"
          = Some (Scrollomat.instruction n)
          /\ getAttribute doc' (Scrollomat.element n) "id"
             = Some (Scrollomat.name n)
          /\ (falsy (getAttribute doc (Scrollomat.element n) "id") = false
              -> getAttribute doc (Scrollomat.element n) "id"
                 = Some (Scrollomat.name n))
          /\ In "scrollable"
                (classList (elements doc' (Scrollomat.element n)))
          /\ getStyle doc' (Scrollomat.element n) "top"
             = Some (Literal "200vh"))
    /\ (forall x, ~ In x (map Scrollomat.element (entries this)) ->
                  elements doc' x = elements doc x)
    /\ Dom.children doc' = Dom.children doc
    /\ canvas = Instance.canvas this
    /\ compilationResult this = None.
Proof.
  intros Hnodup. unfold new, loadCanvas.
  set (marked := filter (fun e => hasAttribute doc e "scroll-data")
                        (Dom.children doc canvas)).
  set (this0 := {| compilationResult := None; canvas := canvas;
                   entries := []; scrollPlaceholder := None;
                   maxHeight := 100; captured := [] |}).
  destruct (load_each_spec host marked this0 doc)
    as (news & this & doc' & Hload & Hentries & Hmap & Hnews & Hframe
        & Hchildren & Hcanvas & Hresult).
  { apply NoDup_filter, Hnodup. }
  { intros e He. apply filter_In in He as [_ He]. exact He. }
  cbn [entries this0 app] in Hentries. subst news.
  exists this, doc'. rewrite Hmap.
  split; [exact Hload|]. split; [reflexivity|]. split; [exact Hnews|].
  split; [exact Hframe|]. split; [exact Hchildren|].
  split; [symmetry; exact Hcanvas|exact Hresult].
Qed.

(** An instance: a canvas with three children, the second without an
    id, the third without the attribute. *)
Lemma constructor_loads_the_children_with_scroll_data_witness :
  exists (this : t) (doc' : Document),
    new Documents.host 0%nat Documents.document = Some (this, doc')
    /\ map Scrollomat.element (entries this) = [1; 2]%nat
    /\ map Scrollomat.name (entries this) = ["a"; "0.5"].
Proof.
  destruct (constructor_loads_the_children_with_scroll_data
              Documents.host 0%nat Documents.document)
    as (this & doc' & Hnew & Hmap & _).
  { repeat constructor; cbn; intuition discriminate. }
  exists this, doc'. split; [exact Hnew|]. split; [exact Hmap|].
  assert (E : new Documents.host 0%nat Documents.document = Some (_, _))
    by (vm_compute; reflexivity).
  rewrite E in Hnew. injection Hnew as <- _. reflexivity.
Defined.


End LoadFacts.

(** ** Updating and mounting *)

Module UpdateFacts.

Import Dom Instance PageNotions LoadFacts.
Local Open Scope float_scope.

Lemma styled_by_refl rs (doc : Document) : styled_by rs doc doc.
Proof.
  unfold styled_by. do 4 (split; [reflexivity|]). intros x.
  do 2 (split; [reflexivity|]). intros property. left. reflexivity.
Qed.

Lemma styled_by_trans rs (doc1 doc2 doc3 : Document) :
  styled_by rs doc1 doc2 -> styled_by rs doc2 doc3 -> styled_by rs doc1 doc3.
Proof.
  intros (C1 & N1 & W1 & R1 & E1) (C2 & N2 & W2 & R2 & E2).
  unfold styled_by. do 4 (split; [congruence|]). intros x.
  destruct (E1 x) as (A1 & L1 & S1), (E2 x) as (A2 & L2 & S2).
  do 2 (split; [congruence|]). intros property.
  destruct (S2 property) as [->|H]; [apply S1|right; exact H].
Qed.

Lemma styled_by_more rs rs' (doc doc' : Document) :
  incl rs rs' -> styled_by rs doc doc' -> styled_by rs' doc doc'.
Proof.
  intros Hincl (C & N & W & R & E). unfold styled_by.
  do 4 (split; [assumption|]). intros x. destruct (E x) as (A & L & S).
  do 2 (split; [assumption|]). intros property.
  destruct (S property) as [->|(r & Hin & H)]; [left; reflexivity|].
  right. exists r. split; [apply Hincl, Hin|exact H].
Qed.

Lemma setStyle_styled_by (r : Scrollomat.CompiledScrollInstruction)
      (property : string) (text : StyleText) (doc : Document) :
  In property updated_properties ->
  (property = "display" -> Scrollomat.isAbsolute r = true) ->
  styled_by [r] doc
    (setStyle (Scrollomat.element (Scrollomat.base r)) property text doc).
Proof.
  intros Hp Hd. unfold styled_by, setStyle, getStyle.
  cbn [children next scrollWatchers randomCalls elements set_element].
  do 4 (split; [reflexivity|]). intros x.
  destruct (Nat.eqb_spec x (Scrollomat.element (Scrollomat.base r)))
    as [->|_].
  2: { do 2 (split; [reflexivity|]). intros p. left. reflexivity. }
  cbn [attributes classList style]. do 2 (split; [reflexivity|]).
  intros p. rewrite assoc_put.
  destruct (String.eqb_spec property p) as [<-|_]; [|left; reflexivity].
  right. exists r. split; [left; reflexivity|]. auto.
Qed.

(** One record of [update]: nothing but the styles of its element. *)
Lemma updateOne_styled_by (host : Host) (this : t) (d : float)
      (r : Scrollomat.CompiledScrollInstruction) (doc : Document) :
  styled_by [r] doc (fst (updateOne host this d r doc)).
Proof.
  unfold updateOne.
  assert (Hs : forall property text doc1,
             In property ["top"; "left"; "opacity"] ->
             styled_by [r] doc doc1 ->
             styled_by [r] doc
               (setStyle (Scrollomat.element (Scrollomat.base r)) property
                         text doc1)).
  { intros property text doc1 Hp H1. eapply styled_by_trans; [exact H1|].
    apply setStyle_styled_by.
    - right. exact Hp.
    - intros ->. cbn in Hp. intuition discriminate. }
  destruct (Scrollomat.isAbsolute r) eqn:Ea; cbn [andb].
  - destruct (_ || _); cbn [fst].
    + apply setStyle_styled_by; [left; reflexivity|trivial].
    + assert (H0 : styled_by [r] doc
                     (setStyle (Scrollomat.element (Scrollomat.base r))
                               "display" (Literal "") doc)).
      { apply setStyle_styled_by; [left; reflexivity|trivial]. }
      repeat match goal with
             | |- styled_by _ _ (fst (match ?c with _ => _ end)) =>
                 destruct c; cbn [fst]
             end;
        repeat (apply Hs; [cbn; tauto|]); exact H0.
  - repeat match goal with
           | |- styled_by _ _ (fst (match ?c with _ => _ end)) =>
               destruct c; cbn [fst]
           end;
      repeat (apply Hs; [cbn; tauto|]); apply styled_by_refl.
Qed.

Lemma update_each_styled_by (host : Host) (this : t) (d : float) :
  forall (rs : list Scrollomat.CompiledScrollInstruction) (doc : Document),
    styled_by rs doc (fst (update_each host this d rs doc)).
Proof.
  induction rs as [|r rs IH]; intros doc; cbn [update_each].
  - apply styled_by_refl.
  - pose proof (updateOne_styled_by host this d r doc) as H1.
    destruct (updateOne host this d r doc) as [doc1 [ex|]]; cbn [fst] in *.
    + eapply styled_by_more; [|exact H1]. intros x [<-|[]]. left.
      reflexivity.
    + eapply styled_by_trans.
      * eapply styled_by_more; [|exact H1]. intros x [<-|[]]. left.
        reflexivity.
      * eapply styled_by_more; [|apply IH]. intros x Hx. right. exact Hx.
Qed.

Lemma update_styled_by (host : Host) (this : t) (doc : Document) :
  styled_by (match compilationResult this with
             | Some records => records
             | None => []
             end)
            doc (fst (update host this doc)).
Proof.
  unfold update. destruct (scrollPlaceholder this); [|apply styled_by_refl].
  destruct (compilationResult this); [|apply styled_by_refl].
  apply update_each_styled_by.
Qed.

(** X12: [update] changes inline styles only, whether it returns or
    throws: no attribute, class list, child list or listener changes,
    and a style property changes only when it is one of display, top,
    left and opacity, on the element of a compiled record; display
    changes only on the element of an absolute record.  On an object
    that is not mounted (no placeholder) it throws a TypeError and
    changes nothing; on one without a compilation result it does
    nothing. *)
Theorem update_changes_styles_of_compiled_elements_only
        (host : Host) (this : t) (doc : Document) :
  styled_by (match compilationResult this with
             | Some records => records
             | None => []
             end)
            doc (fst (update host this doc))
  /\ (scrollPlaceholder this = None ->
      update host this doc
      = (doc, Some (TypeError "Cannot read properties of undefined")))
  /\ (scrollPlaceholder this <> None -> compilationResult this = None ->
      update host this doc = (doc, None)).
Proof.
  split; [apply update_styled_by|]. unfold update. split.
  - intros ->. reflexivity.
  - intros Hp ->. destruct (scrollPlaceholder this); [reflexivity|].
    congruence.
Qed.

(** [update] leaves the property [height] as it is. *)
Lemma update_keeps_height (host : Host) (this : t) (doc : Document)
      (x : HTMLElement) :
  getStyle (fst (update host this doc)) x "height" = getStyle doc x "height".
Proof.
  destruct (update_styled_by host this doc) as (_ & _ & _ & _ & E).
  destruct (E x) as (_ & _ & S).
  destruct (S "height") as [H|(r & _ & _ & Hp & _)]; [exact H|].
  cbn in Hp. intuition discriminate.
Qed.

(** X13: when the pass over its entries returns, [mountToWatcher]
    returns, with or without an exception of its first [update]: the
    object holds the records and the extent of the report; the
    placeholder is a new element, appended last to the children of the
    watcher; the placeholder and the canvas have their height set to
    the extent, in vh; one scroll listener is registered on the watcher;
    and, those apart, the document is what [update] makes of it. *)
Theorem mountToWatcher_sizes_the_page
        (host : Host) (fuel : nat) (watcher : HTMLElement) (this : t)
        (doc : Document) (report : Scrollomat.CompilationReport)
        (st : Scrollomat.State) :
  Scrollomat.compileScrollData fuel (entries this)
  = Scrollomat.Ok (report, st) ->
  exists (this' : t) (doc' : Document) (thrown : option exn),
    mountToWatcher host fuel watcher (this, doc)
    = Scrollomat.Ok (this', doc', thrown)
    /\ compilationResult this'
       = Some (Scrollomat.compilationResult report)
    /\ maxHeight this' = Scrollomat.maxHeight report
    /\ scrollPlaceholder this' = Some (next doc)
    /\ entries this' = entries this
    /\ next doc' = S (next doc)
    /\ (forall x, Dom.children doc' x
                  = if Nat.eqb x watcher
                    then Dom.children doc x ++ [next doc]
                    else Dom.children doc x)
    /\ scrollWatchers doc' = scrollWatchers doc ++ [watcher]
    /\ getStyle doc' (next doc) "height"
       = Some (Printed (Scrollomat.template (Scrollomat.maxHeight report)
                                            "vh"))
    /\ getStyle doc' (canvas this) "height"
       = Some (Printed (Scrollomat.template (Scrollomat.maxHeight report)
                                            "vh"))
    /\ (forall x, x <> next doc ->
                  attributes (elements doc' x) = attributes (elements doc x)
                  /\ classList (elements doc' x)
                     = classList (elements doc x)).
Proof.
  intros Hpass. unfold mountToWatcher. rewrite Hpass.
  cbn [Scrollomat.bind createElement].
  set (height := Printed (Scrollomat.template
                            (Scrollomat.maxHeight report) "vh")).
  set (this1 := {| compilationResult :=
                     Some (Scrollomat.compilationResult report);
                   canvas := canvas this; entries := entries this;
                   scrollPlaceholder := Some (next doc);
                   maxHeight := Scrollomat.maxHeight report;
                   captured := Scrollomat.compilationMap st |}).
  match goal with
  | |- context [update host this1 ?d] => set (doc1 := d)
  end.
  pose proof (update_styled_by host this1 doc1) as (C & N & W & R & E).
  pose proof (update_keeps_height host this1 doc1) as Hheight.
  destruct (update host this1 doc1) as [doc' thrown]. cbn [fst] in *.
  exists this1, doc', thrown.
  split; [reflexivity|]. do 4 (split; [reflexivity|]).
  split; [rewrite N; reflexivity|]. split.
  { intros x. rewrite C. reflexivity. }
  split; [rewrite W; reflexivity|].
  assert (Hput : forall x,
             getStyle doc1 x "height"
             = if Nat.eqb x (canvas this) then Some height
               else if Nat.eqb x (next doc) then Some height
               else getStyle doc x "height").
  { intros x. unfold doc1, getStyle, setStyle, addScrollListener,
      appendChild.
    cbn [elements set_element].
    destruct (Nat.eqb x (canvas this)); cbn [style].
    - rewrite assoc_put. reflexivity.
    - destruct (Nat.eqb x (next doc)); cbn [style]; [|reflexivity].
      rewrite assoc_put. reflexivity. }
  split.
  { rewrite Hheight, Hput, Nat.eqb_refl.
    destruct (Nat.eqb _ _); reflexivity. }
  split.
  { rewrite Hheight, Hput, Nat.eqb_refl. reflexivity. }
  intros x Hx. destruct (E x) as (A & L & _). rewrite A, L.
  unfold doc1, setStyle, addScrollListener, appendChild.
  cbn [elements set_element]. apply Nat.eqb_neq in Hx.
  destruct (Nat.eqb_spec x (canvas this)) as [<-|_];
    cbn [attributes classList]; rewrite !Hx; split; reflexivity.
Qed.

(** An instance: the sample document, loaded and mounted on the
    element 7; the extent is 110. *)
Lemma mountToWatcher_sizes_the_page_witness :
  exists (this : t) (doc : Document) (this' : t) (doc' : Document)
         (thrown : option exn),
    new Documents.host 0%nat Documents.document = Some (this, doc)
    /\ mountToWatcher Documents.host 3 7%nat (this, doc)
       = Scrollomat.Ok (this', doc', thrown)
    /\ getStyle doc' 10%nat "height"
       = Some (Printed (Scrollomat.Text 110 "vh"))
    /\ Dom.children doc' 7%nat = [10%nat].
Proof.
  eexists. eexists.
  assert (Hnew : new Documents.host 0%nat Documents.document = Some (_, _))
    by (vm_compute; reflexivity).
  match type of Hnew with
  | _ = Some (?this, ?doc) =>
      assert (Hpass : Scrollomat.compileScrollData 3 (entries this)
                      = Scrollomat.Ok (_, _)) by (vm_compute; reflexivity);
      destruct (mountToWatcher_sizes_the_page
                  Documents.host 3 7%nat this doc _ _ Hpass)
        as (this' & doc' & thrown & Hmount & _ & _ & _ & _ & _ & Hchildren
            & _ & Hheight & _)
  end.
  exists this', doc', thrown. split; [exact Hnew|]. split; [exact Hmount|].
  split; [exact Hheight|]. rewrite Hchildren. reflexivity.
Defined.

(** X14: an object without entries mounts whatever the fuel: the pass
    returns the empty report, whose extent is [-Infinity] (the maximum
    of no number, minus 100); that is the height assigned to the
    placeholder and to the canvas, the first [update] has no record to
    go through and no exception, and no other style changes. *)
Theorem mounting_an_empty_page
        (host : Host) (fuel : nat) (watcher : HTMLElement) (this : t)
        (doc : Document) :
  entries this = [] ->
  exists (this' : t) (doc' : Document),
    mountToWatcher host fuel watcher (this, doc)
    = Scrollomat.Ok (this', doc', None)
    /\ compilationResult this' = Some []
    /\ maxHeight this' = neg_infinity
    /\ getStyle doc' (next doc) "height"
       = Some (Printed (Scrollomat.Text neg_infinity "vh"))
    /\ getStyle doc' (canvas this) "height"
       = Some (Printed (Scrollomat.Text neg_infinity "vh"))
    /\ (forall x property,
          property <> "height" ->
          getStyle doc' x property
          = if Nat.eqb x (next doc) then None else getStyle doc x property).
Proof.
  intros Hentries. unfold mountToWatcher. rewrite Hentries.
  assert (Hpass : Scrollomat.compileScrollData fuel []
                  = Scrollomat.Ok
                      ({| Scrollomat.compilationResult := [];
                          Scrollomat.maxHeight := neg_infinity |},
                       {| Scrollomat.compilationMap := [];
                          Scrollomat.entriesToProcess := [];
                          Scrollomat.console := [] |})).
  { unfold Scrollomat.compileScrollData.
    destruct fuel; reflexivity. }
  rewrite Hpass.
  cbn [Scrollomat.bind createElement update scrollPlaceholder
       compilationResult update_each Scrollomat.compilationResult
       Scrollomat.maxHeight Scrollomat.compilationMap].
  eexists. eexists. split; [reflexivity|].
  cbn [compilationResult maxHeight].
  do 2 (split; [reflexivity|]).
  unfold getStyle, setStyle, addScrollListener, appendChild.
  cbn [elements set_element]. rewrite !Nat.eqb_refl.
  split.
  { destruct (Nat.eqb (next doc) (canvas this)); cbn [style];
      rewrite ?assoc_put; reflexivity. }
  split.
  { cbn [style]. rewrite assoc_put. reflexivity. }
  intros x property Hp.
  assert (Hne : String.eqb "height" property = false).
  { apply String.eqb_neq. congruence. }
  destruct (Nat.eqb_spec x (canvas this)) as [->|_]; cbn [style].
  - rewrite assoc_put, Hne.
    destruct (Nat.eqb (canvas this) (next doc)); cbn [style];
      rewrite ?assoc_put, ?Hne; reflexivity.
  - destruct (Nat.eqb x (next doc)); cbn [style];
      rewrite ?assoc_put, ?Hne; reflexivity.
Qed.

(** An instance: the sample document with an empty canvas, 5. *)
Lemma mounting_an_empty_page_witness :
  exists (this : t) (doc this' doc' : _),
    new Documents.host 5%nat Documents.document = Some (this, doc)
    /\ mountToWatcher Documents.host 0 7%nat (this, doc)
       = Scrollomat.Ok (this', doc', None)
    /\ maxHeight this' = neg_infinity.
Proof.
  eexists. eexists.
  assert (Hnew : new Documents.host 5%nat Documents.document = Some (_, _))
    by (vm_compute; reflexivity).
  match type of Hnew with
  | _ = Some (?this, ?doc) =>
      destruct (mounting_an_empty_page Documents.host 0 7%nat this doc
                  eq_refl)
        as (this' & doc' & Hmount & _ & Hmax & _)
  end.
  exists this', doc'. split; [exact Hnew|]. split; [exact Hmount|].
  exact Hmax.
Defined.

End UpdateFacts.

(** ** The custom timeline after its last clause *)

Module TimelineFacts.

Import Scrollomat Notions FloatOrder CurveFacts.
Local Open Scope float_scope.

(** A finite number is a zero or has a mantissa and an exponent. *)
Lemma finite_cases (x : float) :
  JS.isFinite x = true ->
  (exists s, Prim2SF x = S754_zero s)
  \/ (exists s m e, Prim2SF x = S754_finite s m e).
Proof.
  unfold JS.isFinite, PrimFloat.is_finite, PrimFloat.is_infinity.
  intros H. apply negb_true_iff, orb_false_iff in H as [Hn Hi].
  rewrite eqb_spec, abs_spec in Hi. apply is_nan_spec in Hn.
  destruct (Prim2SF x) as [s|s| |s m e]; eauto.
  - discriminate Hi.
  - congruence.
Qed.

Lemma minus_itself (x : float) : JS.isFinite x = true -> x - x = 0.
Proof.
  intros H. apply Prim2SF_inj. rewrite sub_spec.
  destruct (finite_cases x H) as [[s E]|(s & m & e & E)]; rewrite E.
  - destruct s; reflexivity.
  - unfold SF64sub, SFsub. cbv zeta. rewrite Z.sub_diag. reflexivity.
Qed.

(** X15: in the fully custom form, once the end time of the latest
    clause is reached the evaluator plays that clause again, over one
    unit of time: at the very end time of the clause it returns the
    start position of the clause, not its end position, which it
    returns from one unit of time later on.  (The clause that follows
    the last checkpoint is missing, the last checkpoint stands in for
    it, and [Math.max(1, 0)] is its duration.) *)
Theorem custom_timeline_replays_its_last_clause
        (env : Environment) (ownerDuration : float)
        (latest : CompiledAbsoluteSegment)
        (earlier : list CompiledAbsoluteSegment) (initialPos : float)
        (axis : Axis) (t : float) :
  JS.isFinite (byTime latest) = true ->
  interpolates_exactly (startPos latest) (endPos latest) ->
  (t * ownerDuration = byTime latest ->
   customTimeline env ownerDuration (latest :: earlier) initialPos axis t
   = Return (template (startPos latest) (distanceUnit axis)))
  /\ ((byTime latest <=? t * ownerDuration) = true ->
      JS.geb ((t * ownerDuration - byTime latest) / 1) 1 = true ->
      customTimeline env ownerDuration (latest :: earlier) initialPos axis t
      = Return (template (endPos latest) (distanceUnit axis))).
Proof.
  intros Hfin [Hstart Hend].
  assert (Hrun : (byTime latest <=? t * ownerDuration) = true ->
                 customTimeline env ownerDuration (latest :: earlier)
                                initialPos axis t
                 = map_result
                     (fun b =>
                        template
                          (startPos latest
                           + b * (endPos latest - startPos latest))
                          (distanceUnit axis))
                     (computeBezier_spread env
                        ((t * ownerDuration - byTime latest) / 1)
                        (ease latest))).
  { intros Hle. unfold customTimeline, JS.findIndex.
    cbn [JS.findIndex_from]. rewrite Hle.
    cbn [JS.at_index Z.ltb Z.compare Z.sub Z.add Z.opp Z.pos_sub Z.to_nat
         nth_error].
    rewrite (minus_itself _ Hfin). reflexivity. }
  split.
  - intros Ht. rewrite Hrun.
    + rewrite Ht, (minus_itself _ Hfin).
      unfold computeBezier_spread, computeBezier.
      change (JS.geb (0 / 1) 1) with false. change (0 / 1 <=? 0) with true.
      cbn [map_result]. unfold template in *. rewrite Hstart. reflexivity.
    + rewrite Ht. apply leb_refl, finite_not_nan, Hfin.
  - intros Hle Hge. rewrite (Hrun Hle).
    unfold computeBezier_spread, computeBezier. rewrite Hge.
    cbn [map_result]. unfold template in *. rewrite Hend. reflexivity.
Qed.

(** An instance: a clause from 0 to 80 that ends at the time 50, in an
    element that lasts 100, at half its life. *)
Lemma custom_timeline_replays_its_last_clause_witness :
  customTimeline Examples.page 100
    [{| byTime := 50; startPos := 0; endPos := 80; ease := [0; 0; 1; 1] |}]
    30 AxisY 0.5
  = Return (Text 0 "vh").
Proof.
  apply (custom_timeline_replays_its_last_clause Examples.page 100
           {| byTime := 50; startPos := 0; endPos := 80;
              ease := [0; 0; 1; 1] |} [] 30 AxisY 0.5).
  - reflexivity.
  - split; reflexivity.
  - reflexivity.
Defined.

End TimelineFacts.

(** ** Referent words where they are not allowed *)

Module RefusalFacts.

Import Scrollomat Notions PassNotions.
Local Open Scope float_scope.

(** X16: a referent word as the first parameter of [ease], [duration]
    or [opacity-ease] is refused with a message: the element it names
    is not asked for, and the directive is carried out on its
    parameters as they stand (a [duration] with more than one parameter
    then sends its own message and changes nothing). *)
Theorem referent_words_are_refused_outside_enter_and_leave
        (request : option string -> State -> outcome State)
        (e : ScrollInstruction) (isAbs : bool)
        (line keyword word : string) (more : list string)
        (r : CompiledScrollInstruction) (st : State) :
  hd "" (JS.split line " ") = keyword ->
  In keyword ["ease"; "duration"; "opacity-ease"] ->
  JS.slice_from (JS.split_spaces (JS.trim line)) 1 = word :: more ->
  In word referent_words ->
  let refused :=
    console_error
      ("Invalid referent '" ++ word ++ "' for directive '" ++ keyword
       ++ "' in " ++ name e ++ ".") st in
  directive request e isAbs line (r, st)
  = Ok (if String.eqb keyword "ease"
        then directive_ease e isAbs (word :: more) None (r, refused)
        else if String.eqb keyword "duration"
        then directive_duration e (word :: more) None (r, refused)
        else directive_opacity_ease e isAbs (word :: more) None (r, refused))
  /\ (keyword = "duration" -> more <> [] ->
      directive request e isAbs line (r, st)
      = Ok (r, console_error
                 ("Unexpected parameters for directive 'duration' in "
                  ++ name e ++ ".") refused)).
Proof.
  intros Hk Hkw Hdp Hword refused.
  assert (Hrun : directive request e isAbs line (r, st)
                 = Ok (if String.eqb keyword "ease"
                       then directive_ease e isAbs (word :: more) None
                                           (r, refused)
                       else if String.eqb keyword "duration"
                       then directive_duration e (word :: more) None
                                               (r, refused)
                       else directive_opacity_ease e isAbs (word :: more)
                                                   None (r, refused))).
  { unfold directive. rewrite Hk, Hdp. unfold refused.
    unfold resolveReferent, checkAllowReferent, in_entry.
    destruct Hword as [<-|[<-|[<-|[<-|[]]]]];
      destruct Hkw as [<-|[<-|[<-|[]]]]; reflexivity. }
  split; [exact Hrun|].
  intros -> Hmore. rewrite Hrun. cbn [String.eqb Ascii.eqb Bool.eqb].
  unfold directive_duration, unexpectedParameters, in_entry.
  destruct more as [|x more]; [congruence|]. reflexivity.
Qed.

(** An instance: ['duration with-exit a'] in an entry b. *)
Lemma referent_words_are_refused_outside_enter_and_leave_witness :
  directive (fun _ _ => OutOfFuel)
            (Examples.entry "b" "duration with-exit a") false
            "duration with-exit a"
            (initial (Examples.entry "b" "duration with-exit a"),
             {| compilationMap := []; entriesToProcess := [];
                console := [] |})
  = Ok (initial (Examples.entry "b" "duration with-exit a"),
        {| compilationMap := []; entriesToProcess := [];
           console :=
             ["Invalid referent 'with-exit' for directive 'duration' in b.";
              "Unexpected parameters for directive 'duration' in b."] |}).
Proof.
  apply (referent_words_are_refused_outside_enter_and_leave
           (fun _ _ => OutOfFuel)
           (Examples.entry "b" "duration with-exit a") false
           "duration with-exit a" "duration" "with-exit" ["a"]).
  - reflexivity.
  - right. left. reflexivity.
  - reflexivity.
  - right. left. reflexivity.
  - reflexivity.
  - discriminate.
Defined.

End RefusalFacts.

(** ** The evaluators at the ends of a life *)

Module EndFacts.

Import Scrollomat Notions FloatOrder CurveFacts TimelineFacts.
Local Open Scope float_scope.
#[local] Set Warnings "-inexact-float".

(** Zero times a finite number is a zero. *)
Lemma zero_times (y : float) :
  JS.isFinite y = true -> exists s, Prim2SF (0 * y) = S754_zero s.
Proof.
  intros H. rewrite mul_spec. change (Prim2SF 0) with (S754_zero false).
  destruct (finite_cases y H) as [[s E]|(s & m & e & E)]; rewrite E;
    cbn; eauto.
Qed.

Lemma hundred_minus_zero (z : float) (s : bool) :
  Prim2SF z = S754_zero s -> 100 - z = 100.
Proof.
  intros E. apply Prim2SF_inj. rewrite sub_spec, E. reflexivity.
Qed.

(** X17: an element that has not entered yet is exactly one viewport
    down: at a progress [<= 0] the evaluator [getEasingFunction] builds
    returns 100vh, whatever the curve (none is constructed there),
    provided the height of the element and of the window give a finite
    number.  So does the vertical evaluator of a record after any
    [ease] with four parameters. *)
Theorem not_entered_yet_is_one_viewport_down
        (env : Environment) (m : CompilationMap) (e : ScrollInstruction)
        (easingCurve : EasingCurve) (a b c d : string)
        (r : CompiledScrollInstruction) (st : State) (t : float) :
  (t <=? 0) = true ->
  JS.isFinite (100 + heightRatio env (element (base r)) * 100) = true ->
  call env m (EasingFunction easingCurve (element (base r))) t
  = Return (Text 100 "vh")
  /\ call env m
       (yEasingFunction
          (scrollListeners
             (fst (directive_ease e false [a; b; c; d] None (r, st))))) t
     = Return (Text 100 "vh").
Proof.
  intros Ht Hfin.
  assert (H : forall curve,
             call env m (EasingFunction curve (element (base r))) t
             = Return (Text 100 "vh")).
  { intros curve. cbn [call]. unfold computeBezier_spread, computeBezier.
    rewrite (BezierFacts.one_not_below_zero _ Ht), Ht. cbn [map_result].
    destruct (zero_times _ Hfin) as [s Hz].
    rewrite (hundred_minus_zero _ _ Hz). reflexivity. }
  split; [apply H|].
  cbn [directive_ease fst List.length Nat.eqb negb set_listener
       set_scrollListeners scrollListeners yEasingFunction base
       set_yEasingCurve].
  apply H.
Qed.

(** An instance: on the sample page, an eased element at the
    progress -1. *)
Lemma not_entered_yet_is_one_viewport_down_witness :
  call Examples.page []
       (EasingFunction [0.25; 0.1; 0.25; 1] 0%nat) (-1)
  = Return (Text 100 "vh").
Proof.
  apply (not_entered_yet_is_one_viewport_down
           Examples.page [] (Examples.entry "a" "") [0.25; 0.1; 0.25; 1]
           "0" "0" "1" "1" (initial (Examples.entry "a" ""))
           {| compilationMap := []; entriesToProcess := []; console := [] |}
           (-1)).
  - reflexivity.
  - reflexivity.
Defined.

(** X18: the evaluators [opacity-ease] installs, at the ends, whatever
    the numbers given (no curve is constructed there): with four
    numbers the opacity is 0 at every progress [<= 0] and 1 at every
    progress [>= 1]; with eight numbers, in an absolute entry, it is 0
    at the progress 0, 1 at the progress 0.5 and 0 again at the
    progress 1. *)
Theorem opacity_at_the_ends
        (env : Environment) (m : CompilationMap) (owner : string)
        (r : CompiledScrollInstruction) (element : HTMLElement)
        (t : float) :
  lookup m owner = Some r ->
  ((t <=? 0) = true -> call env m (OpacityCurve owner) t = Return (Text 0 ""))
  /\ (JS.geb t 1 = true ->
      call env m (OpacityCurve owner) t = Return (Text 1 ""))
  /\ call env m (OpacityInOut owner true element) 0 = Return (Text 0 "")
  /\ call env m (OpacityInOut owner true element) 0.5 = Return (Text 1 "")
  /\ call env m (OpacityInOut owner true element) 1 = Return (Text 0 "").
Proof.
  intros Hr. cbn [call]. rewrite Hr.
  unfold computeBezier_spread, computeBezier.
  split; [|split; [|split; [|split]]].
  - intros Ht. rewrite (BezierFacts.one_not_below_zero _ Ht), Ht.
    reflexivity.
  - intros Ht. rewrite Ht. reflexivity.
  - reflexivity.
  - reflexivity.
  - reflexivity.
Qed.

(** An instance: ['opacity-ease 0 1 1 1'] in an entry a, at the
    progress 2. *)
Lemma opacity_at_the_ends_witness :
  let compiled :=
    fst (directive_opacity_ease (Examples.entry "a" "") false
           ["0"; "1"; "1"; "1"] None
           (initial (Examples.entry "a" ""),
            {| compilationMap := []; entriesToProcess := [];
               console := [] |})) in
  call Examples.page [("a", compiled)]
       (opacityEasingFunction (scrollListeners compiled)) 2
  = Return (Text 1 "").
Proof.
  cbv zeta.
  refine (proj1 (proj2 (opacity_at_the_ends Examples.page _ "a" _ 0%nat 2
                          _)) _); reflexivity.
Defined.

End EndFacts.

(** ** Values of a list that refer to another element *)

Module ListFacts.

Import Scrollomat Notions PassNotions FloatOrder.
Local Open Scope float_scope.

Lemma nan_unique (x : float) : Prim2SF x = S754_nan -> x = nan.
Proof. intros H. apply Prim2SF_inj. rewrite H. reflexivity. Qed.

Lemma add_nan_l (x : float) : nan + x = nan.
Proof. apply nan_unique. rewrite add_spec. reflexivity. Qed.

Lemma add_nan_r (x : float) : x + nan = nan.
Proof.
  apply nan_unique. rewrite add_spec.
  destruct (Prim2SF x) as [| | |]; reflexivity.
Qed.

Lemma sub_nan_l (x : float) : nan - x = nan.
Proof. apply nan_unique. rewrite sub_spec. reflexivity. Qed.

Lemma mul_nan_r (x : float) : x * nan = nan.
Proof.
  apply nan_unique. rewrite mul_spec.
  destruct (Prim2SF x) as [| | |]; reflexivity.
Qed.

(** A number equal to a zero, plus one, is one. *)
Lemma zero_plus_one (s : float) : (0 =? s) = true -> s + 1 = 1.
Proof.
  intros H. rewrite eqb_spec in H. apply Prim2SF_inj. rewrite add_spec.
  change (Prim2SF 0) with (S754_zero false) in H.
  destruct (Prim2SF s) as [[|]|[|]| |[|] m e]; try discriminate H;
    reflexivity.
Qed.

(** A number equal to two is two. *)
Lemma equal_to_two (s : float) : (0 + 1 + 1 =? s) = true -> s = 2.
Proof.
  intros H. rewrite eqb_spec in H. apply Prim2SF_inj.
  change (Prim2SF (0 + 1 + 1)) with (Prim2SF 2) in H.
  destruct (Prim2SF s) as [[|]|[|]| |[|] m e] eqn:E;
    try discriminate H.
  change (Prim2SF 2) with (S754_finite false 4503599627370496 (-51)) in *.
  unfold SFeqb, SFcompare in H.
  destruct (Z.compare_spec (-51) e) as [<-|_|_]; try discriminate H.
  fold (Pos.compare 4503599627370496 m) in H.
  destruct (Pos.compare_spec 4503599627370496 m) as [<-|_|_];
    try discriminate H.
  reflexivity.
Qed.

(** The default curve never makes [computeBezier] throw. *)
Lemma computeBezier_linear (env : Environment) (t : float) :
  exists b, computeBezier_spread env t linearCurve = Return b.
Proof.
  unfold computeBezier_spread, computeBezier, linearCurve. cbn [nth_error].
  destruct (JS.geb t 1); [eauto|]. destruct (t <=? 0); [eauto|].
  change (BezierEasing.new env (Some 0) (Some 0) (Some 1) (Some 1))
    with (Return (A := BezierEasing.t)
            (BezierEasing.mk
               (repeat (if float32ArraySupported env then 0 else nan) 11)
               0 0 1 1 false)).
  eauto.
Qed.

(** Between a value and a [like] that follows it, and from the [like]
    on, the evaluator of a list has no number to return. *)
Lemma uniformSteps_like (env : Environment) (first id : string)
      (axis : Axis) (t : float) :
  uniformSteps env [first; "like"; id] linearCurve axis t
  = Return (Text nan (distanceUnit axis)).
Proof.
  unfold uniformSteps.
  set (interval := t * _). set (segment := JS.Math_min2 _ _).
  destruct (computeBezier_linear env (interval - segment)) as [b ->].
  cbn [map_result]. unfold template. f_equal.
  assert (E : JS.parseInt (JS.get [first; "like"; id] segment)
              + b * (JS.parseInt (JS.get [first; "like"; id] (segment + 1))
                     - JS.parseInt (JS.get [first; "like"; id] segment))
              = nan).
  { clearbody segment. clear. unfold JS.get. cbn [JS.get_from].
    destruct (0 =? segment) eqn:E0.
    - rewrite (zero_plus_one _ E0).
      change (0 =? 1) with false. change (0 + 1 =? 1) with true.
      change (JS.parseInt (Some "like")) with nan.
      rewrite sub_nan_l, mul_nan_r, add_nan_r. reflexivity.
    - destruct (0 + 1 =? segment) eqn:E1.
      + change (JS.parseInt (Some "like")) with nan. apply add_nan_l.
      + destruct (0 + 1 + 1 =? segment) eqn:E2.
        * rewrite (equal_to_two _ E2).
          change (0 =? 2 + 1) with false.
          change (0 + 1 =? 2 + 1) with false.
          change (0 + 1 + 1 =? 2 + 1) with false.
          change (JS.parseInt None) with nan.
          rewrite sub_nan_l, mul_nan_r, add_nan_r. reflexivity.
        * change (JS.parseInt None) with nan. apply add_nan_l. }
  rewrite E. reflexivity.
Qed.

(** X19: a [like ID] among the values of a list is never substituted
    in what the evaluator reads.  For ['x V like ID'] (or [y]) the
    element ID is compiled and, when it holds a single value, that
    value replaces the two words in the stored value array; but the
    evaluator works on the copy of the list taken before, with the
    words [like] and [ID] in it, and returns NaN as the position for
    every progress. *)
Theorem like_inside_a_list_gives_no_position
        (env : Environment)
        (request : option string -> State -> outcome State)
        (e : ScrollInstruction) (isAbs : bool) (axis : Axis)
        (line first id : string)
        (r : CompiledScrollInstruction) (st st1 : State)
        (source : CompiledScrollInstruction) :
  hd "" (JS.split line " ") = keyword_of axis ->
  JS.includes_char line ":" = false ->
  JS.slice_from (JS.split_spaces (JS.trim line)) 1 = [first; "like"; id] ->
  ~ In first ("like" :: "|" :: referent_words) ->
  id <> "|" ->
  let st0 :=
    if isAbs then st
    else console_error
           ("Cannot use directive '" ++ keyword_of axis
            ++ "' outside of !absolute mode (" ++ name e ++ ").") st in
  request (Some id) st0 = Ok st1 ->
  lookup (compilationMap st1) id = Some source ->
  value (absolute axis source) <> Some ["|"] ->
  let stored :=
    match value (absolute axis source) with
    | Some [v] => [first; v]
    | _ => [first; "like"; id]
    end in
  let evaluator := UniformSteps [first; "like"; id] linearCurve axis in
  directive request e isAbs line (r, st)
  = Ok (set_listener axis evaluator
          (set_absolute axis (set_value (Some stored) (absolute axis r)) r),
        st1)
  /\ forall m t,
       call env m evaluator t = Return (Text nan (distanceUnit axis)).
Proof.
  intros Hk Hcolon Hdp Hfirst Hid st0 Hreq Hsrc Hbar stored evaluator.
  split; [|intros m t; apply uniformSteps_like].
  assert (Hlike : String.eqb first "like" = false).
  { apply String.eqb_neq. intros ->. apply Hfirst. left. reflexivity. }
  assert (Hlike' : String.eqb "like" first = false).
  { rewrite String.eqb_sym. exact Hlike. }
  assert (Hpipe : String.eqb "|" first = false).
  { apply String.eqb_neq. intros <-. apply Hfirst. right. left.
    reflexivity. }
  assert (Hpipe' : String.eqb "|" id = false).
  { apply String.eqb_neq. intros <-. apply Hid. reflexivity. }
  assert (Hword : forall w, In w referent_words ->
                            String.eqb first w = false).
  { intros w Hw. apply String.eqb_neq. intros ->. apply Hfirst.
    right. right. exact Hw. }
  unfold directive. rewrite Hk, Hdp.
  replace (negb (JS.includes directives (keyword_of axis))) with false
    by (destruct axis; reflexivity).
  unfold resolveReferent. cbn [nth_error equals].
  rewrite Hlike.
  rewrite !Hword by (unfold referent_words; cbn [In]; tauto).
  cbn [bind].
  assert (Hrun : directive_absolute request e isAbs axis line
                   [first; "like"; id] None (r, st)
                 = Ok (set_listener axis evaluator
                         (set_absolute axis
                            (set_value (Some stored) (absolute axis r)) r),
                       st1)).
  { unfold directive_absolute. fold st0.
    rewrite UniformFacts.read_own_array_just_set. cbn [bind].
    cbn [List.length Nat.eqb]. rewrite Hcolon. cbn [negb].
    unfold absolute_uniform.
    assert (Hp : JS.indexOf [first; "like"; id] "|" = (-1)%Z).
    { apply UniformFacts.indexOf_absent. unfold JS.includes. cbn [existsb].
      rewrite Hpipe, Hpipe'. reflexivity. }
    rewrite Hp.
    change (JS.slice [first; "like"; id] 0
              (if (-1 <? -1)%Z then (-1)%Z
               else Z.of_nat (List.length [first; "like"; id])))
      with [first; "like"; id].
    unfold substituteLike.
    assert (Hl : JS.indexOf [first; "like"; id] "like" = 1%Z).
    { unfold JS.indexOf, JS.findIndex. cbn [JS.findIndex_from].
      rewrite Hlike'. reflexivity. }
    rewrite Hl. cbn [Z.ltb Z.compare Z.add Z.opp snd fst].
    change (JS.at_index [first; "like"; id] (Z.pos (1 + 1)))
      with (Some id).
    rewrite Hreq. cbn [bind]. unfold compiled, property.
    cbn [property_key]. rewrite Hsrc. cbn [bind].
    assert (Hno : JS.includes [first; "like"; id] "|" = false).
    { unfold JS.includes. cbn [existsb]. rewrite Hpipe, Hpipe'.
      reflexivity. }
    unfold stored, evaluator.
    destruct (value (absolute axis source)) as [[|v [|w more]]|] eqn:Ev.
    - cbn [bind]. rewrite UniformFacts.read_own_array_just_set.
      cbn [bind]. rewrite Hno. reflexivity.
    - assert (Hv : String.eqb "|" v = false).
      { apply String.eqb_neq. intros <-. apply Hbar. reflexivity. }
      rewrite UniformFacts.read_own_array_just_set. cbn [bind].
      change (JS.splice [first; "like"; id] 1 2 [v]) with [first; v].
      unfold write_array.
      rewrite UniformFacts.read_own_array_just_set. cbn [bind].
      unfold JS.includes. cbn [existsb]. rewrite Hpipe, Hv. cbn [orb].
      destruct axis; reflexivity.
    - cbn [bind]. rewrite UniformFacts.read_own_array_just_set.
      cbn [bind]. rewrite Hno. reflexivity.
    - cbn [bind]. rewrite UniformFacts.read_own_array_just_set.
      cbn [bind]. rewrite Hno. reflexivity. }
  destruct axis; exact Hrun.
Qed.

(** An instance: ['x 0 like a'] in an element b, where a is compiled
    with the single value 40: the array [0 40] is stored, and the
    position at half the way is NaN. *)
Lemma like_inside_a_list_gives_no_position_witness :
  let b := Examples.entry "b" "!absolute; x 0 like a" in
  let a :=
    set_absolute AxisX
      {| value := Some ["40"]; destination := Some 40;
         destinations := None; easingFunction := None |}
      (initial (Examples.entry "a" "!absolute; x 40")) in
  let st :=
    {| compilationMap := [("a", a)]; entriesToProcess := [];
       console := [] |} in
  directive (fun _ s => Ok s) b true "x 0 like a" (initial b, st)
  = Ok (set_listener AxisX (UniformSteps ["0"; "like"; "a"] linearCurve AxisX)
          (set_absolute AxisX
             {| value := Some ["0"; "40"]; destination := None;
                destinations := None; easingFunction := None |}
             (initial b)),
        st)
  /\ call Examples.page [] (UniformSteps ["0"; "like"; "a"] linearCurve AxisX)
          0.5
     = Return (Text nan "vw").
Proof.
  cbv zeta.
  destruct (like_inside_a_list_gives_no_position Examples.page
              (fun _ s => Ok s)
              (Examples.entry "b" "!absolute; x 0 like a") true AxisX
              "x 0 like a" "0" "a"
              (initial (Examples.entry "b" "!absolute; x 0 like a"))
              {| compilationMap :=
                   [("a",
                     set_absolute AxisX
                       {| value := Some ["40"]; destination := Some 40;
                          destinations := None; easingFunction := None |}
                       (initial (Examples.entry "a" "!absolute; x 40")))];
                 entriesToProcess := []; console := [] |}
              {| compilationMap :=
                   [("a",
                     set_absolute AxisX
                       {| value := Some ["40"]; destination := Some 40;
                          destinations := None; easingFunction := None |}
                       (initial (Examples.entry "a" "!absolute; x 40")))];
                 entriesToProcess := []; console := [] |}
              (set_absolute AxisX
                 {| value := Some ["40"]; destination := Some 40;
                    destinations := None; easingFunction := None |}
                 (initial (Examples.entry "a" "!absolute; x 40"))))
    as [H1 H2].
  - reflexivity.
  - reflexivity.
  - reflexivity.
  - unfold referent_words. cbn [In]. intuition discriminate.
  - discriminate.
  - reflexivity.
  - reflexivity.
  - discriminate.
  - split; [exact H1|exact (H2 [] 0.5)].
Defined.

(** A number with a fraction is not the word [like]. *)
Lemma fraction_is_not_like (digits fraction : string) :
  all_digits digits = true ->
  String.eqb (digits ++ String "." fraction) "like" = false.
Proof.
  intros H. destruct digits as [|c digits]; [reflexivity|].
  cbn in H. apply andb_prop in H as [Hc _].
  cbn [append String.eqb].
  destruct (Ascii.eqb_spec c "l") as [->|_]; [discriminate Hc|reflexivity].
Qed.



End ListFacts.

(** ** Where an update puts the elements *)

Module PlacementFacts.

Import Dom Instance PageNotions LoadFacts.
Local Open Scope float_scope.

Lemma getStyle_setStyle (x y : HTMLElement) (p q : string) (text : StyleText)
      (doc : Document) :
  getStyle (setStyle y q text doc) x p
  = if Nat.eqb x y && String.eqb q p then Some text else getStyle doc x p.
Proof.
  unfold getStyle, setStyle. cbn [elements set_element].
  destruct (Nat.eqb x y) eqn:E; cbn [andb]; [|reflexivity].
  apply Nat.eqb_eq in E as ->. cbn [style]. apply assoc_put.
Qed.

(** One record: its element is placed, the others are left alone. *)
Lemma updateOne_placed (host : Host) (this : t) (d : float)
      (r : Scrollomat.CompiledScrollInstruction) (doc doc' : Document) :
  updateOne host this d r doc = (doc', None) ->
  placed host (captured this) d r doc doc'
  /\ forall x, x <> Scrollomat.element (Scrollomat.base r) ->
               elements doc' x = elements doc x.
Proof.
  unfold updateOne, placed. cbv zeta.
  set (x := Scrollomat.element (Scrollomat.base r)).
  set (offset := (d - Scrollomat.enterAt r) / Scrollomat.duration r).
  assert (Hother : forall p text doc1 y,
             y <> x -> elements (setStyle x p text doc1) y = elements doc1 y).
  { intros p text doc1 y Hy. unfold setStyle. cbn [elements set_element].
    destruct (Nat.eqb_spec y x); [contradiction|reflexivity]. }
  destruct (Scrollomat.isAbsolute r && _) eqn:Hout.
  - intros E. injection E as <-. split; [split|].
    + rewrite getStyle_setStyle, Nat.eqb_refl. reflexivity.
    + intros p Hp. rewrite getStyle_setStyle, Nat.eqb_refl. cbn [andb].
      destruct (String.eqb_spec "display" p); [congruence|reflexivity].
    + intros y Hy. apply Hother, Hy.
  - set (doc0 := if Scrollomat.isAbsolute r
                 then setStyle x "display" (Literal "") doc else doc).
    assert (H0 : (if Scrollomat.isAbsolute r
                  then getStyle doc0 x "display" = Some (Literal "")
                  else getStyle doc0 x "display" = getStyle doc x "display")
                 /\ forall y, y <> x -> elements doc0 y = elements doc y).
    { subst doc0. destruct (Scrollomat.isAbsolute r).
      - split; [|intros y Hy; apply Hother, Hy].
        rewrite getStyle_setStyle, Nat.eqb_refl. reflexivity.
      - split; reflexivity. }
    clearbody doc0. destruct H0 as [Hd H0].
    destruct (Scrollomat.call _ _ (Scrollomat.yEasingFunction _) offset)
      as [top|] eqn:Ey; [|discriminate].
    destruct (Scrollomat.call _ _ (Scrollomat.xEasingFunction _) offset)
      as [leftText|] eqn:Ex; [|discriminate].
    destruct (Scrollomat.call _ _ (Scrollomat.opacityEasingFunction _) offset)
      as [opacity|] eqn:Eo; [|discriminate].
    intros E. injection E as <-. split; [split|].
    + rewrite !getStyle_setStyle, Nat.eqb_refl. cbn [andb String.eqb
        Ascii.eqb Bool.eqb].
      destruct (Scrollomat.isAbsolute r); exact Hd.
    + exists top, leftText, opacity.
      rewrite !getStyle_setStyle, Nat.eqb_refl. repeat split; reflexivity.
    + intros y Hy. rewrite !Hother by exact Hy. apply H0, Hy.
Qed.

(** [placed] looks at the element of the record only. *)
Lemma placed_same (host : Host) m (d : float)
      (r : Scrollomat.CompiledScrollInstruction)
      (doc1 doc1' doc2 doc2' : Document) :
  elements doc2 (Scrollomat.element (Scrollomat.base r))
  = elements doc1 (Scrollomat.element (Scrollomat.base r)) ->
  elements doc2' (Scrollomat.element (Scrollomat.base r))
  = elements doc1' (Scrollomat.element (Scrollomat.base r)) ->
  placed host m d r doc1 doc1' -> placed host m d r doc2 doc2'.
Proof.
  unfold placed, getStyle. intros -> ->. exact (fun H => H).
Qed.

Lemma update_each_placed (host : Host) (this : t) (d : float) :
  forall rs (doc doc' : Document),
    NoDup (map (fun r => Scrollomat.element (Scrollomat.base r)) rs) ->
    update_each host this d rs doc = (doc', None) ->
    (forall r, In r rs -> placed host (captured this) d r doc doc')
    /\ forall x,
         ~ In x (map (fun r => Scrollomat.element (Scrollomat.base r)) rs) ->
         elements doc' x = elements doc x.
Proof.
  induction rs as [|r rs IH]; intros doc doc' Hnd E; cbn [update_each] in E.
  - injection E as <-. split; [intros r []|reflexivity].
  - cbn [map] in Hnd. apply NoDup_cons_iff in Hnd as [Hr Hnd].
    destruct (updateOne host this d r doc) as [doc1 [e|]] eqn:E1;
      [discriminate|].
    apply updateOne_placed in E1 as [P1 O1].
    destruct (IH doc1 doc' Hnd E) as [P O]. split.
    + intros r' [<-|Hin].
      * apply (placed_same host _ d r doc doc1); [reflexivity| |exact P1].
        apply O, Hr.
      * apply (placed_same host _ d r' doc1 doc'); [|reflexivity|
                                                     apply P, Hin].
        symmetry. apply O1. intros Heq. apply Hr. rewrite <- Heq.
        apply (in_map (fun r => Scrollomat.element (Scrollomat.base r))),
          Hin.
    + intros x Hx. cbn [map In] in Hx.
      rewrite O by tauto. apply O1. intros ->. apply Hx. left. reflexivity.
Qed.

(** X21: an [update] that returns has placed every element of the
    compilation result (each record having an element of its own) by
    its record alone: an absolute element whose window does not hold
    the scroll distance is hidden ([display] is ['none']) and its
    position and opacity are left as they were; any other element has
    as [top], [left] and [opacity] what its three evaluators return at
    the progress (distance - enterAt) / duration, an absolute one
    being shown again ([display] is empty). *)
Theorem update_places_every_element
        (host : Host) (this : t) (doc doc' : Document)
        (placeholder : HTMLElement)
        (rs : list Scrollomat.CompiledScrollInstruction) :
  scrollPlaceholder this = Some placeholder ->
  compilationResult this = Some rs ->
  NoDup (map (fun r => Scrollomat.element (Scrollomat.base r)) rs) ->
  update host this doc = (doc', None) ->
  forall r,
    In r rs ->
    placed host (captured this)
           (currentScrollDistance host this placeholder) r doc doc'.
Proof.
  intros Hp Hrs Hnd E r Hin. unfold update in E. rewrite Hp, Hrs in E.
  exact (proj1 (update_each_placed host this _ rs doc doc' Hnd E) r Hin).
Qed.

(** An instance: scrolled to the distance 110, an element that enters
    at 10 is positioned, and an absolute one that enters at 200 is
    hidden. *)
Lemma update_places_every_element_witness :
  let shown :=
    Scrollomat.set_enterAt 10
      (Scrollomat.initial
         {| Scrollomat.element := 1%nat; Scrollomat.instruction := "enter 10";
            Scrollomat.name := "a" |}) in
  let hidden :=
    Scrollomat.set_enterAt 200
      (Scrollomat.set_isAbsolute true
         (Scrollomat.initial
            {| Scrollomat.element := 2%nat;
               Scrollomat.instruction := "!absolute; enter 200";
               Scrollomat.name := "b" |})) in
  let this :=
    {| compilationResult := Some [shown; hidden]; canvas := 0%nat;
       entries := []; scrollPlaceholder := Some 10%nat; maxHeight := 300;
       captured := [("a", shown); ("b", hidden)] |} in
  let doc' := fst (update Documents.host this Documents.document) in
  currentScrollDistance Documents.host this 10%nat = 110
  /\ placed Documents.host (captured this) 110 shown Documents.document doc'
  /\ placed Documents.host (captured this) 110 hidden Documents.document doc'.
Proof.
  intros shown hidden this doc'.
  split; [reflexivity|].
  assert (Hnd : NoDup (map (fun r => Scrollomat.element (Scrollomat.base r))
                           [shown; hidden])).
  { cbn [map]. repeat constructor; cbn [In]; intuition discriminate. }
  assert (Hrun : update Documents.host this Documents.document
                 = (doc', None)) by reflexivity.
  split.
  - apply (update_places_every_element Documents.host this
             Documents.document doc' 10%nat [shown; hidden] eq_refl eq_refl
             Hnd Hrun).
    left. reflexivity.
  - apply (update_places_every_element Documents.host this
             Documents.document doc' 10%nat [shown; hidden] eq_refl eq_refl
             Hnd Hrun).
    right. left. reflexivity.
Defined.

End PlacementFacts.
